(** * fix_systemtime.py: a shallow embedding and its specification

    The script scans a Rust source tree for [SystemTime::now()], sorts the
    hits into categories and rewrites some of them in place.  This file
    embeds the script (string primitives, the regular expressions it uses,
    the file system it reads and writes, the methods of [SystemTimeFixer]
    and [main]) and proves or refutes the properties stated about it.

    Modelling conventions.
    - Text is [list ascii], restricted to ASCII as far as the classes [\s]
      and [\w] are concerned.  A file holds the text as stored; reading it
      turns every CR LF and every CR into a line feed, as [open(p, 'r')]
      does, and writing stores the text given, a line feed as a line feed
      (the line separator of a POSIX system).
    - Paths are the strings [str(path)] prints; the project root is given in
      the normal form pathlib keeps (no trailing slash, not [.]).
    - The file system is an association list from paths to contents, in the
      order the directory walk yields them, plus a list of directories; a
      directory also exists when a file lies below it.  The walk yields the
      files in that order and then the directories whose name matches;
      Python leaves the order of a walk to the operating system.  *)

From Stdlib Require Import Ascii String DecimalString.
From Stdlib Require Import List ZArith Lia Bool Arith PeanoNat.
Import ListNotations.

Set Implicit Arguments.

(** ** Python text *)

Module Py.

Definition str := list ascii.

(** [lit "abc"] is the text of a Python string literal. *)
Definition lit (s : string) : str := list_ascii_of_string s.
Arguments lit : simpl never.

Definition LF : ascii := ascii_of_nat 10.

Definition eqb_str (a b : str) : bool :=
  if list_eq_dec ascii_dec a b then true else false.

(** [s.startswith(p)], returning what follows the prefix. *)
Fixpoint strip_prefix (p s : str) : option str :=
  match p with
  | [] => Some s
  | a :: p' =>
      match s with
      | [] => None
      | b :: s' => if Ascii.eqb a b then strip_prefix p' s' else None
      end
  end.

Definition starts_with (p s : str) : bool :=
  match strip_prefix p s with Some _ => true | None => false end.

Definition ends_with (p s : str) : bool := starts_with (rev p) (rev s).

(** [s.find(sub)] as an option: the least index at which [sub] starts. *)
Fixpoint find (sub s : str) : option nat :=
  if starts_with sub s then Some 0
  else match s with
       | [] => None
       | _ :: s' => option_map S (find sub s')
       end.

(** [s.rfind(sub)] as an option: the greatest index at which [sub] starts. *)
Fixpoint rfind (sub s : str) : option nat :=
  match s with
  | [] => if starts_with sub s then Some 0 else None
  | _ :: s' =>
      match rfind sub s' with
      | Some i => Some (S i)
      | None => if starts_with sub s then Some 0 else None
      end
  end.

(** [sub in s] *)
Definition contains (sub s : str) : bool :=
  match find sub s with Some _ => true | None => false end.

(** The integer Python returns: the index, or -1. *)
Definition index_or_minus1 (o : option nat) : Z :=
  match o with Some i => Z.of_nat i | None => (-1)%Z end.

(** [s.find(sub, start)] for [0 <= start]. *)
Definition find_from (sub s : str) (start : nat) : Z :=
  match find sub (skipn start s) with
  | Some i => Z.of_nat (start + i)
  | None => (-1)%Z
  end.

(** A slice bound as Python resolves it: a negative bound counts from the
    end, and the result is clipped to [0 .. len]. *)
Definition clip (len : nat) (i : Z) : nat :=
  if (i <? 0)%Z then Z.to_nat (Z.of_nat len + i)
  else Nat.min (Z.to_nat i) len.

(** [s[:i]] and [s[i:]] *)
Definition slice_to (s : str) (i : Z) : str := firstn (clip (length s) i) s.
Definition slice_from (s : str) (i : Z) : str := skipn (clip (length s) i) s.

(** [xs[i]]: [None] stands for IndexError. *)
Definition get {A} (xs : list A) (i : Z) : option A :=
  if (i <? 0)%Z then
    if (Z.of_nat (length xs) + i <? 0)%Z then None
    else nth_error xs (Z.to_nat (Z.of_nat (length xs) + i))
  else nth_error xs (Z.to_nat i).

(** [xs[i] = x] on an index [get] accepts. *)
Fixpoint set_nth {A} (xs : list A) (n : nat) (x : A) : list A :=
  match xs, n with
  | [], _ => []
  | _ :: t, O => x :: t
  | a :: t, S n' => a :: set_nth t n' x
  end.

Definition set {A} (xs : list A) (i : Z) (x : A) : list A :=
  if (i <? 0)%Z then set_nth xs (Z.to_nat (Z.of_nat (length xs) + i)) x
  else set_nth xs (Z.to_nat i) x.

(** [xs.insert(i, x)] *)
Definition insert {A} (xs : list A) (i : Z) (x : A) : list A :=
  let n := clip (length xs) i in firstn n xs ++ x :: skipn n xs.

(** [str.isspace] on ASCII: tab, LF, VT, FF, CR, FS, GS, RS, US and space. *)
Definition is_space (c : ascii) : bool :=
  let n := nat_of_ascii c in
  ((9 <=? n) && (n <=? 13)) || ((28 <=? n) && (n <=? 32)).

(** [\w] on ASCII: letters, digits and the underscore. *)
Definition is_word (c : ascii) : bool :=
  let n := nat_of_ascii c in
  ((48 <=? n) && (n <=? 57)) || ((65 <=? n) && (n <=? 90))
  || ((97 <=? n) && (n <=? 122)) || (n =? 95).

Fixpoint lstrip (s : str) : str :=
  match s with
  | c :: s' => if is_space c then lstrip s' else s
  | [] => []
  end.

Definition rstrip (s : str) : str := rev (lstrip (rev s)).
Definition strip (s : str) : str := rstrip (lstrip s).

(** [f.readlines()]: the text cut after every line feed; the last line
    keeps no line feed when the text does not end with one. *)
Fixpoint readlines (s : str) : list str :=
  match s with
  | [] => []
  | c :: s' =>
      if Ascii.eqb c LF then [c] :: readlines s'
      else match readlines s' with
           | [] => [[c]]
           | l :: ls => (c :: l) :: ls
           end
  end.

(** [f.writelines(lines)] writes the lines one after the other. *)
Definition joinlines (ls : list str) : str := concat ls.

Definition CR : ascii := ascii_of_nat 13.

(** The text a file opened with [open(p, 'r')] hands out: every CR LF and
    every CR that stands alone becomes a line feed. *)
Fixpoint universal_newlines (s : str) : str :=
  match s with
  | [] => []
  | c :: s' =>
      if Ascii.eqb c CR then
        match s' with
        | d :: s'' =>
            if Ascii.eqb d LF then LF :: universal_newlines s''
            else LF :: universal_newlines s'
        | [] => [LF]
        end
      else c :: universal_newlines s'
  end.

(** [' ' * n] *)
Definition spaces (n : nat) : str := repeat " "%char n.

(** [str(n)] for a natural number. *)
Definition str_of_nat (n : nat) : str :=
  lit (NilEmpty.string_of_uint (Nat.to_uint n)).

End Py.

(** ** The regular expressions of the script

    The patterns use literals, the classes [\s], [\w] and [.], greedy
    [?], [*] and [+], and groups.  [rmatch] is the backtracking matcher of
    Python's [re]: it tries the alternatives of a greedy operator longest
    first and hands the rest of the text to a continuation, which may refuse
    it and so ask for the next alternative. *)

Module Re.
Import Py.

Inductive cls := CSpace | CWord | CAny.

Definition in_cls (c : cls) (a : ascii) : bool :=
  match c with
  | CSpace => is_space a
  | CWord => is_word a
  | CAny => negb (Ascii.eqb a LF)
  end.

Inductive regex :=
| Lit (l : str)
| Cls (c : cls)
| Cat (r1 r2 : regex)
| Opt (r : regex)
| Star (r : regex).

(** [r+] is [r] followed by [r*]. *)
Definition Plus (r : regex) : regex := Cat r (Star r).

(** The loop of a greedy [*]: try one more round of [step], and when no
    continuation of it succeeds, stop here.  A round that consumes nothing is
    not repeated.  [n] bounds the rounds by the length of the text. *)
Fixpoint star_loop (step : str -> (str -> option str) -> option str)
    (k : str -> option str) (n : nat) (s : str) : option str :=
  match n with
  | O => k s
  | S n' =>
      match step s (fun s' =>
              if length s' <? length s then star_loop step k n' s'
              else None) with
      | Some x => Some x
      | None => k s
      end
  end.

Fixpoint rmatch (r : regex) (s : str) (k : str -> option str) : option str :=
  match r with
  | Lit l =>
      match strip_prefix l s with
      | Some s' => k s'
      | None => None
      end
  | Cls c =>
      match s with
      | a :: s' => if in_cls c a then k s' else None
      | [] => None
      end
  | Cat r1 r2 => rmatch r1 s (fun s' => rmatch r2 s' k)
  | Opt r1 =>
      match rmatch r1 s k with
      | Some x => Some x
      | None => k s
      end
  | Star r1 => star_loop (rmatch r1) k (length s) s
  end.

(** [re.match(r, s)]: the text left after the match that starts at the head
    of [s]. *)
Definition match_here (r : regex) (s : str) : option str := rmatch r s Some.

(** [re.search(r, s)]: the leftmost match, as the text before it, the match
    and the text after it. *)
Fixpoint search (r : regex) (s : str) : option (str * str * str) :=
  match match_here r s with
  | Some rest => Some ([], firstn (length s - length rest) s, rest)
  | None =>
      match s with
      | [] => None
      | a :: s' =>
          match search r s' with
          | Some (pre, m, post) => Some (a :: pre, m, post)
          | None => None
          end
      end
  end.

Definition found (r : regex) (s : str) : bool :=
  match search r s with Some _ => true | None => false end.

(** [re.sub(r, repl, s, count)].  [repl] receives the matched text (group 0,
    which is also group 1 where the whole pattern is one group).  [limit] is
    [None] for [count=0] (no limit).  [skip] counts the characters of a match
    still to be passed over.  An empty match inserts the replacement and
    moves on by one character. *)
Fixpoint sub_go (r : regex) (repl : str -> str) (limit : option nat)
    (skip : nat) (s : str) : str :=
  match skip with
  | S k =>
      match s with
      | [] => []
      | _ :: s' => sub_go r repl limit k s'
      end
  | O =>
      match limit with
      | Some O => s
      | _ =>
          let limit' := option_map Nat.pred limit in
          match match_here r s with
          | Some rest =>
              match length s - length rest with
              | O =>
                  repl [] ++
                  match s with
                  | [] => []
                  | a :: s' => a :: sub_go r repl limit' 0 s'
                  end
              | S m' =>
                  repl (firstn (S m') s) ++
                  match s with
                  | [] => []
                  | _ :: s' => sub_go r repl limit' m' s'
                  end
              end
          | None =>
              match s with
              | [] => []
              | a :: s' => a :: sub_go r repl limit 0 s'
              end
          end
      end
  end.

Definition sub (r : regex) (repl : str) (s : str) : str :=
  sub_go r (fun _ => repl) None 0 s.

Definition sub_count (r : regex) (repl : str -> str) (s : str) (count : nat)
  : str :=
  sub_go r repl (match count with O => None | _ => Some count end) 0 s.

End Re.

(** ** The file system and the effects of the script *)

Module Fs.
Import Py.

Definition path := str.

Record fsys := mkFs {
  files : list (path * str);   (* regular files, in walk order *)
  dirs : list path             (* directories, listed when empty *)
}.

Fixpoint lookup (p : path) (l : list (path * str)) : option str :=
  match l with
  | [] => None
  | (q, c) :: l' => if eqb_str p q then Some c else lookup p l'
  end.

(** Writing keeps the place of an existing file and puts a new file last. *)
Fixpoint update (p : path) (c : str) (l : list (path * str))
  : list (path * str) :=
  match l with
  | [] => [(p, c)]
  | (q, d) :: l' =>
      if eqb_str p q then (q, c) :: l' else (q, d) :: update p c l'
  end.

Definition is_file (f : fsys) (p : path) : bool :=
  match lookup p (files f) with Some _ => true | None => false end.

(** A directory exists when it is listed or when a file lies below it. *)
Definition is_dir (f : fsys) (d : path) : bool :=
  existsb (eqb_str d) (dirs f)
  || existsb (fun e => starts_with (d ++ lit "/") (fst e)) (files f).

(** [os.path.exists(p)], [Path.exists()] *)
Definition exists_ (f : fsys) (p : path) : bool := is_file f p || is_dir f p.

(** [root / rel] for a normal-form root. *)
Definition join (root rel : path) : path := root ++ lit "/" ++ rel.

(** [path.name]: what follows the last slash. *)
Definition name (p : path) : str :=
  match rfind (lit "/") p with
  | Some i => skipn (S i) p
  | None => p
  end.

(** The directory a path lies in; [None] is the working directory. *)
Definition parent (p : path) : option path :=
  match rfind (lit "/") p with
  | Some i => Some (firstn i p)
  | None => None
  end.

Definition parent_exists (f : fsys) (p : path) : bool :=
  match parent p with
  | Some d => is_dir f d
  | None => true
  end.

(** The directories a path lies in: what stands before each of its
    slashes. *)
Fixpoint ancestors_from (before p : path) : list path :=
  match p with
  | [] => []
  | a :: p' =>
      (if Ascii.eqb a "/"%char then [before] else [])
      ++ ancestors_from (before ++ [a]) p'
  end.

Definition ancestors (p : path) : list path := ancestors_from [] p.

(** The directories of the tree, each once: those listed and those a file
    lies below. *)
Definition directories (f : fsys) : list path :=
  nodup (list_eq_dec ascii_dec)
        (dirs f ++ flat_map ancestors (map fst (files f))).

(** [root.rglob("*.rs")]: the paths below [root] whose name ends in [.rs],
    the regular files in walk order, then the directories of that name. *)
Definition rglob_rs (f : fsys) (root : path) : list path :=
  filter (fun p => starts_with (root ++ lit "/") p && ends_with (lit ".rs") p)
         (map fst (files f)
          ++ filter (fun d => negb (is_file f d)) (directories f)).

End Fs.

Module Fixer.
Import Py Re Fs.
Local Open Scope string_scope.
Local Open Scope nat_scope.
Local Open Scope list_scope.

(** *** State, trace and exceptions *)

Inductive method :=
| FindSystemtimeUsage
| CategorizeUsage
| CreateTimeHelperFunctions
| FixTimestampConversions
| FixStructFields
| FixDirectAssignments.

(** What the run does to the outside: the methods [run_fixes] enters and the
    files it opens.  A [Write] records the content the file had (if any) and
    the content written. *)
Inductive event :=
| Call (m : method)
| Read (p : path)
| Write (p : path) (old : option str) (new : str)
| OpenFailed (p : path).

Inductive exn :=
| FileNotFoundError (p : path)
| IsADirectoryError (p : path)
| IndexError.

(** [str(e)] *)
Definition exn_str (e : exn) : str :=
  match e with
  | FileNotFoundError p =>
      lit "[Errno 2] No such file or directory: '" ++ p ++ lit "'"
  | IsADirectoryError p =>
      lit "[Errno 21] Is a directory: '" ++ p ++ lit "'"
  | IndexError => lit "list index out of range"
  end.

Record state := mkState {
  fs : fsys;
  fixes_applied : list str;     (* self.fixes_applied *)
  stdout : list str;            (* one entry per print *)
  trace : list event
}.

Inductive result (A : Type) :=
| Val (a : A)
| Exn (e : exn).
Arguments Val {A} a.
Arguments Exn {A} e.

Definition M (A : Type) := state -> result A * state.

Definition ret {A} (a : A) : M A := fun st => (Val a, st).

Definition bind {A B} (m : M A) (f : A -> M B) : M B :=
  fun st =>
    match m st with
    | (Val a, st') => f a st'
    | (Exn e, st') => (Exn e, st')
    end.

Definition raise {A} (e : exn) : M A := fun st => (Exn e, st).

(** [try: m  except Exception as e: h e] *)
Definition try_except (m : M unit) (h : exn -> M unit) : M unit :=
  fun st =>
    match m st with
    | (Val a, st') => (Val a, st')
    | (Exn e, st') => h e st'
    end.

Notation "x <- c1 ;; c2" := (bind c1 (fun x => c2))
  (at level 61, c1 at next level, right associativity).
Notation "c1 ;; c2" := (bind c1 (fun _ => c2))
  (at level 61, right associativity).

Definition emit (e : event) : M unit :=
  fun st => (Val tt, mkState (fs st) (fixes_applied st) (stdout st)
                             (trace st ++ [e])).

Definition print (s : str) : M unit :=
  fun st => (Val tt, mkState (fs st) (fixes_applied st) (stdout st ++ [s])
                             (trace st)).

Definition append_fix (s : str) : M unit :=
  fun st => (Val tt, mkState (fs st) (fixes_applied st ++ [s]) (stdout st)
                             (trace st)).

Definition path_exists (p : path) : M bool :=
  fun st => (Val (exists_ (fs st) p), st).

(** [with open(p, 'r') as f: f.read()] *)
Definition read_file (p : path) : M str :=
  fun st =>
    match lookup p (files (fs st)) with
    | Some c => (emit (Read p) ;; ret (universal_newlines c)) st
    | None =>
        (emit (OpenFailed p) ;;
         raise (if is_dir (fs st) p then IsADirectoryError p
                else FileNotFoundError p)) st
    end.

(** [with open(p, 'w') as f: f.write(c)]: the text is stored as given, its
    line feeds as line feeds. *)
Definition write_file (p : path) (c : str) : M unit :=
  fun st =>
    let f := fs st in
    if is_file f p || (negb (is_dir f p) && parent_exists f p) then
      (Val tt, mkState (mkFs (update p c (files f)) (dirs f))
                       (fixes_applied st) (stdout st)
                       (trace st ++ [Write p (lookup p (files f)) c]))
    else
      (emit (OpenFailed p) ;;
       raise (if is_dir f p then IsADirectoryError p
              else FileNotFoundError p)) st.

(** [for x in xs: body x] *)
Fixpoint for_each {A} (xs : list A) (body : A -> M unit) : M unit :=
  match xs with
  | [] => ret tt
  | x :: xs' => body x ;; for_each xs' body
  end.

(** *** The matcher: [find_systemtime_usage] *)

(** An occurrence: the file, the 1-based line number, the stripped line. *)
Definition occurrence := (path * nat * str)%type.

(** [(std::time::)?SystemTime::now\(\)] *)
Definition usage_pattern : regex :=
  Cat (Opt (Lit (lit "std::time::"))) (Lit (lit "SystemTime::now()")).

(** [enumerate(lines, 1)] filtered by the pattern. *)
Fixpoint scan_lines (rust_file : path) (line_num : nat) (lines : list str)
  : list occurrence :=
  match lines with
  | [] => []
  | line :: rest =>
      (if found usage_pattern line
       then [(rust_file, line_num, strip line)] else [])
      ++ scan_lines rust_file (S line_num) rest
  end.

Definition scan_file (rust_file : path) : M (list occurrence) :=
  fun st =>
    match read_file rust_file st with
    | (Val content, st') =>
        (Val (scan_lines rust_file 1 (readlines content)), st')
    | (Exn e, st') =>
        (print (lit "Warning: Could not read " ++ rust_file ++ lit ": "
                ++ exn_str e) ;; ret []) st'
    end.

Fixpoint scan_files (fs : list path) : M (list occurrence) :=
  match fs with
  | [] => ret []
  | f :: fs' =>
      here <- scan_file f ;;
      rest <- scan_files fs' ;;
      ret (here ++ rest)
  end.

Definition find_systemtime_usage (project_root : path) : M (list occurrence) :=
  fun st => scan_files (rglob_rs (fs st) project_root) st.

(** *** The classifier: [categorize_usage] *)

Inductive category :=
| TimestampConversion
| DirectAssignment
| StructField
| FunctionCall
| Other.

(** The dictionary [categories]: one list per key, keys in insertion
    order. *)
Record categories := mkCats {
  timestamp_conversion : list occurrence;
  direct_assignment : list occurrence;
  struct_field : list occurrence;
  function_call : list occurrence;
  other : list occurrence
}.

Definition empty_categories : categories := mkCats [] [] [] [] [].

(** [let\s+\w+\s*=.*SystemTime::now] *)
Definition let_pattern : regex :=
  Cat (Lit (lit "let"))
  (Cat (Plus (Cls CSpace))
  (Cat (Plus (Cls CWord))
  (Cat (Star (Cls CSpace))
  (Cat (Lit (lit "="))
  (Cat (Star (Cls CAny))
       (Lit (lit "SystemTime::now"))))))).

(** The [if]/[elif] chain of the loop body. *)
Definition classify (line : str) : category :=
  if contains (lit "duration_since") line && contains (lit "UNIX_EPOCH") line
  then TimestampConversion
  else if found let_pattern line
  then DirectAssignment
  else if contains (lit ":") line && contains (lit "SystemTime::now()") line
  then StructField
  else if contains (lit "(") line && contains (lit "SystemTime::now()") line
  then FunctionCall
  else Other.

(** [categories[key].append(occ)] *)
Definition add_to (c : category) (o : occurrence) (cs : categories)
  : categories :=
  match c with
  | TimestampConversion =>
      mkCats (timestamp_conversion cs ++ [o]) (direct_assignment cs)
             (struct_field cs) (function_call cs) (other cs)
  | DirectAssignment =>
      mkCats (timestamp_conversion cs) (direct_assignment cs ++ [o])
             (struct_field cs) (function_call cs) (other cs)
  | StructField =>
      mkCats (timestamp_conversion cs) (direct_assignment cs)
             (struct_field cs ++ [o]) (function_call cs) (other cs)
  | FunctionCall =>
      mkCats (timestamp_conversion cs) (direct_assignment cs)
             (struct_field cs) (function_call cs ++ [o]) (other cs)
  | Other =>
      mkCats (timestamp_conversion cs) (direct_assignment cs)
             (struct_field cs) (function_call cs) (other cs ++ [o])
  end.

Fixpoint categorize_loop (matches : list occurrence) (cs : categories)
  : categories :=
  match matches with
  | [] => cs
  | (file_path, line_num, line) :: rest =>
      categorize_loop rest (add_to (classify line) (file_path, line_num, line) cs)
  end.

Definition categorize_usage (matches : list occurrence) : categories :=
  categorize_loop matches empty_categories.

(** [categories[key]] *)
Definition bucket (c : category) (cs : categories) : list occurrence :=
  match c with
  | TimestampConversion => timestamp_conversion cs
  | DirectAssignment => direct_assignment cs
  | StructField => struct_field cs
  | FunctionCall => function_call cs
  | Other => other cs
  end.

Definition all_categories : list category :=
  [TimestampConversion; DirectAssignment; StructField; FunctionCall; Other].

Definition category_key (c : category) : str :=
  match c with
  | TimestampConversion => lit "timestamp_conversion"
  | DirectAssignment => lit "direct_assignment"
  | StructField => lit "struct_field"
  | FunctionCall => lit "function_call"
  | Other => lit "other"
  end.

(** The method [fix_capability_tokens] is called neither by [run_fixes] nor
    by [main]; it is left out. *)

(** *** The timestamp-conversion rewriter *)

(** Text given line by line, each line closed by a line feed. *)
Definition text (ls : list string) : str :=
  concat (map (fun l => lit l ++ [LF]) ls).

Definition helper_signature : str := lit "fn current_unix_timestamp() -> u64".

Definition helper_function : str :=
  text [ EmptyString;
         "fn current_unix_timestamp() -> u64 {";
         "    // TODO: Replace with injected time source in production";
         "    #[allow(clippy::disallowed_methods)]";
         "    std::time::SystemTime::now()";
         "        .duration_since(std::time::UNIX_EPOCH)";
         "        .unwrap_or_default()";
         "        .as_secs()";
         "}";
         EmptyString ].

(** [SystemTime::now\(\)\.duration_since\((?:std::time::)?UNIX_EPOCH] followed
    by the literal tail of the chain. *)
Definition chain (tail : string) : regex :=
  Cat (Lit (lit "SystemTime::now().duration_since("))
  (Cat (Opt (Lit (lit "std::time::")))
       (Lit (lit "UNIX_EPOCH" ++ lit tail))).

Definition millis_try_pattern : regex := chain ")?.as_millis() as u64".
Definition secs_try_pattern : regex := chain ")?.as_secs()".
Definition millis_unwrap_pattern : regex := chain ").unwrap().as_millis()".

(** The block under the comment [Insert after imports]. *)
Definition inject_helper (content : str) : str :=
  if negb (contains helper_signature content) then
    match rfind (lit "use ") content with
    | Some import_end =>
        let next_line := find_from [LF] content import_end in
        slice_to content next_line ++ [LF] ++ helper_function
        ++ slice_from content next_line
    | None => content
    end
  else content.

(** The three [re.sub] calls, in the order of the source. *)
Definition convert_chains (content : str) : str :=
  let content := sub millis_try_pattern
                     (lit "current_unix_timestamp() * 1000") content in
  let content := sub secs_try_pattern
                     (lit "current_unix_timestamp()") content in
  sub millis_unwrap_pattern (lit "current_unix_timestamp() * 1000") content.

(** The new content computed for one occurrence in [file_path]. *)
Definition convert_content (file_path : path) (content : str) : str :=
  if contains (lit "cli") file_path
  then convert_chains (inject_helper content)
  else content.

Definition fix_timestamp_conversion (o : occurrence) : M unit :=
  let '(file_path, line_num, line) := o in
  try_except
    (original_content <- read_file file_path ;;
     let content := convert_content file_path original_content in
     if negb (eqb_str content original_content) then
       write_file file_path content ;;
       append_fix (lit "Timestamp conversions in " ++ name file_path)
     else ret tt)
    (fun e => print (lit "Error fixing " ++ file_path ++ lit ": "
                     ++ exn_str e)).

Definition fix_timestamp_conversions (matches : list occurrence) : M unit :=
  for_each matches fix_timestamp_conversion.

(** *** The struct-field rewriter *)

(** [name:\s*SystemTime::now\(\),?], with [(?:std::time::)?] before the call
    when [namespaced]. *)
Definition field_pattern (field : string) (namespaced : bool) : regex :=
  Cat (Lit (lit field ++ lit ":"))
  (Cat (Star (Cls CSpace))
  (Cat (if namespaced then Opt (Lit (lit "std::time::")) else Lit [])
  (Cat (Lit (lit "SystemTime::now()"))
       (Opt (Lit (lit ",")))))).

(** The list [fixes]: pattern and replacement, in the order of the source.
    The first pattern carries no namespace group. *)
Definition fixes : list (regex * str) :=
  [ (field_pattern "created_at" false, lit "created_at: current_timestamp,");
    (field_pattern "timestamp" true, lit "timestamp: current_timestamp,");
    (field_pattern "last_activity" true, lit "last_activity: current_timestamp,");
    (field_pattern "started_at" true, lit "started_at: current_timestamp,");
    (field_pattern "generated_at" true, lit "generated_at: current_timestamp,");
    (field_pattern "recorded_at" true, lit "recorded_at: current_timestamp,");
    (field_pattern "exported_at" true, lit "exported_at: current_timestamp,");
    (field_pattern "executed_at" true, lit "executed_at: current_timestamp,");
    (field_pattern "connected_at" true, lit "connected_at: current_timestamp,") ].

(** The loop over [fixes] with its [break]: the rewritten line for the first
    pattern found in [original_line], if any. *)
Fixpoint first_fix (fs : list (regex * str)) (original_line : str)
  : option str :=
  match fs with
  | [] => None
  | (pattern, replacement) :: fs' =>
      if found pattern original_line
      then Some (sub pattern replacement original_line)
      else first_fix fs' original_line
  end.

Definition fix_struct_field (o : occurrence) : M unit :=
  let '(file_path, line_num, line) := o in
  try_except
    (content <- read_file file_path ;;
     let lines := readlines content in
     match get lines (Z.of_nat line_num - 1) with
     | None => raise IndexError
     | Some original_line =>
         match first_fix fixes original_line with
         | Some new_line =>
             write_file file_path
               (joinlines (set lines (Z.of_nat line_num - 1) new_line)) ;;
             append_fix (lit "Struct field in " ++ name file_path ++ lit ":"
                         ++ str_of_nat line_num)
         | None => ret tt
         end
     end)
    (fun e => print (lit "Error fixing " ++ file_path ++ lit ":"
                     ++ str_of_nat line_num ++ lit ": " ++ exn_str e)).

Definition fix_struct_fields (matches : list occurrence) : M unit :=
  for_each matches fix_struct_field.

(** *** The direct-assignment rewriter *)

(** [let\s+\w+\s*=.*SystemTime::now\(\)] *)
Definition let_call_pattern : regex :=
  Cat (Lit (lit "let"))
  (Cat (Plus (Cls CSpace))
  (Cat (Plus (Cls CWord))
  (Cat (Star (Cls CSpace))
  (Cat (Lit (lit "="))
  (Cat (Star (Cls CAny))
       (Lit (lit "SystemTime::now()"))))))).

Definition allow_attribute : str := lit "#[allow(clippy::disallowed_methods)]".

(** [' ' * indent + '#[allow(clippy::disallowed_methods)]\n'] *)
Definition allow_line (original_line : str) : str :=
  let indent := length original_line - length (lstrip original_line) in
  spaces indent ++ allow_attribute ++ [LF].

Definition fix_direct_assignment (o : occurrence) : M unit :=
  let '(file_path, line_num, line) := o in
  try_except
    (content <- read_file file_path ;;
     let lines := readlines content in
     match get lines (Z.of_nat line_num - 1) with
     | None => raise IndexError
     | Some original_line =>
         if found let_call_pattern original_line then
           if contains (lit "test") file_path
              || contains (lit "utils") file_path
           then
             write_file file_path
               (joinlines (insert lines (Z.of_nat line_num - 1)
                                  (allow_line original_line))) ;;
             append_fix (lit "Added allow attribute in " ++ name file_path
                         ++ lit ":" ++ str_of_nat line_num)
           else ret tt
         else ret tt
     end)
    (fun e => print (lit "Error fixing " ++ file_path ++ lit ":"
                     ++ str_of_nat line_num ++ lit ": " ++ exn_str e)).

Definition fix_direct_assignments (matches : list occurrence) : M unit :=
  for_each matches fix_direct_assignment.

(** *** The helper injector: [create_time_helper_functions] *)

Definition utils_content : str :=
  text [ "//! Time utility functions for the Aura codebase";
         "//!";
         "//! This module provides centralized time functions that can be easily";
         "//! replaced with injectable time sources for testing and deterministic execution.";
         EmptyString;
         "use std::time::{SystemTime, UNIX_EPOCH};";
         EmptyString;
         "/// Get current Unix timestamp in seconds";
         "/// ";
         "/// TODO: Replace with injected time source in production";
         "pub fn current_unix_timestamp() -> u64 {";
         "    #[allow(clippy::disallowed_methods)]";
         "    SystemTime::now()";
         "        .duration_since(UNIX_EPOCH)";
         "        .unwrap_or_default()";
         "        .as_secs()";
         "}";
         EmptyString;
         "/// Get current Unix timestamp in milliseconds";
         "/// ";
         "/// TODO: Replace with injected time source in production  ";
         "pub fn current_unix_timestamp_millis() -> u64 {";
         "    #[allow(clippy::disallowed_methods)]";
         "    SystemTime::now()";
         "        .duration_since(UNIX_EPOCH)";
         "        .unwrap_or_default()";
         "        .as_millis() as u64";
         "}";
         EmptyString;
         "/// Get current SystemTime";
         "/// ";
         "/// TODO: Replace with injected time source in production";
         "pub fn current_system_time() -> SystemTime {";
         "    #[allow(clippy::disallowed_methods)]";
         "    SystemTime::now()";
         "}" ].

Definition utils_dir (project_root : path) : path :=
  join project_root (lit "crates/aura-types/src").
Definition utils_file (project_root : path) : path :=
  join (utils_dir project_root) (lit "time_utils.rs").
Definition lib_file (project_root : path) : path :=
  join (utils_dir project_root) (lit "lib.rs").

Definition registration : str := lit "pub mod time_utils;".

(** The pattern [mod_pattern]: one module declaration, [pub mod], a word,
    a semicolon. *)
Definition mod_pattern : regex :=
  Cat (Lit (lit "pub mod ")) (Cat (Plus (Cls CWord)) (Lit (lit ";"))).

(** The pattern of the substitution: a run of one or more module
    declarations, each followed by any white space. *)
Definition mod_run_pattern : regex :=
  Plus (Cat (Lit (lit "pub mod "))
       (Cat (Plus (Cls CWord))
       (Cat (Lit (lit ";")) (Star (Cls CSpace))))).

(** The replacement template: group 1, then the registration line. *)
Definition mod_run_replacement (group1 : str) : str :=
  group1 ++ registration ++ [LF].

(** The new [lib_content] when the registration is absent. *)
Definition register (lib_content : str) : str :=
  if found mod_pattern lib_content
  then sub_count mod_run_pattern mod_run_replacement lib_content 1
  else registration ++ [LF] ++ lib_content.

Definition create_time_helper_functions (project_root : path) : M unit :=
  try_except
    (write_file (utils_file project_root) utils_content ;;
     lib_exists <- path_exists (lib_file project_root) ;;
     (if lib_exists then
        lib_content <- read_file (lib_file project_root) ;;
        if negb (contains registration lib_content)
        then write_file (lib_file project_root) (register lib_content)
        else ret tt
      else ret tt) ;;
     append_fix (lit "Created time_utils module"))
    (fun e => print (lit "Error creating time utils: " ++ exn_str e)).

(** *** [run_fixes] and [main] *)

(** The report of one category: the count, the first three occurrences,
    the number of the others. *)
Definition print_category (c : category) (cs : categories) : M unit :=
  let items := bucket c cs in
  match items with
  | [] => ret tt
  | _ =>
      print ([LF] ++ lit "📂 " ++ category_key c ++ lit ": "
             ++ str_of_nat (length items) ++ lit " instances") ;;
      for_each (firstn 3 items) (fun o =>
        let '(file_path, line_num, line) := o in
        print (lit "  " ++ name file_path ++ lit ":" ++ str_of_nat line_num
               ++ lit " - " ++ firstn 60 line ++ lit "...")) ;;
      if 3 <? length items
      then print (lit "  ... and " ++ str_of_nat (length items - 3)
                  ++ lit " more")
      else ret tt
  end.

Definition print_summary : M unit :=
  fun st =>
    (print ([LF] ++ lit "✅ Applied "
            ++ str_of_nat (length (fixes_applied st)) ++ lit " fixes:") ;;
     for_each (fixes_applied st) (fun fix_ => print (lit "  • " ++ fix_)) ;;
     print ([LF] ++ lit "📝 Manual review needed for:") ;;
     print (lit "  • Function signatures that need current_timestamp parameters") ;;
     print (lit "  • Integration with effects-based time sources") ;;
     print (lit "  • Test files that should use deterministic time")) st.

Definition run_fixes (project_root : path) : M unit :=
  print (lit "🔍 Finding SystemTime::now() usage...") ;;
  emit (Call FindSystemtimeUsage) ;;
  matches <- find_systemtime_usage project_root ;;
  match matches with
  | [] => print (lit "✅ No SystemTime::now() usage found!")
  | _ =>
      print (lit "Found " ++ str_of_nat (length matches)
             ++ lit " instances of SystemTime::now()") ;;
      emit (Call CategorizeUsage) ;;
      let categories := categorize_usage matches in
      for_each all_categories (fun c => print_category c categories) ;;
      print ([LF] ++ lit "🔧 Applying fixes...") ;;
      emit (Call CreateTimeHelperFunctions) ;;
      create_time_helper_functions project_root ;;
      emit (Call FixTimestampConversions) ;;
      fix_timestamp_conversions (timestamp_conversion categories) ;;
      emit (Call FixStructFields) ;;
      fix_struct_fields (struct_field categories) ;;
      emit (Call FixDirectAssignments) ;;
      fix_direct_assignments (direct_assignment categories) ;;
      print_summary
  end.

(** The state a process starts in: the given tree, nothing printed, nothing
    done. *)
Definition initial (f : fsys) : state := mkState f [] [] [].

(** [main] on [sys.argv] (the script name first): the exit code and the final
    state.  An exception that leaves [run_fixes] ends the process with
    code 1. *)
Definition main (argv : list str) (f : fsys) : nat * state :=
  match argv with
  | [_; project_root] =>
      if negb (exists_ f project_root) then
        (1, snd (print (lit "Error: Project root '" ++ project_root
                        ++ lit "' does not exist") (initial f)))
      else
        match run_fixes project_root (initial f) with
        | (Val _, st) => (0, st)
        | (Exn _, st) => (1, st)
        end
  | _ =>
      (1, snd (print (lit "Usage: python3 fix_systemtime.py <project_root>")
                     (initial f)))
  end.

End Fixer.

(** ** What a pattern matches

    [lang r m]: the text [m] belongs to the language of [r].  The matcher is
    sound for it (see [rmatch_sound]). *)

Module ReLang.
Import Py Re.

Inductive lang : regex -> str -> Prop :=
| LLit l : lang (Lit l) l
| LCls c a : in_cls c a = true -> lang (Cls c) [a]
| LCat r1 r2 m1 m2 : lang r1 m1 -> lang r2 m2 -> lang (Cat r1 r2) (m1 ++ m2)
| LOptNone r : lang (Opt r) []
| LOptSome r m : lang r m -> lang (Opt r) m
| LStarNil r : lang (Star r) []
| LStarCons r m1 m2 :
    lang r m1 -> lang (Star r) m2 -> lang (Star r) (m1 ++ m2).

End ReLang.

(** ** Definitions used to state the properties *)

Module Props.
Import Py Re Fs Fixer.
Local Open Scope string_scope.
Local Open Scope nat_scope.
Local Open Scope list_scope.


Definition category_eqb (a b : category) : bool :=
  match a, b with
  | TimestampConversion, TimestampConversion
  | DirectAssignment, DirectAssignment
  | StructField, StructField
  | FunctionCall, FunctionCall
  | Other, Other => true
  | _, _ => false
  end.

(** The four tests of the classifier, in the order it applies them. *)
Definition has_conversion_tokens (line : str) : bool :=
  contains (lit "duration_since") line && contains (lit "UNIX_EPOCH") line.
Definition is_binding (line : str) : bool := found let_pattern line.
Definition has_colon_and_call (line : str) : bool :=
  contains (lit ":") line && contains (lit "SystemTime::now()") line.
Definition has_paren_and_call (line : str) : bool :=
  contains (lit "(") line && contains (lit "SystemTime::now()") line.

(** The text every conversion chain starts with. *)
Definition chain_head : str := lit "SystemTime::now().duration_since(".

(** A conversion chain as it stands in a source file: the head, the epoch
    constant with or without its namespace, and the tail. *)
Definition chain_text (namespaced : bool) (tail : string) : str :=
  chain_head ++ (if namespaced then lit "std::time::" else [])
  ++ lit "UNIX_EPOCH" ++ lit tail.

(** The tails of the three chains the rewriter converts, in the order of
    its substitutions, and what each chain is replaced by. *)
Definition tails : list string :=
  [")?.as_millis() as u64"; ")?.as_secs()"; ").unwrap().as_millis()"].

Definition helper_call (tail : string) : str :=
  if String.eqb tail ")?.as_secs()"
  then lit "current_unix_timestamp()"
  else lit "current_unix_timestamp() * 1000".

(** [y] completes no chain begun before it: no end of a chain is a
    beginning of [y]. *)
Definition sealed (y : str) : Prop :=
  forall namespaced tail k,
    In tail tails -> 1 <= k -> k < length (chain_text namespaced tail) ->
    starts_with (skipn k (chain_text namespaced tail)) y = false.

(** [y] does not complete a chain head that began before it. *)
Definition safe (y : str) : Prop :=
  forall k, 1 <= k -> k < length chain_head ->
    starts_with (skipn k chain_head) y = false.

(** The pattern matches at no place of [a] in the text [a ++ y]. *)
Definition nomatch (r : Re.regex) (a y : str) : Prop :=
  forall i, i < length a -> Re.match_here r (skipn i (a ++ y)) = None.

(** The pattern matches at no place of [t]. *)
Definition free (r : Re.regex) (t : str) : Prop :=
  forall u v, t = u ++ v -> Re.match_here r v = None.

(** No chain the rewriter converts stands anywhere in [t]. *)
Definition settled (t : str) : Prop :=
  forall tail, In tail tails -> free (chain tail) t.


Definition is_call (e : event) : bool :=
  match e with Call _ => true | _ => false end.

Definition is_rewriter (m : method) : bool :=
  match m with
  | FixTimestampConversions | FixStructFields | FixDirectAssignments => true
  | _ => false
  end.

(** The occurrences the matcher finds in a tree. *)
Definition matches_of (project_root : path) (f : fsys) : list occurrence :=
  match find_systemtime_usage project_root (initial f) with
  | (Val ms, _) => ms
  | (Exn _, _) => []
  end.

(** The content of a file after a run of the script on a tree. *)
Definition run_tree (project_root : path) (f : fsys) : fsys :=
  fs (snd (main [lit "fix_systemtime.py"; project_root] f)).

Definition content_of (f : fsys) (p : path) : option str :=
  lookup p (files f).

(** The lines of a file of the tree as stored; none when the file does not
    exist. *)
Definition lines_of (f : fsys) (p : path) : list str :=
  match lookup p (files f) with
  | Some c => readlines c
  | None => []
  end.

(** The text [open(p, 'r').read()] returns for a file of the tree. *)
Definition read_text (f : fsys) (p : path) : option str :=
  option_map universal_newlines (lookup p (files f)).

(** The lines [readlines] returns for a file of the tree; none when the
    file does not exist. *)
Definition lines_read (f : fsys) (p : path) : list str :=
  match read_text f p with
  | Some t => readlines t
  | None => []
  end.

(** The segments of a path: what stands between its slashes. *)
Fixpoint segments_from (current : str) (p : path) : list str :=
  match p with
  | [] => [current]
  | a :: p' =>
      if Ascii.eqb a "/"%char then current :: segments_from [] p'
      else segments_from (current ++ [a]) p'
  end.

Definition segments (p : path) : list str := segments_from [] p.

(** The path marker as the specification words it: a segment of the
    path. *)
Definition has_marker_segment (marker : str) (p : path) : bool :=
  existsb (eqb_str marker) (segments p).

(** The registration as the specification words it: the line goes after the
    last line that holds a module declaration, or at the top when there is
    none. *)
Fixpoint last_mod_line (lines : list str) (i : nat) (acc : option nat)
  : option nat :=
  match lines with
  | [] => acc
  | l :: rest =>
      last_mod_line rest (S i) (if found mod_pattern l then Some i else acc)
  end.

Definition register_after_last (lib_content : str) : str :=
  let lines := readlines lib_content in
  match last_mod_line lines 0 None with
  | Some i =>
      joinlines (firstn (S i) lines ++ [registration ++ [LF]]
                 ++ skipn (S i) lines)
  | None => registration ++ [LF] ++ lib_content
  end.

(** The four ways a step changes the state. *)
Definition log (evs : list event) (st : state) : state :=
  mkState (fs st) (fixes_applied st) (stdout st) (trace st ++ evs).
Definition say (out : list str) (st : state) : state :=
  mkState (fs st) (fixes_applied st) (stdout st ++ out) (trace st).
Definition note (s : str) (st : state) : state :=
  mkState (fs st) (fixes_applied st ++ [s]) (stdout st) (trace st).
Definition store (p : path) (c : str) (st : state) : state :=
  mkState (mkFs (update p c (files (fs st))) (dirs (fs st)))
          (fixes_applied st) (stdout st) (trace st).

(** The state an action leaves. *)
Definition exec {A} (m : M A) (st : state) : state := snd (m st).

(** The exception [open] raises on a path that is no regular file. *)
Definition open_error (f : fsys) (p : path) : exn :=
  if is_dir f p then IsADirectoryError p else FileNotFoundError p.

Definition can_write (f : fsys) (p : path) : bool :=
  is_file f p || (negb (is_dir f p) && parent_exists f p).

(** The trace grows by events that satisfy [P]. *)
Definition ext (P : event -> Prop) (st st' : state) : Prop :=
  exists evs, trace st' = trace st ++ evs /\ Forall P evs.

Definition is_open (e : event) : bool :=
  match e with Read _ | OpenFailed _ => true | _ => false end.

(** Only the output and the trace grow, the latter by files opened for
    reading. *)
Definition observes (st st' : state) : Prop :=
  fs st' = fs st /\ fixes_applied st' = fixes_applied st
  /\ ext (fun e => is_open e = true) st st'.


(** The occurrences in the files [ps] of a tree. *)
Definition scan_tree (f : fsys) (ps : list path) : list occurrence :=
  flat_map (fun p => scan_lines p 1 (lines_read f p)) ps.

(** The stages of [run_fixes]: the state after the scan, the state in which
    the helper injector starts, the state the three rewriters leave. *)
Definition after_scan (root : path) (st : state) : state :=
  exec (find_systemtime_usage root)
       (log [Call FindSystemtimeUsage]
            (say [lit "🔍 Finding SystemTime::now() usage..."] st)).

Definition before_fixes (ms : list occurrence) (st : state) : state :=
  log [Call CreateTimeHelperFunctions]
    (say [[LF] ++ lit "🔧 Applying fixes..."]
       (exec (for_each all_categories
                (fun c => print_category c (categorize_usage ms)))
          (log [Call CategorizeUsage]
             (say [lit "Found " ++ str_of_nat (length ms)
                   ++ lit " instances of SystemTime::now()"] st)))).

Definition after_injector (root : path) (st : state) : state :=
  exec (create_time_helper_functions root) st.

(** What the injector opens, in order, and the export file it leaves. *)
Definition injector_trace (root : path) (f : fsys) : list event :=
  let uf := utils_file root in
  let lf := lib_file root in
  if can_write f uf then
    let f1 := mkFs (update uf utils_content (files f)) (dirs f) in
    Write uf (lookup uf (files f)) utils_content
    :: (if exists_ f1 lf then
          match lookup lf (files f1) with
          | None => [OpenFailed lf]
          | Some c =>
              let t := universal_newlines c in
              Read lf
              :: (if contains registration t then []
                  else [Write lf (Some c) (register t)])
          end
        else [])
  else [OpenFailed uf].

Definition after_rewriters (cs : categories) (st : state) : state :=
  exec (fix_direct_assignments (direct_assignment cs))
    (log [Call FixDirectAssignments]
       (exec (fix_struct_fields (struct_field cs))
          (log [Call FixStructFields]
             (exec (fix_timestamp_conversions (timestamp_conversion cs))
                (log [Call FixTimestampConversions] st))))).

(** The bucket test of the classifier loop. *)
Definition in_category (c : category) (o : occurrence) : bool :=
  category_eqb (classify (snd o)) c.

(** The shape of a line as [readlines] yields it: a body without line feed,
    closed by a line feed or, for the last line of a text, by nothing. *)
Definition line_of (body tail l : str) : Prop :=
  l = body ++ tail /\ ~ In LF body /\ (tail = [] \/ tail = [LF]).

(** The lines of a text: every line but the last is closed by a line feed,
    and the last is closed by one or is not empty. *)
Definition terminated (l : str) : Prop := exists body, line_of body [LF] l.

Definition last_ok (l : str) : Prop :=
  terminated l \/ (~ In LF l /\ l <> []).

Fixpoint wf_lines (ls : list str) : Prop :=
  match ls with
  | [] => True
  | l :: ls' =>
      match ls' with
      | [] => last_ok l
      | _ => terminated l /\ wf_lines ls'
      end
  end.

(** An action that never raises. *)
Definition total (m : M unit) : Prop :=
  forall st, m st = (Val tt, exec m st).

(** An action that only prints. *)
Definition prints_only (m : M unit) : Prop :=
  forall st, exists out, m st = (Val tt, say out st).

End Props.

(** ** Trees used as concrete inputs *)

Module Examples.
Import Py Re Fs Fixer Props.
Local Open Scope string_scope.
Local Open Scope nat_scope.
Local Open Scope list_scope.

Definition root : path := lit "proj".

(** A test file with one direct assignment. *)
Definition test_file : path := lit "proj/tests/clock.rs".
Definition test_tree : fsys :=
  mkFs [(test_file,
         text ["fn f() {"; "    let now = SystemTime::now();"; "}"])] [].

(** A source file with the field [created_at] set from the namespaced call,
    then from the plain call, then the field [timestamp] from the namespaced
    call. *)
Definition struct_file : path := lit "proj/src/session.rs".
Definition struct_tree : fsys :=
  mkFs [(struct_file,
         text ["    created_at: std::time::SystemTime::now(),";
               "    created_at: SystemTime::now(),";
               "    timestamp: std::time::SystemTime::now(),"])] [].


(** An entry-point file without any import. *)
Definition cli_file : path := lit "proj/cli/main.rs".
Definition cli_tree : fsys :=
  mkFs [(cli_file,
         text ["fn now() -> Result<u64> {";
               "    Ok(SystemTime::now().duration_since(UNIX_EPOCH)?.as_secs())";
               "}"])] [].

(** An export file whose module declarations do not form one run. *)
Definition split_lib : str :=
  text ["pub mod a;"; "pub mod b;"; EmptyString; "use a::A;"; "pub mod c;"].

(** A tree with that export file and a source file to fix. *)
Definition lib_tree : fsys :=
  mkFs [(lib_file root, split_lib);
        (struct_file, text ["    timestamp: SystemTime::now(),"])] [].

(** A tree with the crate directory and no occurrence of the call. *)
Definition quiet_tree : fsys :=
  mkFs [(lib_file root, text ["pub mod a;"])] [].

(** A function with an import and a chain. *)
Definition stamp_lines : list string :=
  ["use std::time::{SystemTime, UNIX_EPOCH};";
   "fn stamp() -> Result<u64> {";
   "    Ok(SystemTime::now().duration_since(UNIX_EPOCH)?.as_secs())";
   "}"].

(** That function in a source file whose name holds [cli] and which lies in
    no directory [cli]. *)
Definition client_file : path := lit "proj/src/client.rs".
Definition client_tree : fsys := mkFs [(client_file, text stamp_lines)] [].

(** That function in a source file whose path does not hold [cli]. *)
Definition clock_file : path := lit "proj/src/clock.rs".
Definition clock_tree : fsys := mkFs [(clock_file, text stamp_lines)] [].

(** Text given line by line, each line closed by CR LF. *)
Definition dos_text (ls : list string) : str :=
  concat (map (fun l => lit l ++ [CR; LF]) ls).

(** A source file with CR LF line ends and a field set from the call. *)
Definition dos_file : path := lit "proj/src/session.rs".
Definition dos_tree : fsys :=
  mkFs [(dos_file,
         dos_text ["Session {"; "    timestamp: SystemTime::now(),"; "}"])]
       [].


(** A tree with a directory whose name ends in [.rs]. *)
Definition gen_dir : path := lit "proj/gen.rs".
Definition gen_tree : fsys :=
  mkFs [(lit "proj/src/a.rs", text ["fn f() {}"])] [gen_dir].

End Examples.

(** ** Further definitions used to state properties of the script *)

Module More.
Import Py Re Fs Fixer Props.
Local Open Scope string_scope.
Local Open Scope nat_scope.
Local Open Scope list_scope.

(** The call the script looks for. *)
Definition call_token : str := lit "SystemTime::now()".

(** [p] lies below the project root. *)
Definition under (root p : path) : bool := starts_with (root ++ lit "/") p.

(** A Rust source file below the project root: what the walk yields. *)
Definition in_scope (root p : path) : bool :=
  under root p && ends_with (lit ".rs") p.

(** What opening a path for reading leaves in the trace. *)
Definition open_event (f : fsys) (p : path) : event :=
  if is_file f p then Read p else OpenFailed p.

(** The warning of the matcher for a path it cannot open. *)
Definition warning (f : fsys) (p : path) : str :=
  lit "Warning: Could not read " ++ p ++ lit ": "
  ++ exn_str (open_error f p).

(** The paths of a list that are no regular files. *)
Definition unreadable (f : fsys) (ps : list path) : list path :=
  filter (fun p => negb (is_file f p)) ps.

(** The number of white-space characters a line starts with. *)
Definition indent_of (line : str) : nat := length line - length (lstrip line).

(** The writes of a trace. *)
Definition count_writes (evs : list event) : nat :=
  length (filter (fun e => match e with Write _ _ _ => true | _ => false end)
                 evs).

(** The nine field names of the struct-field rewriter. *)
Definition field_names : list string :=
  ["created_at"; "timestamp"; "last_activity"; "started_at"; "generated_at";
   "recorded_at"; "exported_at"; "executed_at"; "connected_at"].

(** The tree the injector leaves. *)
Definition injector_fs (root : path) (f : fsys) : fsys :=
  let uf := utils_file root in
  let lf := lib_file root in
  if can_write f uf then
    let f1 := mkFs (update uf utils_content (files f)) (dirs f) in
    if exists_ f1 lf then
      match read_text f1 lf with
      | Some t =>
          if contains registration t then f1
          else mkFs (update lf (register t) (files f1)) (dirs f1)
      | None => f1
      end
    else f1
  else f.

(** What a step of a rewriter does to the tree: nothing, or a new content
    for the file of the occurrence, which existed. *)
Definition rewrites_own_file (p : path) (f f' : fsys) : Prop :=
  f' = f
  \/ exists c c', lookup p (files f) = Some c
                  /\ f' = mkFs (update p c' (files f)) (dirs f).

(** The identity of an occurrence: its file and its line number. *)
Definition identity (o : occurrence) : path * nat := (fst (fst o), snd (fst o)).

(** Between [a] and [b] every fix recorded has its write, and at most
    [slack] writes have no fix recorded. *)
Definition accounted (slack : nat) (a b : state) : Prop :=
  exists evs fx,
    trace b = trace a ++ evs
    /\ fixes_applied b = fixes_applied a ++ fx
    /\ length fx <= count_writes evs
    /\ count_writes evs <= length fx + slack.

End More.

(** * Proofs *)

(** Bounds that a computation refutes, and the two side conditions of the
    chain lemmas for a text whose first characters are known. *)
Ltac out_of_range H :=
  exfalso; apply Nat.ltb_lt in H; vm_compute in H; discriminate.

Ltac nomatch_known :=
  let i := fresh "i" in
  let Hi := fresh "Hi" in
  intros i Hi; repeat (destruct i as [|i]; [reflexivity|]); out_of_range Hi.

Ltac safe_known :=
  let k := fresh "k" in
  let H1 := fresh "H" in
  let H2 := fresh "H" in
  intros k H1 H2; destruct k as [|k]; [lia|];
  repeat (destruct k as [|k]; [reflexivity|]); out_of_range H2.


(** ** Text *)

Section TextFacts.
Import Py.

Lemma strip_prefix_app (p s : str) : strip_prefix p (p ++ s) = Some s.
Proof.
  induction p as [|a p IH]; simpl; [reflexivity|].
  now rewrite Ascii.eqb_refl.
Qed.

Lemma strip_prefix_some (p s r : str) :
  strip_prefix p s = Some r -> s = p ++ r.
Proof.
  revert s; induction p as [|a p IH]; simpl; intros s H.
  - now inversion H.
  - destruct s as [|b s]; [discriminate|].
    destruct (Ascii.eqb a b) eqn:E; [|discriminate].
    apply Ascii.eqb_eq in E; subst b. f_equal. now apply IH.
Qed.

Lemma starts_with_app (p s : str) : starts_with p (p ++ s) = true.
Proof. unfold starts_with. now rewrite strip_prefix_app. Qed.

Lemma starts_with_true (p s : str) :
  starts_with p s = true -> exists r, s = p ++ r.
Proof.
  unfold starts_with. destruct (strip_prefix p s) as [r|] eqn:E; [|discriminate].
  intros _. exists r. now apply strip_prefix_some.
Qed.

Lemma starts_with_false (p s r : str) :
  starts_with p s = false -> s <> p ++ r.
Proof.
  intros H E. subst s. now rewrite starts_with_app in H.
Qed.

Lemma strip_prefix_none (p s : str) :
  starts_with p s = false -> strip_prefix p s = None.
Proof.
  unfold starts_with. now destruct (strip_prefix p s).
Qed.

(** A prefix test looks at no more of the text than the prefix is long. *)
Lemma starts_with_ext (p s t : str) :
  length p <= length s -> starts_with p (s ++ t) = starts_with p s.
Proof.
  unfold starts_with. revert s; induction p as [|a p IH]; simpl; intros s L.
  - reflexivity.
  - destruct s as [|b s]; simpl in *; [lia|].
    destruct (Ascii.eqb a b); [|reflexivity]. apply IH. lia.
Qed.

Lemma starts_with_mono (p s t : str) :
  starts_with p s = true -> starts_with p (s ++ t) = true.
Proof.
  intros H. destruct (starts_with_true _ _ H) as [r ->].
  rewrite <- app_assoc. apply starts_with_app.
Qed.

Lemma find_some (sub s : str) (i : nat) :
  find sub s = Some i ->
  exists a b, s = a ++ sub ++ b /\ length a = i.
Proof.
  revert i; induction s as [|c s IH]; simpl; intros i H.
  - destruct (starts_with sub []) eqn:E; [|discriminate].
    inversion H; subst. destruct (starts_with_true _ _ E) as [r Hr].
    exists [], r. now split.
  - destruct (starts_with sub (c :: s)) eqn:E.
    + inversion H; subst. destruct (starts_with_true _ _ E) as [r Hr].
      exists [], r. now split.
    + destruct (find sub s) as [j|] eqn:F; [|discriminate].
      inversion H; subst. destruct (IH _ eq_refl) as (a & b & -> & L).
      exists (c :: a), b. simpl. split; [reflexivity | now rewrite L].
Qed.

Lemma find_head (sub s : str) :
  starts_with sub s = true -> find sub s = Some 0.
Proof. intros H. destruct s; simpl; now rewrite H. Qed.

Lemma find_none_app (sub a b : str) : find sub (a ++ sub ++ b) <> None.
Proof.
  induction a as [|c a IH]; simpl.
  - rewrite find_head; [discriminate | apply starts_with_app].
  - destruct (starts_with sub (c :: a ++ sub ++ b)); [discriminate|].
    destruct (find sub (a ++ sub ++ b)); [discriminate | contradiction].
Qed.

Lemma contains_app (sub a b : str) : contains sub (a ++ sub ++ b) = true.
Proof.
  unfold contains. pose proof (find_none_app sub a b).
  now destruct (find sub (a ++ sub ++ b)).
Qed.

Lemma contains_true (sub s : str) :
  contains sub s = true -> exists a b, s = a ++ sub ++ b.
Proof.
  unfold contains. destruct (find sub s) as [i|] eqn:E; [|discriminate].
  intros _. destruct (find_some _ _ E) as (a & b & H & _). now exists a, b.
Qed.

Lemma contains_false (sub s a b : str) :
  contains sub s = false -> s <> a ++ sub ++ b.
Proof.
  intros H E. subst s. now rewrite contains_app in H.
Qed.

Lemma eqb_str_true (a b : str) : eqb_str a b = true <-> a = b.
Proof. unfold eqb_str. destruct (list_eq_dec ascii_dec a b); split; congruence. Qed.

Lemma eqb_str_false (a b : str) : eqb_str a b = false <-> a <> b.
Proof. unfold eqb_str. destruct (list_eq_dec ascii_dec a b); split; congruence. Qed.

Lemma eqb_str_refl (a : str) : eqb_str a a = true.
Proof. now apply eqb_str_true. Qed.

(** Writing back the lines read gives the text read. *)
Lemma joinlines_readlines (s : str) : joinlines (readlines s) = s.
Proof.
  unfold joinlines. induction s as [|c s IH]; simpl; [reflexivity|].
  destruct (Ascii.eqb c LF).
  - simpl. now rewrite IH.
  - destruct (readlines s) as [|l ls]; simpl in *.
    + now rewrite <- IH.
    + now rewrite <- IH.
Qed.

Lemma rfind_none (sub s : str) :
  contains sub s = false -> rfind sub s = None.
Proof.
  unfold contains. induction s as [|a s IH]; simpl.
  - now destruct (starts_with sub []).
  - destruct (starts_with sub (a :: s)); [discriminate|].
    destruct (find sub s); [discriminate|]. intros _.
    now rewrite IH.
Qed.

(** *** Universal newlines *)

Lemma CR_not_LF : CR <> LF.
Proof. discriminate. Qed.

Lemma universal_newlines_cons (c : ascii) (s : str) :
  c <> CR -> universal_newlines (c :: s) = c :: universal_newlines s.
Proof.
  intros H. cbn [universal_newlines].
  now rewrite (proj2 (Ascii.eqb_neq c CR) H).
Qed.

Lemma universal_newlines_CR (s : str) :
  universal_newlines (CR :: s)
  = LF :: universal_newlines (match s with
                              | d :: s' => if Ascii.eqb d LF then s' else s
                              | [] => []
                              end).
Proof.
  cbn [universal_newlines]. rewrite Ascii.eqb_refl.
  destruct s as [|d s']; [reflexivity|]. now destruct (Ascii.eqb d LF).
Qed.

(** What is read holds no CR. *)
Lemma universal_newlines_no_CR (s : str) : ~ In CR (universal_newlines s).
Proof.
  assert (K : forall n s, length s <= n -> ~ In CR (universal_newlines s)).
  { induction n as [|n IH]; intros [|c s'] L; simpl in L;
      try (intros []); try lia.
    destruct (ascii_dec c CR) as [-> | N].
    - rewrite universal_newlines_CR. intros [H | H].
      + now apply CR_not_LF.
      + revert H. apply IH. destruct s' as [|d s'']; [simpl; lia|].
        destruct (Ascii.eqb d LF); simpl in *; lia.
    - rewrite universal_newlines_cons by exact N. intros [H | H].
      + congruence.
      + revert H. apply IH. lia. }
  now apply (K (length s)).
Qed.

(** A text without CR is read as it is stored. *)
Lemma universal_newlines_id (s : str) :
  ~ In CR s -> universal_newlines s = s.
Proof.
  induction s as [|c s IH]; intros H; [reflexivity|].
  rewrite universal_newlines_cons by (intros ->; apply H; now left).
  f_equal. apply IH. intros H'. apply H. now right.
Qed.

Lemma universal_newlines_idem (s : str) :
  universal_newlines (universal_newlines s) = universal_newlines s.
Proof. apply universal_newlines_id, universal_newlines_no_CR. Qed.

(** A text without CR that is not the text read differs from the text
    stored. *)
Lemma written_differs (c new : str) :
  ~ In CR new -> new <> universal_newlines c -> new <> c.
Proof.
  intros N D E. subst new. apply D. symmetry. now apply universal_newlines_id.
Qed.

Lemma no_CR (l : str) :
  forallb (fun a => negb (Ascii.eqb a CR)) l = true -> ~ In CR l.
Proof.
  intros H Hin. rewrite forallb_forall in H. specialize (H _ Hin).
  now rewrite Ascii.eqb_refl in H.
Qed.

Lemma no_CR_app (x y : str) : ~ In CR x -> ~ In CR y -> ~ In CR (x ++ y).
Proof. intros Hx Hy H. apply in_app_or in H. tauto. Qed.

Lemma no_CR_firstn (n : nat) (x : str) : ~ In CR x -> ~ In CR (firstn n x).
Proof.
  intros H H'. apply H. rewrite <- (firstn_skipn n x).
  apply in_or_app. now left.
Qed.

Lemma no_CR_skipn (n : nat) (x : str) : ~ In CR x -> ~ In CR (skipn n x).
Proof.
  intros H H'. apply H. rewrite <- (firstn_skipn n x).
  apply in_or_app. now right.
Qed.

End TextFacts.

(** ** The matcher *)

Section MatcherFacts.
Import Py Re ReLang.

Lemma star_loop_sound (r : regex) (k : str -> option str) :
  (forall s k' x, rmatch r s k' = Some x ->
     exists m rest, s = m ++ rest /\ lang r m /\ k' rest = Some x) ->
  forall n s x, star_loop (rmatch r) k n s = Some x ->
     exists m rest, s = m ++ rest /\ lang (Star r) m /\ k rest = Some x.
Proof.
  intros IHr. induction n as [|n IHn]; simpl; intros s x H.
  - exists [], s. repeat split; [constructor | assumption].
  - destruct (rmatch r s _) as [y|] eqn:E.
    + inversion H; subst y. apply IHr in E.
      destruct E as (m1 & rest1 & -> & L1 & K).
      destruct (length rest1 <? length (m1 ++ rest1)); [|discriminate].
      apply IHn in K. destruct K as (m2 & rest2 & -> & L2 & K).
      exists (m1 ++ m2), rest2. rewrite <- app_assoc.
      repeat split; [now constructor | assumption].
    + exists [], s. repeat split; [constructor | assumption].
Qed.

(** Whatever the matcher accepts is a text of the language followed by a
    rest the continuation accepts. *)
Lemma rmatch_sound (r : regex) :
  forall s k x, rmatch r s k = Some x ->
    exists m rest, s = m ++ rest /\ lang r m /\ k rest = Some x.
Proof.
  induction r as [l|c|r1 IH1 r2 IH2|r IH|r IH]; simpl; intros s k x H.
  - destruct (strip_prefix l s) as [s'|] eqn:E; [|discriminate].
    apply strip_prefix_some in E. exists l, s'. repeat split; [assumption | constructor | assumption].
  - destruct s as [|a s]; [discriminate|].
    destruct (in_cls c a) eqn:E; [|discriminate].
    exists [a], s. repeat split; [now constructor | assumption].
  - apply IH1 in H. destruct H as (m1 & rest1 & -> & L1 & H).
    apply IH2 in H. destruct H as (m2 & rest2 & -> & L2 & H).
    exists (m1 ++ m2), rest2. rewrite <- app_assoc.
    repeat split; [now constructor | assumption].
  - destruct (rmatch r s k) as [y|] eqn:E.
    + inversion H; subst y. apply IH in E.
      destruct E as (m & rest & -> & L & K).
      exists m, rest. repeat split; [now constructor | assumption].
    + exists [], s. repeat split; [constructor | assumption].
  - eapply star_loop_sound in H; eauto.
Qed.

Lemma match_here_sound (r : regex) (s rest : str) :
  match_here r s = Some rest -> exists m, s = m ++ rest /\ lang r m.
Proof.
  unfold match_here. intros H. apply rmatch_sound in H.
  destruct H as (m & rest' & -> & L & K). inversion K; subst. now exists m.
Qed.

Lemma match_length (m rest : str) :
  length (m ++ rest) - length rest = length m.
Proof. rewrite length_app. lia. Qed.

Lemma firstn_app_exact (m rest : str) : firstn (length m) (m ++ rest) = m.
Proof.
  rewrite firstn_app, Nat.sub_diag, firstn_all. simpl. apply app_nil_r.
Qed.

(** What [search] returns is a split of the text around a match. *)
Lemma search_some (r : regex) (s pre m post : str) :
  search r s = Some (pre, m, post) ->
  s = pre ++ m ++ post /\ lang r m /\ match_here r (m ++ post) = Some post.
Proof.
  revert pre; induction s as [|a s IH]; intros pre; cbn [search].
  - destruct (match_here r []) as [rest|] eqn:E; [|discriminate].
    intros H; inversion H; subst. destruct (match_here_sound _ _ E) as (m & Hs & L).
    destruct m; [|discriminate]. simpl in Hs; subst. simpl. auto.
  - destruct (match_here r (a :: s)) as [rest|] eqn:E.
    + destruct (match_here_sound _ _ E) as (m0 & Hs & L).
      assert (Hl : length (a :: s) - length rest = length m0)
        by (rewrite Hs; apply match_length).
      rewrite Hl, Hs, firstn_app_exact.
      intros H; inversion H; subst; clear H.
      simpl. repeat split; auto. now rewrite <- Hs.
    + destruct (search r s) as [[[pre' m'] post']|] eqn:F; [|discriminate].
      intros H; inversion H; subst; clear H.
      destruct (IH _ eq_refl) as (-> & L & M). simpl. auto.
Qed.

Lemma found_true (r : regex) (s : str) :
  found r s = true ->
  exists pre m post, search r s = Some (pre, m, post).
Proof.
  unfold found. destruct (search r s) as [[[pre m] post]|]; [|discriminate].
  intros _. now exists pre, m, post.
Qed.

(** No match at any place: [search] finds nothing. *)
Lemma search_none (r : regex) (s : str) :
  search r s = None ->
  forall a b, s = a ++ b -> match_here r b = None.
Proof.
  induction s as [|c s IH]; simpl; intros H a b E.
  - destruct a, b; try discriminate.
    now destruct (match_here r []).
  - destruct (match_here r (c :: s)) eqn:M; [discriminate|].
    destruct (search r s) as [[[? ?] ?]|] eqn:F; [discriminate|].
    destruct a as [|c' a]; simpl in E.
    + now subst b.
    + inversion E; subst. now apply (IH eq_refl a b).
Qed.

(** *** Unfolding [re.sub] *)

Lemma sub_go_skip (r : regex) repl limit (k : nat) (s : str) :
  k <= length s ->
  sub_go r repl limit k s = sub_go r repl limit 0 (skipn k s).
Proof.
  revert s; induction k as [|k IH]; intros s L; [reflexivity|].
  destruct s as [|a s]; simpl in *; [lia|]. apply IH. lia.
Qed.

(** A match at the head is replaced and the rest is rewritten in turn. *)
Lemma sub_go_match (r : regex) repl limit (m rest : str) :
  limit <> Some 0 ->
  match_here r (m ++ rest) = Some rest -> m <> [] ->
  sub_go r repl limit 0 (m ++ rest)
  = repl m ++ sub_go r repl (option_map Nat.pred limit) 0 rest.
Proof.
  intros Hl M Hm. destruct m as [|a m]; [congruence|].
  change ((a :: m) ++ rest) with (a :: (m ++ rest)) in *.
  cbn [sub_go]. rewrite M.
  assert (E : length (a :: m ++ rest) - length rest = S (length m)).
  { change (a :: m ++ rest) with ((a :: m) ++ rest). now rewrite match_length. }
  rewrite E.
  change (a :: m ++ rest) with ((a :: m) ++ rest).
  change (S (length m)) with (length (a :: m)). rewrite firstn_app_exact.
  rewrite sub_go_skip by (rewrite length_app; lia).
  rewrite skipn_app, Nat.sub_diag, skipn_all. simpl.
  destruct limit as [[|n]|]; [congruence | reflexivity | reflexivity].
Qed.

(** No match at the head: the character stays. *)
Lemma sub_go_nomatch (r : regex) repl limit (a : ascii) (s : str) :
  match_here r (a :: s) = None ->
  sub_go r repl limit 0 (a :: s)
  = match limit with
    | Some 0 => a :: s
    | _ => a :: sub_go r repl limit 0 s
    end.
Proof.
  intros M. cbn [sub_go]. rewrite M. now destruct limit as [[|n]|].
Qed.

Lemma sub_go_nil (r : regex) repl limit :
  match_here r [] = None -> sub_go r repl limit 0 [] = [].
Proof.
  intros M. cbn [sub_go]. rewrite M. now destruct limit as [[|n]|].
Qed.

Lemma sub_go_limit0 (r : regex) repl (s : str) :
  sub_go r repl (Some 0) 0 s = s.
Proof. now destruct s. Qed.

(** The text before the leftmost match stays. *)
Lemma sub_go_search (r : regex) repl limit (s pre m post : str) :
  limit <> Some 0 ->
  search r s = Some (pre, m, post) ->
  sub_go r repl limit 0 s = pre ++ sub_go r repl limit 0 (m ++ post).
Proof.
  intros Hl. revert pre; induction s as [|a s IH]; intros pre; cbn [search].
  - destruct (match_here r []) as [rest|] eqn:E; [|discriminate].
    destruct (match_here_sound _ _ E) as (m0 & Hs & L).
    destruct m0; [|discriminate]. simpl in Hs; subst rest.
    intros H; inversion H; subst. reflexivity.
  - destruct (match_here r (a :: s)) as [rest|] eqn:E.
    + destruct (match_here_sound _ _ E) as (m0 & Hs & L).
      assert (Hlen : length (a :: s) - length rest = length m0)
        by (rewrite Hs; apply match_length).
      rewrite Hlen, Hs, firstn_app_exact.
      intros H; inversion H; subst. reflexivity.
    + destruct (search r s) as [[[pre' m'] post']|] eqn:F; [|discriminate].
      intros H; inversion H; subst; clear H.
      rewrite sub_go_nomatch by assumption.
      rewrite (IH _ eq_refl). now destruct limit as [[|n]|].
Qed.

(** Nothing found: nothing changed. *)
Lemma sub_go_not_found (r : regex) repl limit (s : str) :
  found r s = false -> sub_go r repl limit 0 s = s.
Proof.
  unfold found. induction s as [|a s IH]; cbn [search].
  - destruct (match_here r []) eqn:E; [discriminate|].
    intros _. now apply sub_go_nil.
  - destruct (match_here r (a :: s)) eqn:E; [discriminate|].
    destruct (search r s) as [[[? ?] ?]|] eqn:F; [discriminate|].
    intros _. rewrite sub_go_nomatch by assumption.
    rewrite IH by reflexivity. now destruct limit as [[|n]|].
Qed.

(** What [re.sub] returns is made of characters of the text and of the
    replacements. *)
Lemma sub_go_alphabet (P : ascii -> Prop) (r : regex) (repl : str -> str) :
  (forall m, Forall P m -> Forall P (repl m)) ->
  forall s limit skip, Forall P s -> Forall P (sub_go r repl limit skip s).
Proof.
  intros Hr. induction s as [|a s IH]; intros limit skip Hs.
  - destruct skip as [|k]; [|constructor]. cbn [sub_go].
    destruct limit as [[|n]|]; try constructor;
      (destruct (match_here r []) as [rest|]; [|constructor];
       cbn [length Nat.sub]; rewrite app_nil_r; apply Hr; constructor).
  - assert (Ha : P a) by now inversion Hs.
    assert (Hs' : Forall P s) by now inversion Hs.
    destruct skip as [|k]; [|cbn [sub_go]; now apply IH].
    assert (K : forall limit',
               Forall P
                 match match_here r (a :: s) with
                 | Some rest =>
                     match length (a :: s) - length rest with
                     | 0 => repl [] ++ a :: sub_go r repl limit' 0 s
                     | S m' =>
                         repl (firstn (S m') (a :: s))
                         ++ sub_go r repl limit' m' s
                     end
                 | None => a :: sub_go r repl limit 0 s
                 end).
    { intros limit'. destruct (match_here r (a :: s)) as [rest|].
      - destruct (length (a :: s) - length rest) as [|m'].
        + apply Forall_app. split; [apply Hr; constructor|].
          constructor; [exact Ha | now apply IH].
        + apply Forall_app. split; [|now apply IH].
          apply Hr. rewrite <- (firstn_skipn (S m') (a :: s)) in Hs.
          now apply Forall_app in Hs.
      - constructor; [exact Ha | now apply IH]. }
    cbn [sub_go]. destruct limit as [[|n]|]; [exact Hs | apply K | apply K].
Qed.

Lemma Forall_not_CR (s : str) : Forall (fun a => a <> CR) s <-> ~ In CR s.
Proof.
  rewrite Forall_forall. split.
  - intros H Hin. now apply (H CR).
  - intros H x Hx ->. now apply H.
Qed.

Lemma no_CR_sub_go (r : regex) (repl : str -> str) limit skip (s : str) :
  (forall m, ~ In CR m -> ~ In CR (repl m)) ->
  ~ In CR s -> ~ In CR (sub_go r repl limit skip s).
Proof.
  intros Hr Hs. apply Forall_not_CR. apply sub_go_alphabet.
  - intros m Hm. apply Forall_not_CR, Hr. now apply Forall_not_CR.
  - now apply Forall_not_CR.
Qed.

Lemma no_CR_sub (r : regex) (repl s : str) :
  ~ In CR repl -> ~ In CR s -> ~ In CR (sub r repl s).
Proof. intros Hr Hs. unfold sub. now apply no_CR_sub_go. Qed.

End MatcherFacts.

(** ** The classifier *)

Section ClassifierFacts.
Import Py Re Fs Fixer Props.
Local Open Scope string_scope.
Local Open Scope nat_scope.
Local Open Scope list_scope.

Lemma category_eqb_eq (a b : category) : category_eqb a b = true <-> a = b.
Proof. destruct a, b; simpl; split; congruence. Qed.

Lemma bucket_add_to (c d : category) (o : occurrence) (cs : categories) :
  bucket c (add_to d o cs)
  = bucket c cs ++ (if category_eqb d c then [o] else []).
Proof. destruct c, d; simpl; now rewrite ?app_nil_r. Qed.

Lemma bucket_categorize_loop (c : category) (ms : list occurrence) :
  forall cs, bucket c (categorize_loop ms cs)
             = bucket c cs ++ filter (in_category c) ms.
Proof.
  induction ms as [|[[p n] l] ms IH]; intros cs; simpl.
  - now rewrite app_nil_r.
  - rewrite IH, bucket_add_to, <- app_assoc. unfold in_category at 2. simpl.
    now destruct (category_eqb (classify l) c).
Qed.

(** Each bucket holds, in order, the occurrences the chain sends to it. *)
Lemma bucket_categorize_usage (c : category) (ms : list occurrence) :
  bucket c (categorize_usage ms) = filter (in_category c) ms.
Proof.
  unfold categorize_usage. rewrite bucket_categorize_loop. now destruct c.
Qed.

Lemma buckets_partition_length (ms : list occurrence) :
  length (filter (in_category TimestampConversion) ms)
  + length (filter (in_category DirectAssignment) ms)
  + length (filter (in_category StructField) ms)
  + length (filter (in_category FunctionCall) ms)
  + length (filter (in_category Other) ms) = length ms.
Proof.
  unfold in_category. induction ms as [|o ms IH]; simpl; [reflexivity|].
  destruct (classify (snd o)); simpl; lia.
Qed.

Lemma classify_precedence (line : str) :
  (classify line = TimestampConversion
     <-> has_conversion_tokens line = true) /\
  (classify line = DirectAssignment
     <-> has_conversion_tokens line = false /\ is_binding line = true) /\
  (classify line = StructField
     <-> has_conversion_tokens line = false /\ is_binding line = false /\
         has_colon_and_call line = true) /\
  (classify line = FunctionCall
     <-> has_conversion_tokens line = false /\ is_binding line = false /\
         has_colon_and_call line = false /\ has_paren_and_call line = true) /\
  (classify line = Other
     <-> has_conversion_tokens line = false /\ is_binding line = false /\
         has_colon_and_call line = false /\ has_paren_and_call line = false).
Proof.
  unfold classify, has_conversion_tokens, is_binding, has_colon_and_call,
    has_paren_and_call.
  destruct (contains (lit "duration_since") line && contains (lit "UNIX_EPOCH") line);
  destruct (found let_pattern line);
  destruct (contains (lit ":") line && contains (lit "SystemTime::now()") line);
  destruct (contains (lit "(") line && contains (lit "SystemTime::now()") line);
  simpl; intuition (try discriminate; try congruence).
Qed.

End ClassifierFacts.

(** ** The patterns of the script *)

Section PatternFacts.
Import Py Re ReLang Fs Fixer Props.
Local Open Scope string_scope.
Local Open Scope nat_scope.
Local Open Scope list_scope.

Lemma lang_lit_inv (l m : str) : lang (Lit l) m -> m = l.
Proof. now inversion 1. Qed.

Lemma lang_cat_inv (r1 r2 : regex) (m : str) :
  lang (Cat r1 r2) m -> exists m1 m2, m = m1 ++ m2 /\ lang r1 m1 /\ lang r2 m2.
Proof. inversion 1; subst. now exists m1, m2. Qed.

Lemma lang_opt_lit_inv (l m : str) : lang (Opt (Lit l)) m -> m = [] \/ m = l.
Proof.
  inversion 1; subst; [now left | right; now apply lang_lit_inv].
Qed.

Lemma lang_star_cls (c : cls) (m : str) :
  lang (Star (Cls c)) m -> Forall (fun a => in_cls c a = true) m.
Proof.
  intros H. remember (Star (Cls c)) as r eqn:E.
  induction H; try discriminate; inversion E; subst.
  - constructor.
  - inversion H; subst. simpl. constructor; auto.
Qed.

(** Whether the matcher succeeds depends on the continuation only through
    the places at which the continuation succeeds. *)
Lemma star_loop_success_ext (r : regex) (k1 k2 : str -> option str) :
  (forall s j1 j2, (forall t, j1 t <> None -> j2 t <> None) ->
     rmatch r s j1 <> None -> rmatch r s j2 <> None) ->
  (forall t, k1 t <> None -> k2 t <> None) ->
  forall n s, star_loop (rmatch r) k1 n s <> None ->
              star_loop (rmatch r) k2 n s <> None.
Proof.
  intros IHr Hk. induction n as [|n IHn]; cbn [star_loop]; intros s H.
  - now apply Hk.
  - pose (j1 := fun s' : str => if length s' <? length s
                                then star_loop (rmatch r) k1 n s' else None).
    pose (j2 := fun s' : str => if length s' <? length s
                                then star_loop (rmatch r) k2 n s' else None).
    change (match rmatch r s j1 with Some x => Some x | None => k1 s end
            <> None) in H.
    change (match rmatch r s j2 with Some x => Some x | None => k2 s end
            <> None).
    assert (J : forall t, j1 t <> None -> j2 t <> None).
    { intros t. unfold j1, j2. destruct (length t <? length s); auto. }
    pose proof (IHr s j1 j2 J) as E.
    destruct (rmatch r s j1) as [x|].
    + destruct (rmatch r s j2) as [y|]; [discriminate|].
      exfalso. apply E; [discriminate | reflexivity].
    + destruct (rmatch r s j2) as [y|]; [discriminate | now apply Hk].
Qed.

Lemma rmatch_success_ext (r : regex) :
  forall s k1 k2, (forall t, k1 t <> None -> k2 t <> None) ->
    rmatch r s k1 <> None -> rmatch r s k2 <> None.
Proof.
  induction r as [l|c|r1 IH1 r2 IH2|r IH|r IH]; simpl; intros s k1 k2 Hk H.
  - destruct (strip_prefix l s); [now apply Hk | assumption].
  - destruct s as [|a s]; [assumption|].
    destruct (in_cls c a); [now apply Hk | assumption].
  - eapply IH1; [|exact H]. intros t. simpl. now apply IH2.
  - destruct (rmatch r s k1) eqn:E1.
    + assert (E2 : rmatch r s k2 <> None)
        by (eapply IH; [exact Hk | rewrite E1; discriminate]).
      destruct (rmatch r s k2); [discriminate | contradiction].
    + destruct (rmatch r s k2); [discriminate | now apply Hk].
  - eapply star_loop_success_ext; eauto.
Qed.

(** A greedy star never fails when what follows never fails. *)
Lemma star_loop_total step (k : str -> option str) :
  (forall t, k t <> None) -> forall n s, star_loop step k n s <> None.
Proof.
  intros Hk. destruct n as [|n]; simpl; intros s; [apply Hk|].
  destruct (step s _); [discriminate | apply Hk].
Qed.

Lemma found_iff (r : regex) (s : str) :
  found r s = true <-> exists a b, s = a ++ b /\ match_here r b <> None.
Proof.
  split.
  - intros H. destruct (found_true _ _ H) as (pre & m & post & E).
    destruct (search_some _ _ E) as (-> & _ & M).
    exists pre, (m ++ post). split; [reflexivity | rewrite M; discriminate].
  - intros (a & b & E & M). unfold found.
    destruct (search r s) as [x|] eqn:F; [reflexivity|].
    exfalso. apply M. eapply search_none; eauto.
Qed.

(** Where one module declaration is found, a run of them is found. *)
Lemma mod_run_found (s : str) :
  found mod_pattern s = true -> found mod_run_pattern s = true.
Proof.
  rewrite !found_iff. intros (a & b & E & M). exists a, b. split; [exact E|].
  revert M. unfold match_here, mod_pattern, mod_run_pattern.
  set (decl := Cat (Lit (lit "pub mod "))
                 (Cat (Plus (Cls CWord))
                 (Cat (Lit (lit ";")) (Star (Cls CSpace))))).
  change (rmatch (Lit (lit "pub mod ")) b (fun s1 =>
            rmatch (Plus (Cls CWord)) s1 (fun s2 =>
              rmatch (Lit (lit ";")) s2 Some)) <> None ->
          rmatch (Lit (lit "pub mod ")) b (fun s1 =>
            rmatch (Plus (Cls CWord)) s1 (fun s2 =>
              rmatch (Lit (lit ";")) s2 (fun s3 =>
                rmatch (Star (Cls CSpace)) s3 (fun s4 =>
                  rmatch (Star decl) s4 Some)))) <> None).
  apply rmatch_success_ext. intros s1.
  apply rmatch_success_ext. intros s2.
  apply rmatch_success_ext. intros s3 _.
  cbn [rmatch]. apply star_loop_total. intros s4.
  apply star_loop_total. discriminate.
Qed.

(** *** Substitution on one line *)

Lemma app_tail_cases (body m rest : str) (x : ascii) :
  body ++ [x] = m ++ rest ->
  (rest = [] /\ m = body ++ [x])
  \/ exists rest', rest = rest' ++ [x] /\ body = m ++ rest'.
Proof.
  intros E. destruct rest as [|c rest] using rev_ind.
  - left. rewrite app_nil_r in E. auto.
  - right. rewrite app_assoc in E. apply app_inj_tail in E.
    destruct E as [E ->]. now exists rest.
Qed.

(** A pattern whose matches are not empty and do not end in a line feed
    rewrites the body of a line and leaves its end alone. *)
Lemma sub_line_shape (r : regex) (repl : str) :
  (forall m, lang r m -> m <> [] /\ forall m', m <> m' ++ [LF]) ->
  ~ In LF repl -> repl <> [] ->
  forall n body tail, length body <= n ->
    ~ In LF body -> (tail = [] \/ tail = [LF]) ->
    exists body', sub r repl (body ++ tail) = body' ++ tail
                  /\ ~ In LF body' /\ (body <> [] -> body' <> []).
Proof.
  intros Hr Hrepl Hne. unfold sub.
  assert (Hnil : match_here r [] = None).
  { destruct (match_here r []) as [rest|] eqn:E; [|reflexivity].
    destruct (match_here_sound _ _ E) as (m & Hs & L).
    destruct m; [|discriminate]. now destruct (Hr _ L). }
  induction n as [|n IH]; intros body tail Hlen Hb Ht.
  - destruct body; [|simpl in Hlen; lia]. exists []. simpl.
    split; [|split; [auto | congruence]].
    destruct Ht as [-> | ->]; [now apply sub_go_nil|].
    destruct (match_here r [LF]) as [rest|] eqn:E.
    + destruct (match_here_sound _ _ E) as (m & Hs & L).
      destruct (Hr _ L) as [Hm Hl]. exfalso.
      destruct m as [|a m]; [congruence|].
      destruct m; [|destruct m; discriminate].
      inversion Hs; subst. now apply (Hl []).
    + rewrite sub_go_nomatch by assumption. now rewrite sub_go_nil.
  - destruct (match_here r (body ++ tail)) as [rest|] eqn:E.
    + destruct (match_here_sound _ _ E) as (m & Hs & L).
      destruct (Hr _ L) as [Hm Hl].
      assert (Hsplit : exists rest', rest = rest' ++ tail /\ body = m ++ rest').
      { destruct Ht as [-> | ->].
        - exists rest. rewrite !app_nil_r in *. auto.
        - destruct (app_tail_cases _ _ _ _ Hs) as [[-> Hm'] | H]; [|exact H].
          exfalso. now apply (Hl body). }
      destruct Hsplit as (rest' & -> & ->).
      rewrite Hs in E |- *. rewrite sub_go_match; [|discriminate|exact E|exact Hm].
      simpl option_map.
      destruct (IH rest' tail) as (b' & Eb & Hb' & _).
      * rewrite length_app in Hlen. destruct m; [congruence|]. simpl in Hlen. lia.
      * intros H. apply Hb. apply in_or_app. now right.
      * exact Ht.
      * rewrite Eb. exists (repl ++ b'). rewrite <- app_assoc.
        split; [reflexivity|]. split.
        -- intros H. apply in_app_or in H. tauto.
        -- intros _ H. apply app_eq_nil in H. tauto.
    + destruct body as [|a body].
      * exists []. split; [|split; [auto | congruence]]. simpl in *.
        destruct Ht as [-> | ->]; [now apply sub_go_nil|].
        rewrite sub_go_nomatch by assumption. now rewrite sub_go_nil.
      * simpl app. rewrite sub_go_nomatch by exact E.
        destruct (IH body tail) as (b' & Eb & Hb' & _).
        -- simpl in Hlen. lia.
        -- intros H. apply Hb. now right.
        -- exact Ht.
        -- rewrite Eb. exists (a :: b'). split; [reflexivity|]. split.
           ++ intros [H | H]; [|tauto]. apply Hb. now left.
           ++ discriminate.
Qed.

(** What a field pattern matches: the field name, a colon, white space, the
    call with or without namespace, and a comma or nothing. *)
Lemma field_lang (field : string) (namespaced : bool) (m : str) :
  lang (field_pattern field namespaced) m ->
  exists ws ns comma,
    m = (lit field ++ lit ":") ++ ws ++ ns ++ lit "SystemTime::now()" ++ comma
    /\ Forall (fun a => is_space a = true) ws
    /\ (ns = [] \/ ns = lit "std::time::")
    /\ (comma = [] \/ comma = lit ",").
Proof.
  unfold field_pattern. intros H.
  apply lang_cat_inv in H. destruct H as (m1 & x1 & -> & H1 & H).
  apply lang_cat_inv in H. destruct H as (ws & x2 & -> & H2 & H).
  apply lang_cat_inv in H. destruct H as (ns & x3 & -> & H3 & H).
  apply lang_cat_inv in H. destruct H as (call & comma & -> & H4 & H5).
  apply lang_lit_inv in H1, H4. subst m1 call.
  apply lang_star_cls in H2. apply lang_opt_lit_inv in H5.
  exists ws, ns, comma. repeat split; auto.
  destruct namespaced.
  - now apply lang_opt_lit_inv.
  - left. now apply lang_lit_inv.
Qed.

Lemma field_match_shape (field : string) (namespaced : bool) (m : str) :
  lang (field_pattern field namespaced) m ->
  m <> [] /\ forall m', m <> m' ++ [LF].
Proof.
  intros H. destruct (field_lang H) as (ws & ns & comma & -> & _ & _ & Hc).
  split.
  - intros E. apply app_eq_nil in E. destruct E as [_ E].
    apply app_eq_nil in E. destruct E as [_ E].
    apply app_eq_nil in E. destruct E as [_ E]. discriminate.
  - intros m' E. rewrite !app_assoc in E.
    destruct Hc as [-> | ->].
    + rewrite app_nil_r in E.
      change (lit "SystemTime::now()") with (lit "SystemTime::now(" ++ [")"%char]) in E.
      rewrite app_assoc in E. apply app_inj_tail in E. destruct E as [_ E].
      discriminate.
    + change (lit ",") with ([","%char]) in E.
      apply app_inj_tail in E. destruct E as [_ E]. discriminate.
Qed.

(** A field rewrite changes the line. *)
Lemma field_sub_changes (field : string) (namespaced : bool) (s : str) :
  found (field_pattern field namespaced) s = true ->
  sub (field_pattern field namespaced)
      (lit field ++ lit ":" ++ lit " current_timestamp,") s <> s.
Proof.
  intros H. destruct (found_true _ _ H) as (pre & m & post & F).
  destruct (search_some _ _ F) as (-> & L & M).
  unfold sub. rewrite sub_go_search with (pre:=pre) (m:=m) (post:=post);
    [|discriminate|exact F].
  destruct (field_match_shape L) as [Hm _].
  rewrite sub_go_match; [|discriminate|exact M|exact Hm].
  destruct (field_lang L) as (ws & ns & comma & -> & Hws & Hns & Hc).
  intros E. apply app_inv_head in E.
  rewrite <- !app_assoc in E. apply app_inv_head in E.
  apply app_inv_head in E.
  change (lit " current_timestamp,")
    with (" "%char :: "c"%char :: lit "urrent_timestamp,") in E.
  assert (Hcall : forall t, exists c rest,
             ns ++ lit "SystemTime::now()" ++ t = c :: rest
             /\ c <> " "%char /\ c <> "c"%char).
  { intros t. destruct Hns as [-> | ->].
    - exists "S"%char, (lit "ystemTime::now()" ++ t).
      repeat split; discriminate.
    - exists "s"%char, (lit "td::time::" ++ lit "SystemTime::now()" ++ t).
      repeat split; discriminate. }
  destruct (Hcall (comma ++ post)) as (c & rest & Ec & N1 & N2).
  rewrite Ec in E. cbn [app] in E.
  destruct ws as [|w1 ws]; cbn [app] in E.
  - inversion E. congruence.
  - inversion Hws as [|? ? Hw1 Hws']; subst.
    destruct ws as [|w2 ws]; cbn [app] in E.
    + inversion E. congruence.
    + inversion Hws' as [|? ? Hw2 _]; subst.
      inversion E; subst. discriminate.
Qed.


Lemma no_LF (l : str) :
  forallb (fun a => negb (Ascii.eqb a LF)) l = true -> ~ In LF l.
Proof.
  intros H Hin. rewrite forallb_forall in H. specialize (H _ Hin).
  now rewrite Ascii.eqb_refl in H.
Qed.

(** Every entry of [fixes] is a field pattern with the replacement
    [field: current_timestamp,]. *)
Lemma fixes_entries :
  Forall (fun e => exists field namespaced,
            fst e = field_pattern field namespaced
            /\ snd e = lit field ++ lit ":" ++ lit " current_timestamp,"
            /\ ~ In LF (snd e) /\ snd e <> [])
         fixes.
Proof.
  unfold fixes.
  repeat (constructor;
          [eexists _, _; split; [reflexivity|];
           split; [reflexivity|];
           split; [apply no_LF; reflexivity | discriminate]|]).
  constructor.
Qed.

(** What holds of every rewrite of an entry holds of [first_fix]. *)
Lemma first_fix_some (Q : str -> str -> Prop) (table : list (regex * str))
    (ol nl : str) :
  Forall (fun e => forall s, found (fst e) s = true ->
                             Q s (sub (fst e) (snd e) s)) table ->
  first_fix table ol = Some nl -> Q ol nl.
Proof.
  induction 1 as [|[r repl] table Hh Ht IH]; simpl; [discriminate|].
  destruct (found r ol) eqn:F.
  - intros E. inversion E; subst. now apply Hh.
  - exact IH.
Qed.

Lemma first_fix_changes (ol nl : str) :
  first_fix fixes ol = Some nl -> nl <> ol.
Proof.
  apply (first_fix_some (fun s s' => s' <> s)).
  eapply Forall_impl; [|exact fixes_entries].
  intros [r repl] (field & namespaced & Hr & Hrepl & _) s F.
  simpl in *. subst. now apply field_sub_changes.
Qed.

Lemma first_fix_shape (ol nl : str) :
  first_fix fixes ol = Some nl ->
  forall body tail, line_of body tail ol ->
    exists body', line_of body' tail nl /\ (body <> [] -> body' <> []).
Proof.
  apply (first_fix_some (fun s s' => forall body tail, line_of body tail s ->
           exists body', line_of body' tail s' /\ (body <> [] -> body' <> []))).
  eapply Forall_impl; [|exact fixes_entries].
  intros [r repl] (field & namespaced & Hr & _ & Hlf & Hne) s F body tail
         (-> & Hb & Ht).
  simpl in *. subst r.
  destruct (@sub_line_shape (field_pattern field namespaced) repl
              (@field_match_shape field namespaced) Hlf Hne
              (length body) body tail (le_n _) Hb Ht) as (b' & E & Hb' & Hn).
  exists b'. unfold line_of. auto.
Qed.

(** *** Registration *)

Lemma mod_run_lang_nonempty (m : str) : lang mod_run_pattern m -> m <> [].
Proof.
  unfold mod_run_pattern, Plus. intros H.
  apply lang_cat_inv in H. destruct H as (m1 & m2 & -> & H & _).
  apply lang_cat_inv in H. destruct H as (a & b & -> & H & _).
  apply lang_lit_inv in H. subst a. discriminate.
Qed.

(** The registration of an export file with a module declaration: the line
    goes right after the leftmost match of the run pattern. *)
Lemma register_with_mods (c : str) :
  found mod_pattern c = true ->
  exists pre run post,
    search mod_run_pattern c = Some (pre, run, post)
    /\ c = pre ++ run ++ post
    /\ register c = pre ++ run ++ registration ++ [LF] ++ post.
Proof.
  intros H. unfold register. rewrite H.
  destruct (found_true _ _ (mod_run_found _ H)) as (pre & m & post & F).
  destruct (search_some _ _ F) as (E & L & M).
  exists pre, m, post. split; [exact F|]. split; [exact E|].
  unfold sub_count.
  rewrite sub_go_search with (pre:=pre) (m:=m) (post:=post);
    [|discriminate|exact F].
  rewrite sub_go_match;
    [|discriminate|exact M|now apply mod_run_lang_nonempty].
  simpl option_map. rewrite sub_go_limit0. unfold mod_run_replacement.
  now rewrite <- !app_assoc.
Qed.

Lemma register_without_mods (c : str) :
  found mod_pattern c = false -> register c = registration ++ [LF] ++ c.
Proof. unfold register. now intros ->. Qed.

Lemma register_longer (c : str) :
  length (register c) = length c + length registration + 1.
Proof.
  destruct (found mod_pattern c) eqn:F.
  - destruct (register_with_mods _ F) as (pre & run & post & _ & E & R).
    rewrite R. rewrite E at 1. rewrite !length_app. simpl. lia.
  - rewrite register_without_mods by assumption.
    rewrite !length_app. simpl. lia.
Qed.

Lemma register_changes (c : str) : register c <> c.
Proof.
  intros E. pose proof (register_longer c) as H. rewrite E in H. lia.
Qed.

Lemma register_registered (c : str) :
  contains registration (register c) = true.
Proof.
  destruct (found mod_pattern c) eqn:F.
  - destruct (register_with_mods _ F) as (pre & run & post & _ & _ & ->).
    rewrite app_assoc. apply contains_app.
  - rewrite register_without_mods by assumption.
    apply (contains_app registration [] ([LF] ++ c)).
Qed.

End PatternFacts.

(** ** Lines and files *)

Section LineFacts.
Import Py Re ReLang Fs Fixer Props.
Local Open Scope string_scope.
Local Open Scope nat_scope.
Local Open Scope list_scope.

Lemma set_nth_length {A} (l : list A) (k : nat) (x : A) :
  length (set_nth l k x) = length l.
Proof.
  revert k; induction l as [|a l IH]; intros [|k]; simpl; auto.
Qed.

Lemma set_nth_other {A} (l : list A) (k j : nat) (x : A) :
  j <> k -> nth_error (set_nth l k x) j = nth_error l j.
Proof.
  revert k j; induction l as [|a l IH]; intros [|k] [|j] H; simpl;
    try congruence; try reflexivity.
  apply IH. congruence.
Qed.

Lemma set_nth_same {A} (l : list A) (k : nat) (x : A) :
  k < length l -> nth_error (set_nth l k x) k = Some x.
Proof.
  revert k; induction l as [|a l IH]; intros [|k] H; simpl in *;
    try lia; auto.
  apply IH. lia.
Qed.

Lemma set_nth_split {A} (l : list A) (k : nat) (a x : A) :
  nth_error l k = Some a ->
  exists pre post, l = pre ++ a :: post /\ set_nth l k x = pre ++ x :: post.
Proof.
  revert k; induction l as [|b l IH]; intros [|k] H; simpl in *;
    try discriminate.
  - inversion H; subst. now exists [], l.
  - destruct (IH _ H) as (pre & post & -> & E).
    exists (b :: pre), post. simpl. now rewrite E.
Qed.

(** An index Python accepts names one place of the list. *)
Lemma get_place {A} (l : list A) (i : Z) (a : A) :
  get l i = Some a ->
  exists k, nth_error l k = Some a /\ forall x, set l i x = set_nth l k x.
Proof.
  unfold get, set. destruct (i <? 0)%Z.
  - destruct (Z.of_nat (length l) + i <? 0)%Z; [discriminate|].
    intros H. eexists. split; [exact H | reflexivity].
  - intros H. eexists. split; [exact H | reflexivity].
Qed.

(** The index of the line numbered [n], for [1 <= n]. *)
Lemma get_line_number {A} (l : list A) (n : nat) :
  1 <= n ->
  get l (Z.of_nat n - 1) = nth_error l (n - 1)
  /\ forall x, set l (Z.of_nat n - 1) x = set_nth l (n - 1) x.
Proof.
  intros H. unfold get, set.
  assert (E : (Z.of_nat n - 1 <? 0)%Z = false) by (apply Z.ltb_ge; lia).
  rewrite E. replace (Z.to_nat (Z.of_nat n - 1)) with (n - 1) by lia.
  now split.
Qed.

Lemma joinlines_app (a b : list str) :
  joinlines (a ++ b) = joinlines a ++ joinlines b.
Proof. apply concat_app. Qed.

Lemma joinlines_set_changes (lines : list str) (i : Z) (ol nl : str) :
  get lines i = Some ol -> nl <> ol ->
  joinlines (set lines i nl) <> joinlines lines.
Proof.
  intros G N. destruct (get_place _ _ G) as (k & Hk & Hs). rewrite Hs.
  destruct (set_nth_split _ _ nl Hk) as (pre & post & -> & ->).
  rewrite !joinlines_app. unfold joinlines. simpl. intros E.
  apply app_inv_head in E.
  assert (L : length nl = length ol).
  { apply (f_equal (@length ascii)) in E. rewrite !length_app in E. lia. }
  apply N. revert L E. generalize (concat post). clear.
  revert ol; induction nl as [|a nl IH]; intros [|b ol] t L E;
    simpl in *; try discriminate; auto.
  inversion E; subst. f_equal. eapply IH; eauto.
Qed.

Lemma joinlines_insert_changes (lines : list str) (i : Z) (x : str) :
  x <> [] -> joinlines (insert lines i x) <> joinlines lines.
Proof.
  intros Hx E. apply (f_equal (@length ascii)) in E. revert E.
  unfold insert. set (k := clip (length lines) i).
  rewrite <- (firstn_skipn k lines) at 3.
  rewrite !joinlines_app. unfold joinlines. simpl.
  rewrite !length_app. destruct x; [congruence|]. simpl. lia.
Qed.

(** *** The lines of a text *)

Lemma LF_eqb_false (a : ascii) : a <> LF -> Ascii.eqb a LF = false.
Proof. intros H. now apply Ascii.eqb_neq. Qed.

Lemma readlines_line (body rest : str) :
  ~ In LF body ->
  readlines (body ++ LF :: rest) = (body ++ [LF]) :: readlines rest.
Proof.
  induction body as [|a body IH]; intros H; simpl.
  - reflexivity.
  - rewrite LF_eqb_false by (intros ->; apply H; now left).
    rewrite IH by (intros H'; apply H; now right). reflexivity.
Qed.

Lemma readlines_last (body : str) :
  ~ In LF body -> body <> [] -> readlines body = [body].
Proof.
  induction body as [|a body IH]; intros H N; [congruence|]. simpl.
  rewrite LF_eqb_false by (intros ->; apply H; now left).
  destruct body as [|b body]; [reflexivity|].
  rewrite IH; [reflexivity | intros H'; apply H; now right | discriminate].
Qed.

Lemma readlines_terminated (l rest : str) :
  terminated l -> readlines (l ++ rest) = l :: readlines rest.
Proof.
  intros (body & -> & Hb & _). rewrite <- app_assoc. simpl.
  now apply readlines_line.
Qed.

(** Reading back the lines written gives the lines written. *)
Lemma readlines_joinlines (ls : list str) :
  wf_lines ls -> readlines (joinlines ls) = ls.
Proof.
  unfold joinlines. induction ls as [|l ls IH]; [reflexivity|].
  intros H. simpl in H. destruct ls as [|l' ls].
  - simpl. rewrite app_nil_r. destruct H as [T | [Hl Hn]].
    + rewrite <- (app_nil_r l) at 1. now rewrite readlines_terminated.
    + now apply readlines_last.
  - destruct H as [T W]. change (concat (l :: l' :: ls)) with (l ++ concat (l' :: ls)).
    rewrite readlines_terminated by assumption. now rewrite IH.
Qed.

Lemma readlines_wf (s : str) : wf_lines (readlines s).
Proof.
  induction s as [|c s IH]; simpl; [exact I|].
  destruct (Ascii.eqb c LF) eqn:E.
  - apply Ascii.eqb_eq in E. subst c.
    assert (T : terminated [LF]).
    { exists []. split; [reflexivity|]. split; [intros []|now right]. }
    destruct (readlines s) as [|l ls].
    + simpl. now left.
    + simpl. split; assumption.
  - apply Ascii.eqb_neq in E.
    destruct (readlines s) as [|l ls].
    + simpl. right. split; [|discriminate]. intros [H | []]. congruence.
    + assert (T : terminated l -> terminated (c :: l)).
      { intros (body & -> & Hb & Ht). exists (c :: body).
        split; [reflexivity|]. split; [|exact Ht].
        intros [H | H]; [congruence | tauto]. }
      simpl in *. destruct ls as [|l' ls].
      * destruct IH as [H | [H N]]; [left; now apply T|].
        right. split; [|discriminate]. intros [H' | H']; [congruence | tauto].
      * destruct IH as [H W]. split; [now apply T | exact W].
Qed.

(** A line rewritten without touching its end keeps the lines apart. *)
Lemma wf_lines_set (ls : list str) (k : nat) (ol nl : str) :
  wf_lines ls -> nth_error ls k = Some ol ->
  (terminated ol -> terminated nl) ->
  (~ In LF ol /\ ol <> [] -> ~ In LF nl /\ nl <> []) ->
  wf_lines (set_nth ls k nl).
Proof.
  intros W Hk HT HL. revert k W Hk.
  induction ls as [|l ls IH]; intros [|k] W Hk; simpl in Hk; try discriminate.
  - inversion Hk; subst l. simpl in *. destruct ls as [|l' ls].
    + destruct W as [T | L]; [left; auto | right; auto].
    + destruct W as [T W]. split; auto.
  - destruct ls as [|l' ls]; [destruct k; discriminate|].
    destruct W as [T W]. specialize (IH k W Hk).
    change (set_nth (l :: l' :: ls) (S k) nl)
      with (l :: set_nth (l' :: ls) k nl).
    destruct (set_nth (l' :: ls) k nl) as [|x xs] eqn:E.
    + apply (f_equal (@length str)) in E. rewrite set_nth_length in E.
      discriminate.
    + simpl. split; [exact T|]. exact IH.
Qed.

(** *** Files *)

Lemma lookup_update_same (p : path) (c : str) (l : list (path * str)) :
  lookup p (update p c l) = Some c.
Proof.
  induction l as [|[q d] l IH]; simpl.
  - now rewrite eqb_str_refl.
  - destruct (eqb_str p q) eqn:E; simpl; rewrite E; auto.
Qed.

Lemma lookup_update_other (p q : path) (c : str) (l : list (path * str)) :
  q <> p -> lookup q (update p c l) = lookup q l.
Proof.
  intros N. induction l as [|[r d] l IH]; simpl.
  - apply eqb_str_false in N. now rewrite N.
  - destruct (eqb_str p r) eqn:E; simpl.
    + apply eqb_str_true in E. subst r.
      apply eqb_str_false in N. now rewrite N.
    + now rewrite IH.
Qed.

Lemma update_keeps_names (p : path) (c d : str) (l : list (path * str)) :
  lookup p l = Some d -> map fst (update p c l) = map fst l.
Proof.
  induction l as [|[q e] l IH]; simpl; [discriminate|].
  destruct (eqb_str p q) eqn:E; simpl; [reflexivity|].
  intros H. now rewrite IH.
Qed.

End LineFacts.

(** ** Conversion chains and the local helper *)

Section ChainFacts.
Import Py Re ReLang Fs Fixer Props.
Local Open Scope string_scope.
Local Open Scope nat_scope.
Local Open Scope list_scope.

(** Text the pattern matches nowhere in is passed over. *)
Lemma sub_pass (r : regex) (repl : str) (a y : str) :
  nomatch r a y -> sub r repl (a ++ y) = a ++ sub r repl y.
Proof.
  unfold sub. induction a as [|c a IH]; intros H; [reflexivity|].
  simpl app. rewrite sub_go_nomatch by (apply (H 0); simpl; lia).
  f_equal. apply IH. intros i Hi. apply (H (S i)). simpl. lia.
Qed.

Lemma sub_replace (r : regex) (repl : str) (m rest : str) :
  match_here r (m ++ rest) = Some rest -> m <> [] ->
  sub r repl (m ++ rest) = repl ++ sub r repl rest.
Proof.
  intros M N. unfold sub. now rewrite sub_go_match by (try discriminate; auto).
Qed.

Lemma chain_needs_head (tail : string) (s : str) :
  starts_with chain_head s = false -> match_here (chain tail) s = None.
Proof.
  intros H. unfold match_here, chain. cbn [rmatch].
  fold chain_head. now rewrite (strip_prefix_none _ _ H).
Qed.

Lemma find_least (sub s : str) (n : nat) :
  find sub s = Some n ->
  forall i, i < n -> starts_with sub (skipn i s) = false.
Proof.
  revert n; induction s as [|c s IH]; intros n; simpl.
  - destruct (starts_with sub []); [|discriminate].
    intros E i Hi. inversion E; subst. lia.
  - destruct (starts_with sub (c :: s)) eqn:S0.
    + intros E i Hi. inversion E; subst. lia.
    + destruct (find sub s) as [j|] eqn:F; [|discriminate].
      intros E i Hi. inversion E; subst.
      destruct i as [|i]; [exact S0|]. simpl. apply (IH _ eq_refl). lia.
Qed.

Lemma starts_with_split (p u y : str) :
  length u < length p -> starts_with p (u ++ y) = true ->
  starts_with (skipn (length u) p) y = true.
Proof.
  unfold starts_with. revert u; induction p as [|a p IH]; intros u L H.
  - simpl in L. lia.
  - destruct u as [|b u]; [exact H|]. simpl in *.
    destruct (Ascii.eqb a b); [|discriminate]. apply IH; [lia | exact H].
Qed.

(** Text before the leftmost chain head is passed over, whatever follows,
    provided what follows does not complete a head begun in that text. *)
Lemma chain_nomatch_before (tail : string) (a y : str) :
  find chain_head (a ++ chain_head) = Some (length a) -> safe y ->
  nomatch (chain tail) a y.
Proof.
  intros F S i Hi. apply chain_needs_head.
  rewrite skipn_app. replace (i - length a) with 0 by lia. simpl skipn.
  set (u := skipn i a).
  assert (Lu : 1 <= length u) by (unfold u; rewrite length_skipn; lia).
  destruct (starts_with chain_head (u ++ y)) eqn:E; [exfalso|reflexivity].
  destruct (Nat.lt_ge_cases (length u) (length chain_head)) as [Lt | Ge].
  - apply starts_with_split in E; [|exact Lt].
    rewrite (S (length u) Lu Lt) in E. discriminate.
  - rewrite starts_with_ext in E by exact Ge.
    pose proof (@find_least chain_head (a ++ chain_head) (length a) F i Hi)
      as N.
    rewrite skipn_app in N. replace (i - length a) with 0 in N by lia.
    simpl skipn in N. fold u in N.
    rewrite starts_with_ext in N by exact Ge. congruence.
Qed.

Lemma chain_pass (tail : string) (repl : str) (a y : str) :
  find chain_head (a ++ chain_head) = Some (length a) -> safe y ->
  sub (chain tail) repl (a ++ y) = a ++ sub (chain tail) repl y.
Proof. intros F S. apply sub_pass. now apply chain_nomatch_before. Qed.

Lemma safe_chain (namespaced : bool) (tail : string) (b : str) :
  safe (chain_text namespaced tail ++ b).
Proof. destruct namespaced; safe_known. Qed.

Lemma safe_secs (b : str) : safe (lit "current_unix_timestamp()" ++ b).
Proof. safe_known. Qed.

Lemma safe_millis (b : str) :
  safe (lit "current_unix_timestamp() * 1000" ++ b).
Proof. safe_known. Qed.

Lemma nomatch_secs (tail : string) (b : str) :
  nomatch (chain tail) (lit "current_unix_timestamp()") b.
Proof. nomatch_known. Qed.

Lemma nomatch_millis (tail : string) (b : str) :
  nomatch (chain tail) (lit "current_unix_timestamp() * 1000") b.
Proof. nomatch_known. Qed.

Lemma chain_text_nonempty (namespaced : bool) (tail : string) :
  chain_text namespaced tail <> [].
Proof. discriminate. Qed.

Section OneChain.
Variables (namespaced : bool) (a b : str).
Hypothesis leftmost : find chain_head (a ++ chain_head) = Some (length a).

(** A chain [?.as_secs()] becomes a call of the helper. *)
Lemma convert_secs_chain :
  convert_chains (a ++ chain_text namespaced ")?.as_secs()" ++ b)
  = a ++ lit "current_unix_timestamp()" ++ convert_chains b.
Proof.
  unfold convert_chains, millis_try_pattern, secs_try_pattern,
    millis_unwrap_pattern.
  rewrite chain_pass by (assumption || apply safe_chain).
  rewrite (@sub_pass (chain ")?.as_millis() as u64"))
    by (destruct namespaced; nomatch_known).
  rewrite chain_pass by (assumption || apply safe_chain).
  rewrite (@sub_replace (chain ")?.as_secs()"));
    [|destruct namespaced; reflexivity | apply chain_text_nonempty].
  rewrite chain_pass by (assumption || apply safe_secs).
  rewrite sub_pass by apply nomatch_secs.
  reflexivity.
Qed.

(** A chain [?.as_millis() as u64] becomes a call of the helper times
    1000. *)
Lemma convert_millis_try_chain :
  convert_chains (a ++ chain_text namespaced ")?.as_millis() as u64" ++ b)
  = a ++ lit "current_unix_timestamp() * 1000" ++ convert_chains b.
Proof.
  unfold convert_chains, millis_try_pattern, secs_try_pattern,
    millis_unwrap_pattern.
  rewrite chain_pass by (assumption || apply safe_chain).
  rewrite (@sub_replace (chain ")?.as_millis() as u64"));
    [|destruct namespaced; reflexivity | apply chain_text_nonempty].
  rewrite (@chain_pass ")?.as_secs()")
    by (assumption || apply safe_millis).
  rewrite (@sub_pass (chain ")?.as_secs()")) by apply nomatch_millis.
  rewrite chain_pass by (assumption || apply safe_millis).
  rewrite sub_pass by apply nomatch_millis.
  reflexivity.
Qed.

(** A chain [.unwrap().as_millis()] becomes a call of the helper times
    1000. *)
Lemma convert_millis_unwrap_chain :
  convert_chains (a ++ chain_text namespaced ").unwrap().as_millis()" ++ b)
  = a ++ lit "current_unix_timestamp() * 1000" ++ convert_chains b.
Proof.
  unfold convert_chains, millis_try_pattern, secs_try_pattern,
    millis_unwrap_pattern.
  rewrite chain_pass by (assumption || apply safe_chain).
  rewrite (@sub_pass (chain ")?.as_millis() as u64"))
    by (destruct namespaced; nomatch_known).
  rewrite chain_pass by (assumption || apply safe_chain).
  rewrite (@sub_pass (chain ")?.as_secs()"))
    by (destruct namespaced; nomatch_known).
  rewrite chain_pass by (assumption || apply safe_chain).
  rewrite (@sub_replace (chain ").unwrap().as_millis()"));
    [|destruct namespaced; reflexivity | apply chain_text_nonempty].
  reflexivity.
Qed.

End OneChain.

(** *** The local helper *)

Lemma contains_app_r (sub x y : str) :
  contains sub y = true -> contains sub (x ++ y) = true.
Proof.
  intros H. destruct (contains_true _ _ H) as (u & v & ->).
  rewrite app_assoc. apply contains_app.
Qed.

Lemma contains_app_l (sub x y : str) :
  contains sub x = true -> contains sub (x ++ y) = true.
Proof.
  intros H. destruct (contains_true _ _ H) as (u & v & ->).
  rewrite <- !app_assoc. apply contains_app.
Qed.




Lemma rfind_some (sub s : str) :
  contains sub s = true -> exists i, rfind sub s = Some i.
Proof.
  unfold contains. induction s as [|c s IH]; simpl.
  - destruct (starts_with sub []); [now exists 0 | discriminate].
  - destruct (rfind sub s) as [j|]; [now exists (S j)|].
    destruct (starts_with sub (c :: s)); [now exists 0|].
    destruct (find sub s); [|discriminate].
    intros _. destruct (IH eq_refl) as (i & E). discriminate.
Qed.

(** The helper is put between two parts of the content: it goes in at the
    first line feed after the last [use ]. *)
Lemma inject_helper_form (c : str) :
  contains helper_signature c = false -> contains (lit "use ") c = true ->
  exists import_end pre post,
    rfind (lit "use ") c = Some import_end
    /\ pre = slice_to c (find_from [LF] c import_end)
    /\ post = slice_from c (find_from [LF] c import_end)
    /\ c = pre ++ post
    /\ inject_helper c = pre ++ [LF] ++ helper_function ++ post.
Proof.
  intros S U. unfold inject_helper. rewrite S. simpl negb. cbv iota.
  destruct (rfind_some _ _ U) as (i & ->).
  exists i, (slice_to c (find_from [LF] c i)),
    (slice_from c (find_from [LF] c i)).
  repeat split.
  unfold slice_to, slice_from. now rewrite firstn_skipn.
Qed.



Lemma inject_helper_registered (c : str) :
  contains helper_signature c = true \/ contains (lit "use ") c = true ->
  contains helper_signature (inject_helper c) = true.
Proof.
  intros H. destruct (contains helper_signature c) eqn:S.
  - unfold inject_helper. now rewrite S.
  - destruct H as [H | U]; [discriminate|].
    destruct (inject_helper_form c S U) as (i & pre & post & _ & _ & _ & _ & ->).
    apply contains_app_r. apply contains_app_r. apply contains_app_l.
    reflexivity.
Qed.

(** *** The substitutions keep a definition of the helper *)

Lemma not_in_char (ch : ascii) (l : str) :
  forallb (fun a => negb (Ascii.eqb a ch)) l = true -> ~ In ch l.
Proof.
  intros H Hin. rewrite forallb_forall in H. specialize (H _ Hin).
  now rewrite Ascii.eqb_refl in H.
Qed.

Lemma chain_lang (tail : string) (m : str) :
  lang (chain tail) m ->
  exists ns, (ns = [] \/ ns = lit "std::time::")
             /\ m = chain_head ++ ns ++ lit "UNIX_EPOCH" ++ lit tail.
Proof.
  unfold chain. intros H.
  apply lang_cat_inv in H. destruct H as (m1 & x & -> & H1 & H).
  apply lang_cat_inv in H. destruct H as (ns & m3 & -> & H2 & H3).
  apply lang_lit_inv in H1, H3. apply lang_opt_lit_inv in H2. subst.
  now exists ns.
Qed.

Lemma contains_cons (sub t : str) (c : ascii) :
  contains sub t = true -> contains sub (c :: t) = true.
Proof. apply (contains_app_r sub [c] t). Qed.

Lemma signature_survives_sub (tail : string) (repl : str) :
  ~ In "f"%char (lit tail) ->
  forall n x y, length x <= n ->
    contains helper_signature
      (sub (chain tail) repl (x ++ helper_signature ++ y)) = true.
Proof.
  intros Hf. induction n as [|n IH]; intros x y L.
  - destruct x; [|simpl in L; lia].
    change ([] ++ helper_signature ++ y) with (helper_signature ++ y).
    rewrite sub_pass by nomatch_known.
    apply (contains_app helper_signature []).
  - destruct x as [|c x].
    { change ([] ++ helper_signature ++ y) with (helper_signature ++ y).
      rewrite sub_pass by nomatch_known.
      apply (contains_app helper_signature []). }
    destruct (match_here (chain tail) ((c :: x) ++ helper_signature ++ y))
      as [rest|] eqn:M.
    + destruct (match_here_sound _ _ M) as (m & E & Lm).
      destruct (chain_lang Lm) as (ns & Hns & Em).
      assert (Nf : ~ In "f"%char m).
      { subst m. intros H. repeat (apply in_app_or in H; destruct H as [H | H]).
        - revert H. apply not_in_char. reflexivity.
        - destruct Hns as [-> | ->]; [destruct H|].
          revert H. apply not_in_char. reflexivity.
        - revert H. apply not_in_char. reflexivity.
        - now apply Hf. }
      assert (Nm : m <> []) by (subst m; discriminate).
      symmetry in E. apply app_eq_app in E.
      destruct E as (l & [[E1 E2] | [E1 E2]]).
      * destruct l as [|c0 l].
        -- rewrite app_nil_r in E1. simpl in E2. subst rest.
           rewrite <- E1 in M |- *.
           rewrite sub_replace by assumption.
           apply contains_app_r.
           apply (IH [] y). simpl. lia.
        -- exfalso. apply Nf. rewrite E1. apply in_or_app. right.
           inversion E2. now left.
      * rewrite E1, <- app_assoc. rewrite E1, <- app_assoc, E2 in M.
        rewrite sub_replace by assumption.
        apply contains_app_r. apply IH.
        apply (f_equal (@length ascii)) in E1. rewrite length_app in E1.
        destruct m; [congruence|]. simpl in *. lia.
    + change ((c :: x) ++ helper_signature ++ y)
        with (c :: (x ++ helper_signature ++ y)) in *.
      unfold sub. rewrite sub_go_nomatch by exact M.
      apply contains_cons. apply (IH x y). simpl in L. lia.
Qed.

Lemma signature_survives (c : str) :
  contains helper_signature c = true ->
  contains helper_signature (convert_chains c) = true.
Proof.
  intros H. unfold convert_chains, millis_try_pattern, secs_try_pattern,
    millis_unwrap_pattern.
  assert (K : forall tail repl s,
             ~ In "f"%char (lit tail) ->
             contains helper_signature s = true ->
             contains helper_signature (sub (chain tail) repl s) = true).
  { intros tail repl s Hf Hs. destruct (contains_true _ _ Hs) as (x & y & ->).
    now apply (@signature_survives_sub tail repl Hf (length x) x y). }
  apply K; [apply not_in_char; reflexivity|].
  apply K; [apply not_in_char; reflexivity|].
  apply K; [apply not_in_char; reflexivity | exact H].
Qed.

(** *** Chains anywhere in a text *)

Ltac sealed_known :=
  let ns := fresh "ns" in
  let tail := fresh "tail" in
  let k := fresh "k" in
  let Ht := fresh "Ht" in
  let H1 := fresh "H" in
  let H2 := fresh "H" in
  intros ns tail k Ht H1 H2;
  destruct Ht as [<- | [<- | [<- | []]]]; destruct ns;
  (destruct k as [|k]; [lia|];
   repeat (destruct k as [|k]; [reflexivity|]); out_of_range H2).

Lemma sealed_nil : sealed [].
Proof. sealed_known. Qed.

Lemma sealed_S (y : str) : sealed ("S"%char :: y).
Proof. sealed_known. Qed.

Lemma sealed_chain (namespaced : bool) (tail : string) (b : str) :
  sealed (chain_text namespaced tail ++ b).
Proof. apply sealed_S. Qed.

Lemma sealed_secs (b : str) : sealed (lit "current_unix_timestamp()" ++ b).
Proof. sealed_known. Qed.

Lemma sealed_millis (b : str) :
  sealed (lit "current_unix_timestamp() * 1000" ++ b).
Proof. sealed_known. Qed.

(** The pattern of a chain matches the chain, and nothing else. *)
Lemma chain_match (namespaced : bool) (tail : string) (rest : str) :
  match_here (chain tail) (chain_text namespaced tail ++ rest) = Some rest.
Proof.
  unfold match_here, chain, chain_text. cbn [rmatch]. fold chain_head.
  rewrite <- app_assoc, strip_prefix_app. destruct namespaced.
  - rewrite <- app_assoc, strip_prefix_app.
    now rewrite app_assoc, strip_prefix_app.
  - change ([] ++ lit "UNIX_EPOCH" ++ lit tail)
      with (lit "UNIX_EPOCH" ++ lit tail).
    change (strip_prefix (lit "std::time::")
              ((lit "UNIX_EPOCH" ++ lit tail) ++ rest)) with (@None str).
    now rewrite strip_prefix_app.
Qed.

Lemma chain_match_inv (tail : string) (s rest : str) :
  match_here (chain tail) s = Some rest ->
  exists namespaced, s = chain_text namespaced tail ++ rest.
Proof.
  intros M. destruct (match_here_sound _ _ M) as (m & -> & L).
  destruct (chain_lang L) as (ns & [-> | ->] & ->);
    [now exists false | now exists true].
Qed.


Lemma sub_chain (namespaced : bool) (tail : string) (repl rest : str) :
  sub (chain tail) repl (chain_text namespaced tail ++ rest)
  = repl ++ sub (chain tail) repl rest.
Proof.
  apply sub_replace; [apply chain_match | apply chain_text_nonempty].
Qed.

Lemma sub_step (tail : string) (repl : str) (c : ascii) (s : str) :
  match_here (chain tail) (c :: s) = None ->
  sub (chain tail) repl (c :: s) = c :: sub (chain tail) repl s.
Proof. intros M. unfold sub. now rewrite sub_go_nomatch. Qed.

Lemma app_split_le {A} (x y m rest : list A) :
  x ++ y = m ++ rest -> length m <= length x ->
  exists x2, x = m ++ x2 /\ rest = x2 ++ y.
Proof.
  revert x; induction m as [|a m IH]; intros x E L; simpl in *.
  - now exists x.
  - destruct x as [|b x]; simpl in *; [lia|]. inversion E; subst.
    destruct (IH x H1) as (x2 & -> & ->); [lia|]. now exists x2.
Qed.

(** A text is rewritten part by part where no chain crosses from one part
    into the other. *)
Lemma sub_app_sealed (tail : string) (repl : str) (y : str) :
  In tail tails -> sealed y ->
  forall x, sub (chain tail) repl (x ++ y)
            = sub (chain tail) repl x ++ sub (chain tail) repl y.
Proof.
  intros Ht Sy.
  assert (K : forall n x, length x <= n ->
                sub (chain tail) repl (x ++ y)
                = sub (chain tail) repl x ++ sub (chain tail) repl y).
  { induction n as [|n IH]; intros [|c x] L; simpl in L; try lia;
      try reflexivity.
    destruct (match_here (chain tail) ((c :: x) ++ y)) as [rest|] eqn:M.
    - destruct (chain_match_inv _ _ M) as (ns & E).
      set (m := chain_text ns tail) in *.
      destruct (Nat.le_gt_cases (length m) (length (c :: x))) as [Le | Gt].
      + destruct (app_split_le _ _ _ _ E Le) as (x2 & Ex & Er).
        rewrite Ex, <- app_assoc. unfold m. rewrite !sub_chain.
        rewrite <- app_assoc. f_equal. apply IH.
        apply (f_equal (@length ascii)) in Ex. rewrite length_app in Ex.
        assert (0 < length m) by (unfold m; destruct ns; simpl; lia).
        simpl in Ex. lia.
      + exfalso.
        assert (St : starts_with m ((c :: x) ++ y) = true)
          by (rewrite E; apply starts_with_app).
        apply starts_with_split in St; [|exact Gt]. unfold m in St, Gt.
        rewrite (Sy ns tail (length (c :: x))) in St;
          [discriminate | exact Ht | simpl; lia | exact Gt].
    - assert (Mx : match_here (chain tail) (c :: x) = None).
      { destruct (match_here (chain tail) (c :: x)) as [r|] eqn:Mx;
          [|reflexivity].
        destruct (chain_match_inv _ _ Mx) as (ns & E).
        rewrite E, <- app_assoc, chain_match in M. discriminate. }
      change ((c :: x) ++ y) with (c :: (x ++ y)) in *.
      rewrite !sub_step by assumption. simpl. f_equal. apply IH. lia. }
  intros x. now apply (K (length x)).
Qed.

(** Each of the three chains becomes its helper call wherever it stands,
    and what stands before and after it is rewritten on its own. *)
Lemma sub_around (tail : string) (repl x mid y : str) :
  In tail tails -> sealed (mid ++ y) -> nomatch (chain tail) mid y ->
  sub (chain tail) repl (x ++ mid ++ y)
  = sub (chain tail) repl x ++ mid ++ sub (chain tail) repl y.
Proof.
  intros Ht S N. rewrite sub_app_sealed by assumption.
  now rewrite sub_pass by assumption.
Qed.

Lemma sub_around_chain (namespaced : bool) (tail : string) (repl x y : str) :
  In tail tails ->
  sub (chain tail) repl (x ++ chain_text namespaced tail ++ y)
  = sub (chain tail) repl x ++ repl ++ sub (chain tail) repl y.
Proof.
  intros Ht. rewrite sub_app_sealed by (assumption || apply sealed_chain).
  now rewrite sub_chain.
Qed.

Lemma convert_chains_app (namespaced : bool) (tail : string) (a b : str) :
  In tail tails ->
  convert_chains (a ++ chain_text namespaced tail ++ b)
  = convert_chains a ++ helper_call tail ++ convert_chains b.
Proof.
  assert (I1 : In ")?.as_millis() as u64" tails) by (simpl; auto).
  assert (I2 : In ")?.as_secs()" tails) by (simpl; auto).
  assert (I3 : In ").unwrap().as_millis()" tails) by (simpl; auto).
  unfold convert_chains, millis_try_pattern, secs_try_pattern,
    millis_unwrap_pattern.
  intros [<- | [<- | [<- | []]]].
  - rewrite (@sub_around_chain namespaced _ _ a b I1).
    rewrite (@sub_around ")?.as_secs()" _ _ _ _ I2 (sealed_millis _)
               (nomatch_millis _ _)).
    rewrite (@sub_around ").unwrap().as_millis()" _ _ _ _ I3
               (sealed_millis _) (nomatch_millis _ _)).
    reflexivity.
  - rewrite (@sub_around ")?.as_millis() as u64" _ a _ b I1
               (sealed_chain _ _ _))
      by (destruct namespaced; nomatch_known).
    rewrite (@sub_around_chain namespaced _ _ _ _ I2).
    rewrite (@sub_around ").unwrap().as_millis()" _ _ _ _ I3
               (sealed_secs _) (nomatch_secs _ _)).
    reflexivity.
  - rewrite (@sub_around ")?.as_millis() as u64" _ a _ b I1
               (sealed_chain _ _ _))
      by (destruct namespaced; nomatch_known).
    rewrite (@sub_around ")?.as_secs()" _ _ _ _ I2 (sealed_chain _ _ _))
      by (destruct namespaced; nomatch_known).
    rewrite (@sub_around_chain namespaced _ _ _ _ I3).
    reflexivity.
Qed.

(** *** What a substitution cannot bring about *)

Lemma starts_with_cons (a b : ascii) (p s : str) :
  starts_with (a :: p) (b :: s) = Ascii.eqb a b && starts_with p s.
Proof. unfold starts_with. simpl. now destruct (Ascii.eqb a b). Qed.

Lemma starts_with_nil (s : str) : starts_with [] s = true.
Proof. reflexivity. Qed.

Lemma skipn_S_tail {A} (k : nat) (w : list A) (d : A) (w' : list A) :
  skipn k w = d :: w' -> w' = skipn (S k) w /\ k < length w.
Proof.
  revert w; induction k as [|k IH]; intros [|a w] E; simpl in *;
    try discriminate.
  - inversion E; subst. split; [reflexivity | lia].
  - destruct (IH _ E). split; [assumption | lia].
Qed.

(** When the rewritten text begins with the end [w[k:]] of [w], so does the
    text, unless the text begins with a part of that end followed by a
    chain, and the rest of the end begins the replacement. *)
Lemma sub_starts_back_or (tail : string) (repl w : str) :
  forall x k,
    starts_with (skipn k w) (sub (chain tail) repl x) = true ->
    starts_with (skipn k w) x = true
    \/ exists j ns rest,
         k <= j /\ j < length w
         /\ x = firstn (j - k) (skipn k w) ++ chain_text ns tail ++ rest
         /\ starts_with (skipn j w) (repl ++ sub (chain tail) repl rest)
            = true.
Proof.
  induction x as [|c x IH]; intros k H; [now left|].
  destruct (match_here (chain tail) (c :: x)) as [rest|] eqn:M.
  - destruct (chain_match_inv _ _ M) as (ns & E). rewrite E, sub_chain in H.
    destruct (Nat.lt_ge_cases k (length w)) as [Lt | Ge].
    + right. exists k, ns, rest. rewrite Nat.sub_diag. simpl firstn.
      simpl app. auto.
    + left. now rewrite skipn_all2 by lia.
  - rewrite sub_step in H by exact M.
    destruct (skipn k w) as [|d w'] eqn:Ew; [now left|].
    destruct (skipn_S_tail _ _ Ew) as [-> Lk].
    rewrite starts_with_cons in H |- *.
    apply andb_prop in H. destruct H as [H1 H2]. rewrite H1. simpl andb.
    destruct (IH (S k) H2) as [L | (j & ns & rest & Hj1 & Hj2 & Ex & Hs)];
      [now left|].
    right. exists j, ns, rest. split; [lia|]. split; [lia|].
    split; [|exact Hs].
    rewrite Ex. replace (j - k) with (S (j - S k)) by lia.
    apply Ascii.eqb_eq in H1. now subst d.
Qed.

Lemma sub_starts_back (tail : string) (repl w : str) (k0 : nat) :
  (forall j z, k0 <= j -> j < length w ->
     starts_with (skipn j w) (repl ++ z) = false) ->
  forall x k, k0 <= k ->
    starts_with (skipn k w) (sub (chain tail) repl x) = true ->
    starts_with (skipn k w) x = true.
Proof.
  intros C x k Hk H.
  destruct (sub_starts_back_or _ _ _ _ _ H)
    as [L | (j & ns & rest & Hj1 & Hj2 & _ & Hs)]; [exact L|].
  rewrite C in Hs by lia. discriminate.
Qed.

Lemma contains_cons_inv (w : str) (c : ascii) (s : str) :
  contains w (c :: s) = true ->
  starts_with w (c :: s) = true \/ contains w s = true.
Proof.
  unfold contains. simpl. destruct (starts_with w (c :: s)); [now left|].
  destruct (find w s); [now right | discriminate].
Qed.

Lemma starts_with_contains (w s : str) :
  starts_with w s = true -> contains w s = true.
Proof. intros H. unfold contains. now rewrite find_head. Qed.

(** A text that holds [w] behind the beginning [r] holds it from a place of
    [r] on or behind [r]. *)
Lemma contains_behind (w r y : str) :
  contains w (r ++ y) = true ->
  (exists i, i < length r /\ starts_with w (skipn i r ++ y) = true)
  \/ contains w y = true.
Proof.
  induction r as [|c r IH]; intros H; [now right|].
  change ((c :: r) ++ y) with (c :: (r ++ y)) in H.
  apply contains_cons_inv in H. destruct H as [H | H].
  - left. exists 0. split; [simpl; lia | exact H].
  - destruct (IH H) as [(i & Li & Hi) | R]; [|now right].
    left. exists (S i). split; [simpl; lia | exact Hi].
Qed.

(** When the rewritten text holds [w], the text holds it, or the text holds
    a beginning of [w] right before a chain and the rest of [w] begins the
    replacement, or [w] begins inside the replacement. *)
Lemma sub_contains_back_or (tail : string) (repl w : str) :
  w <> [] ->
  forall x,
    contains w (sub (chain tail) repl x) = true ->
    contains w x = true
    \/ (exists a j ns rest,
          j < length w
          /\ x = a ++ firstn j w ++ chain_text ns tail ++ rest
          /\ starts_with (skipn j w) (repl ++ sub (chain tail) repl rest)
             = true)
    \/ (exists i z, 1 <= i /\ i < length repl
                    /\ starts_with w (skipn i repl ++ z) = true).
Proof.
  intros Hw.
  assert (Lw : 0 < length w) by (destruct w; [congruence | simpl; lia]).
  assert (K : forall n x, length x <= n ->
    contains w (sub (chain tail) repl x) = true ->
    contains w x = true
    \/ (exists a j ns rest,
          j < length w
          /\ x = a ++ firstn j w ++ chain_text ns tail ++ rest
          /\ starts_with (skipn j w) (repl ++ sub (chain tail) repl rest)
             = true)
    \/ (exists i z, 1 <= i /\ i < length repl
                    /\ starts_with w (skipn i repl ++ z) = true)).
  { induction n as [|n IH]; intros [|c x] L H; simpl in L; try lia;
      try (now left).
    destruct (match_here (chain tail) (c :: x)) as [rest|] eqn:M.
    - destruct (chain_match_inv _ _ M) as (ns & E).
      assert (Lr : length rest <= n).
      { apply (f_equal (@length ascii)) in E. rewrite length_app in E.
        assert (0 < length (chain_text ns tail))
          by (destruct ns; simpl; lia).
        simpl in E. lia. }
      rewrite E, sub_chain in H.
      destruct (contains_behind _ _ _ H) as [(i & Li & Hi) | R].
      + destruct i as [|i].
        * right. left. exists [], 0, ns, rest. simpl. auto.
        * right. right. exists (S i), (sub (chain tail) repl rest).
          split; [lia | auto].
      + destruct (IH rest Lr R)
          as [C | [(a & j & ns' & rest' & Hj & Ex & Hs) | T]].
        * left. rewrite E. now apply contains_app_r.
        * right. left. exists (chain_text ns tail ++ a), j, ns', rest'.
          split; [exact Hj|]. split; [|exact Hs].
          rewrite E, Ex. now rewrite <- app_assoc.
        * right. now right.
    - rewrite sub_step in H by exact M.
      apply contains_cons_inv in H. destruct H as [H | H].
      + rewrite <- (@sub_step tail repl c x M) in H.
        destruct (@sub_starts_back_or tail repl w (c :: x) 0 H)
          as [S0 | (j & ns & rest & _ & Hj & Ex & Hs)].
        * left. now apply starts_with_contains.
        * right. left. exists [], j, ns, rest.
          rewrite Nat.sub_0_r in Ex. simpl in Ex |- *. auto.
      + destruct (IH x ltac:(lia) H)
          as [C | [(a & j & ns & rest & Hj & Ex & Hs) | T]].
        * left. now apply contains_cons.
        * right. left. exists (c :: a), j, ns, rest.
          split; [exact Hj|]. split; [|exact Hs]. now rewrite Ex.
        * right. now right. }
  intros x. now apply (K (length x)).
Qed.

(** *** After the substitutions no chain is left *)

Lemma free_nil (tail : string) : free (chain tail) [].
Proof. intros u v E. symmetry in E. apply app_eq_nil in E. now destruct E as [_ ->]. Qed.

Lemma free_cons_inv (r : regex) (c : ascii) (x : str) :
  free r (c :: x) -> match_here r (c :: x) = None /\ free r x.
Proof.
  intros F. split; [now apply (F [])|].
  intros u v E. apply (F (c :: u)). now rewrite E.
Qed.

Lemma free_cons (r : regex) (c : ascii) (x : str) :
  match_here r (c :: x) = None -> free r x -> free r (c :: x).
Proof.
  intros M F [|d u] v E; simpl in E.
  - now subst v.
  - inversion E; subst. now apply (F u).
Qed.

Lemma free_app_inv_r (r : regex) (x y : str) : free r (x ++ y) -> free r y.
Proof. intros F u v E. apply (F (x ++ u)). now rewrite E, app_assoc. Qed.

Lemma free_app (r : regex) (a y : str) :
  nomatch r a y -> free r y -> free r (a ++ y).
Proof.
  induction a as [|c a IH]; intros N F; [exact F|].
  change ((c :: a) ++ y) with (c :: (a ++ y)). apply free_cons.
  - apply (N 0). simpl. lia.
  - apply IH; [|exact F]. intros i Hi. apply (N (S i)). simpl. lia.
Qed.

Lemma sub_free (tail : string) (repl x : str) :
  free (chain tail) x -> sub (chain tail) repl x = x.
Proof.
  induction x as [|c x IH]; intros F; [reflexivity|].
  destruct (free_cons_inv F) as [M F']. rewrite sub_step by exact M.
  now rewrite IH.
Qed.

(** A substitution completes no chain whose first character stands before
    the text it rewrites. *)
Lemma chain_not_created (tail_j tail_k : string) (repl : str) (c : ascii)
    (x : str) :
  In tail_j tails -> (forall z, sealed (repl ++ z)) ->
  match_here (chain tail_j) (c :: x) = None ->
  match_here (chain tail_j) (c :: sub (chain tail_k) repl x) = None.
Proof.
  intros Hj S M.
  destruct (match_here (chain tail_j) (c :: sub (chain tail_k) repl x))
    as [rest|] eqn:M'; [exfalso|reflexivity].
  destruct (chain_match_inv _ _ M') as (ns & E).
  assert (St : starts_with (chain_text ns tail_j)
                 (c :: sub (chain tail_k) repl x) = true)
    by (rewrite E; apply starts_with_app).
  assert (C : forall j z, 1 <= j -> j < length (chain_text ns tail_j) ->
                starts_with (skipn j (chain_text ns tail_j)) (repl ++ z)
                = false)
    by (intros j z H1 H2; now apply S).
  pose proof (@sub_starts_back tail_k repl (chain_text ns tail_j) 1 C x 1
                (le_n 1)) as B.
  destruct (chain_text ns tail_j) as [|d m'] eqn:Em;
    [now apply chain_text_nonempty in Em|].
  rewrite starts_with_cons in St. apply andb_prop in St.
  destruct St as [S1 S2]. simpl skipn in B. specialize (B S2).
  assert (St : starts_with (d :: m') (c :: x) = true)
    by (rewrite starts_with_cons, S1, B; reflexivity).
  destruct (starts_with_true _ _ St) as (r' & Er).
  rewrite Er, <- Em, chain_match in M. discriminate.
Qed.

Lemma sub_settles (tail_j tail_k : string) (repl : str) :
  In tail_j tails -> (forall z, sealed (repl ++ z)) ->
  (forall z, nomatch (chain tail_j) repl z) ->
  forall x, tail_j = tail_k \/ free (chain tail_j) x ->
    free (chain tail_j) (sub (chain tail_k) repl x).
Proof.
  intros Hj S N.
  assert (K : forall n x, length x <= n ->
                tail_j = tail_k \/ free (chain tail_j) x ->
                free (chain tail_j) (sub (chain tail_k) repl x)).
  { induction n as [|n IH]; intros [|c x] L H; simpl in L; try lia;
      try apply free_nil.
    destruct (match_here (chain tail_k) (c :: x)) as [rest|] eqn:M.
    - destruct (chain_match_inv _ _ M) as (ns & E).
      rewrite E, sub_chain. apply free_app; [apply N|].
      apply IH.
      + apply (f_equal (@length ascii)) in E. rewrite length_app in E.
        assert (0 < length (chain_text ns tail_k))
          by (destruct ns; simpl; lia).
        simpl in E. lia.
      + destruct H as [H | H]; [now left | right].
        rewrite E in H. now apply free_app_inv_r in H.
    - rewrite sub_step by exact M. apply free_cons.
      + apply chain_not_created; [exact Hj | exact S|].
        destruct H as [<- | H]; [exact M|].
        now apply free_cons_inv in H.
      + apply IH; [lia|]. destruct H as [H | H]; [now left | right].
        now apply free_cons_inv in H. }
  intros x. now apply (K (length x)).
Qed.

Lemma convert_chains_settled (t : str) : settled (convert_chains t).
Proof.
  assert (I1 : In ")?.as_millis() as u64" tails) by (simpl; auto).
  assert (I2 : In ")?.as_secs()" tails) by (simpl; auto).
  assert (I3 : In ").unwrap().as_millis()" tails) by (simpl; auto).
  unfold convert_chains, millis_try_pattern, secs_try_pattern,
    millis_unwrap_pattern.
  intros tail [<- | [<- | [<- | []]]].
  - apply sub_settles;
      [exact I1 | apply sealed_millis | apply nomatch_millis | right].
    apply sub_settles;
      [exact I1 | apply sealed_secs | apply nomatch_secs | right].
    apply sub_settles;
      [exact I1 | apply sealed_millis | apply nomatch_millis | now left].
  - apply sub_settles;
      [exact I2 | apply sealed_millis | apply nomatch_millis | right].
    apply sub_settles;
      [exact I2 | apply sealed_secs | apply nomatch_secs | now left].
  - apply sub_settles;
      [exact I3 | apply sealed_millis | apply nomatch_millis | now left].
Qed.

Lemma convert_chains_fixed (t : str) : settled t -> convert_chains t = t.
Proof.
  intros H. unfold convert_chains, millis_try_pattern, secs_try_pattern,
    millis_unwrap_pattern.
  rewrite (@sub_free ")?.as_millis() as u64") by (apply H; simpl; auto).
  rewrite (@sub_free ")?.as_secs()") by (apply H; simpl; auto).
  apply sub_free. apply H. simpl. auto.
Qed.

(** A second pass of the substitutions changes nothing. *)
Lemma convert_chains_idem (t : str) :
  convert_chains (convert_chains t) = convert_chains t.
Proof. apply convert_chains_fixed, convert_chains_settled. Qed.

(** A text that holds one of the three chains is changed. *)
Lemma convert_chains_changes (namespaced : bool) (tail : string) (a b : str) :
  In tail tails ->
  convert_chains (a ++ chain_text namespaced tail ++ b)
  <> a ++ chain_text namespaced tail ++ b.
Proof.
  intros Ht E.
  pose proof (convert_chains_settled (a ++ chain_text namespaced tail ++ b))
    as S.
  rewrite E in S.
  pose proof (S tail Ht a (chain_text namespaced tail ++ b) eq_refl) as M.
  rewrite chain_match in M. discriminate.
Qed.

(** *** Texts the substitutions do not bring about *)

Ltac ends_known :=
  let j := fresh "j" in
  let z := fresh "z" in
  let H := fresh "H" in
  intros j z H; repeat (destruct j as [|j]; [reflexivity|]); out_of_range H.

Ltac inside_known :=
  let i := fresh "i" in
  let z := fresh "z" in
  let H1 := fresh "H" in
  let H2 := fresh "H" in
  intros i z H1 H2; destruct i as [|i]; [lia|];
  repeat (destruct i as [|i]; [reflexivity|]); out_of_range H2.

Lemma sub_keeps_out (tail : string) (repl w : str) :
  w <> [] ->
  (forall j z, j < length w -> starts_with (skipn j w) (repl ++ z) = false) ->
  (forall i z, 1 <= i -> i < length repl ->
     starts_with w (skipn i repl ++ z) = false) ->
  forall x, contains w x = false ->
    contains w (sub (chain tail) repl x) = false.
Proof.
  intros Hw C1 C2 x Hx.
  destruct (contains w (sub (chain tail) repl x)) eqn:E; [exfalso|reflexivity].
  destruct (@sub_contains_back_or tail repl w Hw x E)
    as [C | [(a & j & ns & rest & Hj & _ & Hs) | (i & z & H1 & H2 & Hs)]].
  - congruence.
  - rewrite C1 in Hs by exact Hj. discriminate.
  - rewrite C2 in Hs by assumption. discriminate.
Qed.

(** The substitutions bring no import into a text that has none. *)
Lemma convert_chains_no_use (t : str) :
  contains (lit "use ") t = false ->
  contains (lit "use ") (convert_chains t) = false.
Proof.
  intros H. unfold convert_chains.
  apply sub_keeps_out; [discriminate | ends_known | inside_known|].
  apply sub_keeps_out; [discriminate | ends_known | inside_known|].
  apply sub_keeps_out; [discriminate | ends_known | inside_known | exact H].
Qed.

(** Nor a function header named by the call. *)
Lemma convert_chains_no_header (t : str) :
  contains (lit "fn SystemTime::now()") t = false ->
  contains (lit "fn SystemTime::now()") (convert_chains t) = false.
Proof.
  intros H. unfold convert_chains.
  apply sub_keeps_out; [discriminate | ends_known | inside_known|].
  apply sub_keeps_out; [discriminate | ends_known | inside_known|].
  apply sub_keeps_out; [discriminate | ends_known | inside_known | exact H].
Qed.

(** The substitution of the [?.as_secs()] chains brings about the signature
    of the helper only from a function header named by the chain. *)
Lemma secs_sub_no_signature (x : str) :
  contains helper_signature x = false ->
  contains (lit "fn SystemTime::now()") x = false ->
  contains helper_signature
    (sub secs_try_pattern (lit "current_unix_timestamp()") x) = false.
Proof.
  intros Hs Hu. unfold secs_try_pattern.
  destruct (contains helper_signature
              (sub (chain ")?.as_secs()") (lit "current_unix_timestamp()") x))
    eqn:E; [exfalso|reflexivity].
  assert (Hw : helper_signature <> []) by discriminate.
  destruct (@sub_contains_back_or _ _ _ Hw x E)
    as [C | [(a & j & ns & rest & Hj & Ex & St) | (i & z & H1 & H2 & St)]].
  - congruence.
  - assert (C1 : forall j z, j < 3 ->
                   starts_with (skipn j helper_signature)
                     (lit "current_unix_timestamp()" ++ z) = false)
      by ends_known.
    assert (C2 : forall j z, j < length helper_signature - 4 ->
                   starts_with (skipn (4 + j) helper_signature)
                     (lit "current_unix_timestamp()" ++ z) = false)
      by ends_known.
    destruct (Nat.lt_ge_cases j 3) as [Lt | Ge];
      [rewrite C1 in St by exact Lt; discriminate|].
    destruct (Nat.eq_dec j 3) as [-> | Ne].
    + assert (K : contains (lit "fn SystemTime::now()") x = true).
      { rewrite Ex. apply contains_app_r.
        change (firstn 3 helper_signature) with (lit "fn ").
        unfold chain_text. rewrite !app_assoc.
        rewrite <- (app_assoc _ _ rest).
        change (lit "fn " ++ chain_head)
          with (lit "fn SystemTime::now()" ++ lit ".duration_since(").
        rewrite <- !app_assoc.
        apply (contains_app (lit "fn SystemTime::now()") []). }
      congruence.
    + replace j with (4 + (j - 4)) in St by lia.
      rewrite C2 in St by lia. discriminate.
  - assert (C3 : forall i z, 1 <= i ->
                   i < length (lit "current_unix_timestamp()") ->
                   starts_with helper_signature
                     (skipn i (lit "current_unix_timestamp()") ++ z) = false)
      by inside_known.
    rewrite C3 in St by assumption. discriminate.
Qed.

(** The substitutions leave a text without definition of the helper without
    one, unless it holds a function header named by the call. *)
Lemma convert_chains_no_signature (t : str) :
  contains helper_signature t = false ->
  contains (lit "fn SystemTime::now()") t = false ->
  contains helper_signature (convert_chains t) = false.
Proof.
  intros Hs Hu. unfold convert_chains.
  apply sub_keeps_out; [discriminate | ends_known | inside_known|].
  apply secs_sub_no_signature.
  - apply sub_keeps_out; [discriminate | ends_known | inside_known | exact Hs].
  - apply sub_keeps_out; [discriminate | ends_known | inside_known | exact Hu].
Qed.

(** *** The content computed for a file, computed again *)

Lemma inject_helper_without_use (t : str) :
  contains (lit "use ") t = false -> inject_helper t = t.
Proof.
  intros H. unfold inject_helper. rewrite (rfind_none _ _ H).
  now destruct (negb (contains helper_signature t)).
Qed.

Lemma inject_helper_with_signature (t : str) :
  contains helper_signature t = true -> inject_helper t = t.
Proof. intros H. unfold inject_helper. now rewrite H. Qed.

(** The content computed from a content already computed is that
    content. *)
Lemma convert_content_idem (p : path) (t : str) :
  convert_content p (convert_content p t) = convert_content p t.
Proof.
  unfold convert_content. destruct (contains (lit "cli") p); [|reflexivity].
  set (t' := convert_chains (inject_helper t)).
  assert (I : inject_helper t' = t').
  { destruct (contains helper_signature t') eqn:S';
      [now apply inject_helper_with_signature|].
    apply inject_helper_without_use.
    destruct (contains helper_signature t) eqn:S.
    - unfold t' in S'.
      rewrite signature_survives in S'
        by (apply inject_helper_registered; now left).
      discriminate.
    - destruct (contains (lit "use ") t) eqn:U.
      + unfold t' in S'.
        rewrite signature_survives in S'
          by (apply inject_helper_registered; now right).
        discriminate.
      + unfold t'. rewrite (inject_helper_without_use _ U).
        now apply convert_chains_no_use. }
  rewrite I. apply convert_chains_idem.
Qed.


End ChainFacts.

(** ** Text the script writes holds no CR *)

Section WrittenTextFacts.
Import Py Re ReLang Fs Fixer Props.
Local Open Scope string_scope.
Local Open Scope nat_scope.
Local Open Scope list_scope.

Lemma no_CR_joinlines (ls : list str) :
  Forall (fun l => ~ In CR l) ls -> ~ In CR (joinlines ls).
Proof.
  unfold joinlines. intros H Hin. apply in_concat in Hin.
  destruct Hin as (l & Hl & Hc). rewrite Forall_forall in H.
  now apply (H l).
Qed.

Lemma no_CR_readlines (s : str) :
  ~ In CR s -> Forall (fun l => ~ In CR l) (readlines s).
Proof.
  intros H. apply Forall_forall. intros l Hl Hc. apply H.
  rewrite <- (joinlines_readlines s). unfold joinlines.
  apply in_concat. now exists l.
Qed.

Lemma Forall_set_nth {A} (Q : A -> Prop) (ls : list A) (k : nat) (x : A) :
  Forall Q ls -> Q x -> Forall Q (set_nth ls k x).
Proof.
  intros H Hx. revert k. induction H as [|a ls Ha Hls IH]; intros [|k]; simpl;
    try constructor; auto.
Qed.

Lemma Forall_set {A} (Q : A -> Prop) (ls : list A) (i : Z) (x : A) :
  Forall Q ls -> Q x -> Forall Q (set ls i x).
Proof. intros H Hx. unfold set. destruct (i <? 0)%Z; now apply Forall_set_nth. Qed.

Lemma Forall_insert {A} (Q : A -> Prop) (ls : list A) (i : Z) (x : A) :
  Forall Q ls -> Q x -> Forall Q (insert ls i x).
Proof.
  intros H Hx. unfold insert. set (n := clip (length ls) i).
  rewrite <- (firstn_skipn n ls) in H. apply Forall_app in H.
  destruct H as [H1 H2]. apply Forall_app. split; [exact H1|].
  now constructor.
Qed.

Lemma no_CR_first_fix (ol nl : str) :
  first_fix fixes ol = Some nl -> ~ In CR ol -> ~ In CR nl.
Proof.
  apply (first_fix_some (fun s s' => ~ In CR s -> ~ In CR s')).
  unfold fixes.
  repeat (constructor;
          [intros s _ Hs; apply no_CR_sub;
           [apply no_CR; reflexivity | exact Hs]|]).
  constructor.
Qed.

Lemma no_CR_allow_line (ol : str) : ~ In CR (allow_line ol).
Proof.
  unfold allow_line, spaces. intros H.
  apply in_app_or in H. destruct H as [H | H].
  - apply repeat_spec in H. discriminate.
  - revert H. apply no_CR. reflexivity.
Qed.

Lemma no_CR_inject_helper (t : str) :
  ~ In CR t -> ~ In CR (inject_helper t).
Proof.
  intros H. unfold inject_helper.
  destruct (negb (contains helper_signature t)); [|exact H].
  destruct (rfind (lit "use ") t) as [i|]; [|exact H].
  unfold slice_to, slice_from.
  apply no_CR_app; [now apply no_CR_firstn|].
  apply no_CR_app; [apply no_CR; reflexivity|].
  apply no_CR_app; [apply no_CR; reflexivity | now apply no_CR_skipn].
Qed.

Lemma no_CR_convert_chains (t : str) :
  ~ In CR t -> ~ In CR (convert_chains t).
Proof.
  intros H. unfold convert_chains.
  repeat (apply no_CR_sub; [apply no_CR; reflexivity|]). exact H.
Qed.

Lemma no_CR_convert_content (p : path) (t : str) :
  ~ In CR t -> ~ In CR (convert_content p t).
Proof.
  intros H. unfold convert_content.
  destruct (contains (lit "cli") p); [|exact H].
  now apply no_CR_convert_chains, no_CR_inject_helper.
Qed.

Lemma no_CR_register (t : str) : ~ In CR t -> ~ In CR (register t).
Proof.
  intros H. unfold register. destruct (found mod_pattern t).
  - unfold sub_count. apply no_CR_sub_go; [|exact H].
    intros m Hm. unfold mod_run_replacement.
    apply no_CR_app; [exact Hm | apply no_CR; reflexivity].
  - apply no_CR_app; [apply no_CR; reflexivity|].
    apply no_CR_app; [apply no_CR; reflexivity | exact H].
Qed.

(** The three contents the rewriters write, and the export file the
    injector writes, differ from the content stored. *)
Lemma converted_differs (p : path) (c : str) :
  let t := universal_newlines c in
  eqb_str (convert_content p t) t = false -> convert_content p t <> c.
Proof.
  intros t E. apply written_differs.
  - apply no_CR_convert_content, universal_newlines_no_CR.
  - now apply eqb_str_false in E.
Qed.

Lemma no_CR_field_line (c : str) (i : Z) (ol nl : str) :
  let lines := readlines (universal_newlines c) in
  get lines i = Some ol -> first_fix fixes ol = Some nl ->
  ~ In CR (joinlines (set lines i nl)).
Proof.
  intros lines G F.
  assert (Hl : Forall (fun l => ~ In CR l) lines)
    by apply no_CR_readlines, universal_newlines_no_CR.
  assert (Hol : ~ In CR ol).
  { destruct (get_place _ _ G) as (k & Hk & _).
    apply nth_error_In in Hk. rewrite Forall_forall in Hl. now apply Hl. }
  apply no_CR_joinlines, Forall_set; [exact Hl|].
  now apply (no_CR_first_fix _ F).
Qed.

Lemma no_CR_annotated (c : str) (i : Z) (ol : str) :
  let lines := readlines (universal_newlines c) in
  ~ In CR (joinlines (insert lines i (allow_line ol))).
Proof.
  intros lines. apply no_CR_joinlines, Forall_insert;
    [apply no_CR_readlines, universal_newlines_no_CR
    | apply no_CR_allow_line].
Qed.

Lemma field_line_differs (c : str) (i : Z) (ol nl : str) :
  let lines := readlines (universal_newlines c) in
  get lines i = Some ol -> first_fix fixes ol = Some nl ->
  joinlines (set lines i nl) <> c.
Proof.
  intros lines G F.
  apply written_differs.
  - exact (@no_CR_field_line c i ol nl G F).
  - rewrite <- (joinlines_readlines (universal_newlines c)).
    eapply joinlines_set_changes; [exact G|]. now apply first_fix_changes.
Qed.

Lemma annotated_differs (c : str) (i : Z) (ol : str) :
  let lines := readlines (universal_newlines c) in
  joinlines (insert lines i (allow_line ol)) <> c.
Proof.
  intros lines. apply written_differs.
  - apply no_CR_annotated.
  - rewrite <- (joinlines_readlines (universal_newlines c)).
    apply joinlines_insert_changes. unfold allow_line. intros E.
    apply app_eq_nil in E. destruct E as [_ E]. discriminate.
Qed.

Lemma registered_differs (c : str) :
  register (universal_newlines c) <> c.
Proof.
  apply written_differs.
  - apply no_CR_register, universal_newlines_no_CR.
  - apply register_changes.
Qed.

End WrittenTextFacts.

(** ** The steps of the rewriters, as state changes *)

Section StepFacts.
Import Py Re Fs Fixer Props.
Local Open Scope string_scope.
Local Open Scope nat_scope.
Local Open Scope list_scope.

Lemma state_eta (st : state) :
  mkState (fs st) (fixes_applied st) (stdout st) (trace st) = st.
Proof. now destruct st. Qed.

Lemma log_nil (st : state) : log [] st = st.
Proof. unfold log. rewrite app_nil_r. apply state_eta. Qed.

Lemma say_nil (st : state) : say [] st = st.
Proof. unfold say. rewrite app_nil_r. apply state_eta. Qed.

Lemma read_file_eq (p : path) (st : state) :
  read_file p st
  = match lookup p (files (fs st)) with
    | Some c => (Val (universal_newlines c), log [Read p] st)
    | None => (Exn (open_error (fs st) p), log [OpenFailed p] st)
    end.
Proof.
  unfold read_file. destruct (lookup p (files (fs st))); reflexivity.
Qed.

Lemma read_text_some (f : fsys) (p : path) (t : str) :
  read_text f p = Some t ->
  exists c, lookup p (files f) = Some c /\ t = universal_newlines c.
Proof.
  unfold read_text. destruct (lookup p (files f)) as [c|]; [|discriminate].
  intros E. inversion E. now exists c.
Qed.

Lemma write_file_eq (p : path) (c : str) (st : state) :
  write_file p c st
  = if can_write (fs st) p
    then (Val tt, log [Write p (lookup p (files (fs st))) c] (store p c st))
    else (Exn (open_error (fs st) p), log [OpenFailed p] st).
Proof.
  unfold write_file, can_write. now destruct (is_file (fs st) p || _).
Qed.

Lemma is_file_lookup (f : fsys) (p : path) (c : str) :
  lookup p (files f) = Some c -> can_write f p = true.
Proof. unfold can_write, is_file. now intros ->. Qed.

(** [fix_timestamp_conversion] on one occurrence. *)
Lemma fix_timestamp_conversion_eq (p : path) (n : nat) (l : str) (st : state) :
  fix_timestamp_conversion (p, n, l) st
  = (Val tt,
     match lookup p (files (fs st)) with
     | None =>
         say [lit "Error fixing " ++ p ++ lit ": "
              ++ exn_str (open_error (fs st) p)] (log [OpenFailed p] st)
     | Some c =>
         let t := universal_newlines c in
         let c' := convert_content p t in
         if eqb_str c' t then log [Read p] st
         else note (lit "Timestamp conversions in " ++ name p)
                (log [Write p (Some c) c'] (store p c' (log [Read p] st)))
     end).
Proof.
  unfold fix_timestamp_conversion, try_except, bind.
  rewrite read_file_eq. destruct (lookup p (files (fs st))) as [c|] eqn:E.
  - cbv zeta.
    destruct (eqb_str (convert_content p (universal_newlines c))
                      (universal_newlines c)); simpl; [reflexivity|].
    rewrite write_file_eq. simpl. rewrite (is_file_lookup _ _ E), E.
    reflexivity.
  - reflexivity.
Qed.

(** The content a file holds after the rewriter has handled an occurrence
    in it. *)
Lemma fix_timestamp_conversion_content
    (p : path) (n : nat) (l c : str) (st : state) :
  lookup p (files (fs st)) = Some c ->
  let t := universal_newlines c in
  lookup p (files (fs (exec (fix_timestamp_conversion (p, n, l)) st)))
  = Some (if eqb_str (convert_content p t) t then c else convert_content p t).
Proof.
  intros L t. unfold exec. rewrite fix_timestamp_conversion_eq. cbn [snd].
  rewrite L. cbv zeta. fold t.
  destruct (eqb_str (convert_content p t) t) eqn:E.
  - exact L.
  - simpl. apply lookup_update_same.
Qed.

Lemma fix_timestamp_conversion_other
    (q p : path) (n : nat) (l : str) (st : state) :
  q <> p ->
  lookup p (files (fs (exec (fix_timestamp_conversion (q, n, l)) st)))
  = lookup p (files (fs st)).
Proof.
  intros N. unfold exec. rewrite fix_timestamp_conversion_eq. cbn [snd].
  destruct (lookup q (files (fs st))) as [c|]; [|reflexivity]. cbv zeta.
  destruct (eqb_str _ _); [reflexivity|]. simpl.
  apply lookup_update_other. congruence.
Qed.

(** [fix_struct_field] on one occurrence. *)
Lemma fix_struct_field_eq (p : path) (n : nat) (l : str) (st : state) :
  fix_struct_field (p, n, l) st
  = (Val tt,
     let oops e := say [lit "Error fixing " ++ p ++ lit ":" ++ str_of_nat n
                        ++ lit ": " ++ exn_str e] in
     match lookup p (files (fs st)) with
     | None => oops (open_error (fs st) p) (log [OpenFailed p] st)
     | Some c =>
         let lines := readlines (universal_newlines c) in
         match get lines (Z.of_nat n - 1) with
         | None => oops IndexError (log [Read p] st)
         | Some original_line =>
             match first_fix fixes original_line with
             | None => log [Read p] st
             | Some new_line =>
                 let c' := joinlines (set lines (Z.of_nat n - 1)
                                          new_line) in
                 note (lit "Struct field in " ++ name p ++ lit ":"
                       ++ str_of_nat n)
                   (log [Write p (Some c) c'] (store p c' (log [Read p] st)))
             end
         end
     end).
Proof.
  unfold fix_struct_field, try_except, bind.
  rewrite read_file_eq. destruct (lookup p (files (fs st))) as [c|] eqn:E.
  - cbv zeta.
    destruct (get (readlines (universal_newlines c)) (Z.of_nat n - 1))
      as [ol|]; [|reflexivity].
    destruct (first_fix fixes ol) as [nl|]; [|reflexivity].
    rewrite write_file_eq. simpl. rewrite (is_file_lookup _ _ E), E.
    reflexivity.
  - reflexivity.
Qed.

(** [fix_direct_assignment] on one occurrence. *)
Lemma fix_direct_assignment_eq (p : path) (n : nat) (l : str) (st : state) :
  fix_direct_assignment (p, n, l) st
  = (Val tt,
     let oops e := say [lit "Error fixing " ++ p ++ lit ":" ++ str_of_nat n
                        ++ lit ": " ++ exn_str e] in
     match lookup p (files (fs st)) with
     | None => oops (open_error (fs st) p) (log [OpenFailed p] st)
     | Some c =>
         let lines := readlines (universal_newlines c) in
         match get lines (Z.of_nat n - 1) with
         | None => oops IndexError (log [Read p] st)
         | Some original_line =>
             if found let_call_pattern original_line
                && (contains (lit "test") p || contains (lit "utils") p)
             then
               let c' := joinlines (insert lines (Z.of_nat n - 1)
                                           (allow_line original_line)) in
               note (lit "Added allow attribute in " ++ name p ++ lit ":"
                     ++ str_of_nat n)
                 (log [Write p (Some c) c'] (store p c' (log [Read p] st)))
             else log [Read p] st
         end
     end).
Proof.
  unfold fix_direct_assignment, try_except, bind.
  rewrite read_file_eq. destruct (lookup p (files (fs st))) as [c|] eqn:E.
  - cbv zeta.
    destruct (get (readlines (universal_newlines c)) (Z.of_nat n - 1))
      as [ol|]; [|reflexivity].
    destruct (found let_call_pattern ol); [|reflexivity].
    destruct (contains (lit "test") p || contains (lit "utils") p);
      [|reflexivity].
    rewrite write_file_eq. simpl. rewrite (is_file_lookup _ _ E), E.
    reflexivity.
  - reflexivity.
Qed.

(** [create_time_helper_functions]. *)
Lemma create_time_helper_functions_eq (root : path) (st : state) :
  create_time_helper_functions root st
  = (Val tt,
     let uf := utils_file root in
     let lf := lib_file root in
     let oops e := say [lit "Error creating time utils: " ++ exn_str e] in
     let done := note (lit "Created time_utils module") in
     if can_write (fs st) uf then
       let st1 := log [Write uf (lookup uf (files (fs st))) utils_content]
                      (store uf utils_content st) in
       if exists_ (fs st1) lf then
         match lookup lf (files (fs st1)) with
         | None => oops (open_error (fs st1) lf) (log [OpenFailed lf] st1)
         | Some c =>
             let t := universal_newlines c in
             if contains registration t then done (log [Read lf] st1)
             else done (log [Write lf (Some c) (register t)]
                          (store lf (register t) (log [Read lf] st1)))
         end
       else done st1
     else oops (open_error (fs st) uf) (log [OpenFailed uf] st)).
Proof.
  unfold create_time_helper_functions, try_except, bind.
  rewrite write_file_eq. destruct (can_write (fs st) (utils_file root));
    [|reflexivity].
  unfold path_exists. cbv zeta.
  set (st1 := log _ (store _ _ st)).
  destruct (exists_ (fs st1) (lib_file root)); [|reflexivity].
  rewrite read_file_eq.
  destruct (lookup (lib_file root) (files (fs st1))) as [c|] eqn:E;
    [|reflexivity].
  destruct (contains registration (universal_newlines c)); simpl;
    [reflexivity|].
  rewrite write_file_eq.
  change (fs (log [Read (lib_file root)] st1)) with (fs st1).
  rewrite (is_file_lookup _ _ E), E. reflexivity.
Qed.

(** *** Loops and sequences of steps that never raise *)

Lemma total_bind (m k : M unit) :
  total m -> total k ->
  total (m ;; k) /\ forall st, exec (m ;; k) st = exec k (exec m st).
Proof.
  intros Hm Hk. split; intros st; unfold exec, bind; rewrite (Hm st);
    [apply Hk | reflexivity].
Qed.

Lemma exec_bind (m k : M unit) (st : state) :
  total m -> exec (m ;; k) st = exec k (exec m st).
Proof. intros Hm. unfold exec, bind. now rewrite (Hm st). Qed.

Lemma total_seq (m k : M unit) : total m -> total k -> total (m ;; k).
Proof. intros Hm Hk. now apply total_bind. Qed.

Lemma total_ret : total (ret tt).
Proof. now intros st. Qed.

Lemma total_print (s : str) : total (print s).
Proof. now intros st. Qed.

Lemma total_emit (e : event) : total (emit e).
Proof. now intros st. Qed.

Lemma total_for_each {A} (xs : list A) (body : A -> M unit) :
  (forall x, total (body x)) -> total (for_each xs body).
Proof.
  intros Hb. induction xs as [|x xs IH]; simpl.
  - apply total_ret.
  - apply total_seq; [apply Hb | apply IH].
Qed.

Lemma exec_print (s : str) (st : state) : exec (print s) st = say [s] st.
Proof. reflexivity. Qed.

Lemma exec_emit (e : event) (st : state) : exec (emit e) st = log [e] st.
Proof. reflexivity. Qed.

(** A relation between the state before and the state after that holds for
    every round of a loop holds for the loop. *)
Lemma for_each_inv {A} (R : state -> state -> Prop) (xs : list A)
    (body : A -> M unit) :
  (forall st, R st st) ->
  (forall a b c, R a b -> R b c -> R a c) ->
  (forall x, total (body x)) ->
  (forall x st, In x xs -> R st (exec (body x) st)) ->
  forall st, R st (exec (for_each xs body) st).
Proof.
  intros Hrefl Htrans Htot. induction xs as [|x xs IH]; intros Hb st.
  - apply Hrefl.
  - simpl for_each. rewrite exec_bind by apply Htot.
    eapply Htrans; [apply Hb; now left|].
    apply IH. intros y st' Hy. apply Hb. now right.
Qed.

Lemma total_fix_timestamp_conversion (o : occurrence) :
  total (fix_timestamp_conversion o).
Proof.
  destruct o as [[p n] l]. intros st. unfold exec.
  now rewrite fix_timestamp_conversion_eq.
Qed.

Lemma total_fix_struct_field (o : occurrence) : total (fix_struct_field o).
Proof.
  destruct o as [[p n] l]. intros st. unfold exec.
  now rewrite fix_struct_field_eq.
Qed.

Lemma total_fix_direct_assignment (o : occurrence) :
  total (fix_direct_assignment o).
Proof.
  destruct o as [[p n] l]. intros st. unfold exec.
  now rewrite fix_direct_assignment_eq.
Qed.

Lemma total_create_time_helper_functions (root : path) :
  total (create_time_helper_functions root).
Proof.
  intros st. unfold exec. now rewrite create_time_helper_functions_eq.
Qed.

Lemma bind_total {B} (m : M unit) (k : unit -> M B) (st : state) :
  total m -> bind m k st = k tt (exec m st).
Proof. intros H. unfold bind. now rewrite (H st). Qed.

(** The content a file holds after the loop of the rewriter, when the loop
    meets an occurrence in it: the content computed from the text read, or
    the content stored when that is the text read. *)
Lemma fix_timestamp_conversions_content
    (ms : list occurrence) (p : path) (n : nat) (l c : str) (st : state) :
  lookup p (files (fs st)) = Some c -> In (p, n, l) ms ->
  let t := universal_newlines c in
  lookup p (files (fs (exec (fix_timestamp_conversions ms) st)))
  = Some (if eqb_str (convert_content p t) t then c else convert_content p t).
Proof.
  intros L Hin t.
  set (final := if eqb_str (convert_content p t) t then c
                else convert_content p t).
  assert (Hfinal : eqb_str (convert_content p (universal_newlines final))
                           (universal_newlines final) = true).
  { unfold final. destruct (eqb_str (convert_content p t) t) eqn:E.
    - exact E.
    - rewrite (universal_newlines_id (convert_content p t))
        by apply no_CR_convert_content, universal_newlines_no_CR.
      apply eqb_str_true, convert_content_idem. }
  assert (Stable : forall o s,
             lookup p (files (fs s)) = Some final ->
             lookup p (files (fs (exec (fix_timestamp_conversion o) s)))
             = Some final).
  { intros [[q k] x] s Hs.
    destruct (list_eq_dec ascii_dec q p) as [-> | N].
    - rewrite (@fix_timestamp_conversion_content p k x final s Hs). cbv zeta.
      now rewrite Hfinal.
    - now rewrite fix_timestamp_conversion_other. }
  assert (P1 : forall xs s,
             lookup p (files (fs s)) = Some final ->
             lookup p (files (fs (exec (fix_timestamp_conversions xs) s)))
             = Some final).
  { induction xs as [|o xs IH]; intros s Hs; [exact Hs|].
    unfold fix_timestamp_conversions. simpl for_each.
    rewrite exec_bind by apply total_fix_timestamp_conversion.
    apply IH. now apply Stable. }
  revert st L. induction ms as [|o ms IH]; intros st L; [destruct Hin|].
  unfold fix_timestamp_conversions. simpl for_each.
  rewrite exec_bind by apply total_fix_timestamp_conversion.
  fold (fix_timestamp_conversions ms). destruct o as [[q k] x].
  destruct (list_eq_dec ascii_dec q p) as [-> | N].
  - apply P1. exact (@fix_timestamp_conversion_content p k x c st L).
  - apply IH.
    + destruct Hin as [E | Hin]; [inversion E; congruence | exact Hin].
    + now rewrite fix_timestamp_conversion_other.
Qed.

(** *** The scan *)

Lemma scan_file_eq (p : path) (st : state) :
  scan_file p st
  = match lookup p (files (fs st)) with
    | Some c =>
        (Val (scan_lines p 1 (readlines (universal_newlines c))),
         log [Read p] st)
    | None =>
        (Val [], say [lit "Warning: Could not read " ++ p ++ lit ": "
                      ++ exn_str (open_error (fs st) p)]
                     (log [OpenFailed p] st))
    end.
Proof.
  unfold scan_file. rewrite read_file_eq.
  now destruct (lookup p (files (fs st))).
Qed.

Lemma ext_refl (P : event -> Prop) (st : state) : ext P st st.
Proof. exists []. now rewrite app_nil_r. Qed.

Lemma ext_trans (P : event -> Prop) (a b c : state) :
  ext P a b -> ext P b c -> ext P a c.
Proof.
  intros (e1 & E1 & F1) (e2 & E2 & F2). exists (e1 ++ e2).
  rewrite E2, E1, <- app_assoc. split; [reflexivity|].
  apply Forall_app. now split.
Qed.

Lemma ext_same (P : event -> Prop) (st st' : state) :
  trace st' = trace st -> ext P st st'.
Proof. intros E. exists []. now rewrite app_nil_r. Qed.

Lemma ext_log (P : event -> Prop) (evs : list event) (st st' : state) :
  Forall P evs -> trace st' = trace st ++ evs -> ext P st st'.
Proof. intros F E. now exists evs. Qed.

Lemma observes_refl (st : state) : observes st st.
Proof. repeat split. apply ext_refl. Qed.

Lemma observes_trans (a b c : state) :
  observes a b -> observes b c -> observes a c.
Proof.
  intros (F1 & X1 & E1) (F2 & X2 & E2). repeat split; try congruence.
  eapply ext_trans; eauto.
Qed.

Lemma scan_files_eq (ps : list path) (st : state) :
  exists st', scan_files ps st = (Val (scan_tree (fs st) ps), st')
              /\ observes st st'.
Proof.
  revert st; induction ps as [|p ps IH]; intros st; simpl.
  - exists st. split; [reflexivity | apply observes_refl].
  - unfold bind. rewrite scan_file_eq.
    destruct (lookup p (files (fs st))) as [c|] eqn:E.
    + destruct (IH (log [Read p] st)) as (st' & -> & O).
      exists st'. split; [unfold lines_read, read_text; now rewrite E|].
      eapply observes_trans; [|exact O].
      repeat split. eapply ext_log; [|reflexivity]. now repeat constructor.
    + set (st1 := say _ (log [OpenFailed p] st)).
      destruct (IH st1) as (st' & -> & O).
      exists st'. split; [unfold lines_read, read_text; now rewrite E|].
      eapply observes_trans; [|exact O].
      repeat split. eapply ext_log; [|reflexivity]. now repeat constructor.
Qed.

Lemma find_systemtime_usage_eq (root : path) (st : state) :
  find_systemtime_usage root st
  = (Val (scan_tree (fs st) (rglob_rs (fs st) root)),
     exec (find_systemtime_usage root) st)
  /\ observes st (exec (find_systemtime_usage root) st).
Proof.
  unfold exec, find_systemtime_usage.
  destruct (scan_files_eq (rglob_rs (fs st) root) st) as (st' & -> & O).
  now split.
Qed.

Lemma matches_of_eq (root : path) (f : fsys) :
  matches_of root f = scan_tree f (rglob_rs f root).
Proof.
  unfold matches_of.
  destruct (find_systemtime_usage_eq root (initial f)) as [-> _].
  reflexivity.
Qed.

(** *** The report *)

Lemma prints_only_total (m : M unit) : prints_only m -> total m.
Proof. intros H st. unfold exec. destruct (H st) as (out & ->). reflexivity. Qed.

Lemma say_say (a b : list str) (st : state) :
  say b (say a st) = say (a ++ b) st.
Proof. unfold say. simpl. now rewrite app_assoc. Qed.

Lemma prints_only_print (s : str) : prints_only (print s).
Proof. intros st. now exists [s]. Qed.

Lemma prints_only_ret : prints_only (ret tt).
Proof. intros st. exists []. now rewrite say_nil. Qed.

Lemma prints_only_seq (m k : M unit) :
  prints_only m -> prints_only k -> prints_only (m ;; k).
Proof.
  intros Hm Hk st. unfold bind. destruct (Hm st) as (o1 & ->).
  destruct (Hk (say o1 st)) as (o2 & ->). exists (o1 ++ o2).
  now rewrite say_say.
Qed.

Lemma prints_only_for_each {A} (xs : list A) (body : A -> M unit) :
  (forall x, prints_only (body x)) -> prints_only (for_each xs body).
Proof.
  intros H. induction xs as [|x xs IH]; simpl.
  - apply prints_only_ret.
  - apply prints_only_seq; [apply H | apply IH].
Qed.

Lemma prints_only_print_category (c : category) (cs : categories) :
  prints_only (print_category c cs).
Proof.
  unfold print_category. destruct (bucket c cs) as [|o os];
    [apply prints_only_ret|].
  apply prints_only_seq; [apply prints_only_print|].
  apply prints_only_seq.
  - apply prints_only_for_each. intros [[p n] l]. apply prints_only_print.
  - destruct (3 <? length (o :: os));
      [apply prints_only_print | apply prints_only_ret].
Qed.

Lemma prints_only_print_summary : prints_only print_summary.
Proof.
  intros st. unfold print_summary.
  apply prints_only_seq; [apply prints_only_print|].
  apply prints_only_seq;
    [apply prints_only_for_each; intros; apply prints_only_print|].
  repeat (apply prints_only_seq; [apply prints_only_print|]).
  apply prints_only_print.
Qed.

Lemma prints_only_observes (m : M unit) (st : state) :
  prints_only m -> observes st (exec m st).
Proof.
  intros H. unfold exec. destruct (H st) as (out & ->).
  repeat split. now apply ext_same.
Qed.

(** *** [run_fixes], stage by stage *)

Lemma run_fixes_eq (root : path) (st : state) :
  run_fixes root st
  = (Val tt,
     match scan_tree (fs st) (rglob_rs (fs st) root) with
     | [] => say [lit "✅ No SystemTime::now() usage found!"]
                 (after_scan root st)
     | o :: os =>
         exec print_summary
           (after_rewriters (categorize_usage (o :: os))
              (after_injector root
                 (before_fixes (o :: os) (after_scan root st))))
     end).
Proof.
  unfold run_fixes.
  rewrite bind_total by apply total_print. rewrite exec_print.
  rewrite bind_total by apply total_emit. rewrite exec_emit.
  unfold bind at 1.
  destruct (find_systemtime_usage_eq root
              (log [Call FindSystemtimeUsage]
                 (say [lit "🔍 Finding SystemTime::now() usage..."] st)))
    as [E _].
  rewrite E. fold (after_scan root st).
  change (fs (log [Call FindSystemtimeUsage]
                (say [lit "🔍 Finding SystemTime::now() usage..."] st)))
    with (fs st).
  destruct (scan_tree (fs st) (rglob_rs (fs st) root)) as [|o os];
    [reflexivity|].
  rewrite bind_total by apply total_print. rewrite exec_print.
  rewrite bind_total by apply total_emit. rewrite exec_emit.
  rewrite bind_total
    by (apply prints_only_total, prints_only_for_each; intros;
        apply prints_only_print_category).
  rewrite bind_total by apply total_print. rewrite exec_print.
  rewrite bind_total by apply total_emit. rewrite exec_emit.
  fold (before_fixes (o :: os) (after_scan root st)).
  rewrite bind_total by apply total_create_time_helper_functions.
  fold (after_injector root (before_fixes (o :: os) (after_scan root st))).
  rewrite bind_total by apply total_emit. rewrite exec_emit.
  rewrite bind_total
    by (apply total_for_each, total_fix_timestamp_conversion).
  rewrite bind_total by apply total_emit. rewrite exec_emit.
  rewrite bind_total by (apply total_for_each, total_fix_struct_field).
  rewrite bind_total by apply total_emit. rewrite exec_emit.
  rewrite bind_total by (apply total_for_each, total_fix_direct_assignment).
  rewrite (prints_only_total prints_only_print_summary).
  reflexivity.
Qed.

(** *** The traces of the stages *)

Section Traces.
Variable P : event -> Prop.
Hypothesis P_read : forall p, P (Read p).
Hypothesis P_failed : forall p, P (OpenFailed p).
Hypothesis P_write : forall p c c', c' <> c -> P (Write p (Some c) c').

Lemma P_open (e : event) : is_open e = true -> P e.
Proof. destruct e; simpl; try discriminate; auto. Qed.

Lemma ext_fix_timestamp_conversion (o : occurrence) (st : state) :
  ext P st (exec (fix_timestamp_conversion o) st).
Proof.
  destruct o as [[p n] l]. unfold exec.
  rewrite fix_timestamp_conversion_eq. cbn [snd].
  destruct (lookup p (files (fs st))) as [c|].
  - cbv zeta.
    destruct (eqb_str (convert_content p (universal_newlines c))
                      (universal_newlines c)) eqn:E.
    + eapply ext_log; [|reflexivity]. auto.
    + apply converted_differs in E.
      apply ext_log
        with (evs := [Read p;
                      Write p (Some c)
                        (convert_content p (universal_newlines c))]);
        [auto | simpl; now rewrite <- app_assoc].
  - eapply ext_log; [|reflexivity]. auto.
Qed.

Lemma ext_fix_struct_field (o : occurrence) (st : state) :
  ext P st (exec (fix_struct_field o) st).
Proof.
  destruct o as [[p n] l]. unfold exec.
  rewrite fix_struct_field_eq. cbn [snd]. cbv zeta.
  destruct (lookup p (files (fs st))) as [c|];
    [|eapply ext_log; [|reflexivity]; auto].
  destruct (get (readlines (universal_newlines c)) (Z.of_nat n - 1))
    as [ol|] eqn:G;
    [|eapply ext_log; [|reflexivity]; auto].
  destruct (first_fix fixes ol) as [nl|] eqn:F;
    [|eapply ext_log; [|reflexivity]; auto].
  eapply ext_log with (evs := [Read p; Write p (Some c) _]);
    [|simpl; now rewrite <- app_assoc].
  repeat constructor; auto. apply P_write.
  exact (@field_line_differs c _ ol nl G F).
Qed.

Lemma allow_line_nonempty (l : str) : allow_line l <> [].
Proof.
  unfold allow_line. intros E. apply app_eq_nil in E. destruct E as [_ E].
  discriminate.
Qed.

Lemma ext_fix_direct_assignment (o : occurrence) (st : state) :
  ext P st (exec (fix_direct_assignment o) st).
Proof.
  destruct o as [[p n] l]. unfold exec.
  rewrite fix_direct_assignment_eq. cbn [snd]. cbv zeta.
  destruct (lookup p (files (fs st))) as [c|];
    [|eapply ext_log; [|reflexivity]; auto].
  destruct (get (readlines (universal_newlines c)) (Z.of_nat n - 1))
    as [ol|] eqn:G;
    [|eapply ext_log; [|reflexivity]; auto].
  destruct (found let_call_pattern ol
            && (contains (lit "test") p || contains (lit "utils") p));
    [|eapply ext_log; [|reflexivity]; auto].
  eapply ext_log with (evs := [Read p; Write p (Some c) _]);
    [|simpl; now rewrite <- app_assoc].
  repeat constructor; auto. apply P_write.
  apply annotated_differs.
Qed.

Lemma ext_for_each (xs : list occurrence) (body : occurrence -> M unit)
    (st : state) :
  (forall x, total (body x)) ->
  (forall x st', ext P st' (exec (body x) st')) ->
  ext P st (exec (for_each xs body) st).
Proof.
  intros T H. apply for_each_inv; auto.
  - apply ext_refl.
  - apply ext_trans.
Qed.

(** The three rewriters, each after its call and none before. *)
Lemma trace_after_rewriters (cs : categories) (st : state) :
  exists e1 e2 e3,
    trace (after_rewriters cs st)
    = trace st ++ Call FixTimestampConversions :: e1
      ++ Call FixStructFields :: e2 ++ Call FixDirectAssignments :: e3
    /\ Forall P e1 /\ Forall P e2 /\ Forall P e3.
Proof.
  unfold after_rewriters.
  set (s1 := log [Call FixTimestampConversions] st).
  destruct (@ext_for_each (timestamp_conversion cs) fix_timestamp_conversion s1
              total_fix_timestamp_conversion ext_fix_timestamp_conversion)
    as (e1 & E1 & F1).
  fold (fix_timestamp_conversions (timestamp_conversion cs)) in E1.
  set (s2 := log [Call FixStructFields] _).
  destruct (@ext_for_each (struct_field cs) fix_struct_field s2
              total_fix_struct_field ext_fix_struct_field)
    as (e2 & E2 & F2).
  fold (fix_struct_fields (struct_field cs)) in E2.
  set (s3 := log [Call FixDirectAssignments] _).
  destruct (@ext_for_each (direct_assignment cs) fix_direct_assignment s3
              total_fix_direct_assignment ext_fix_direct_assignment)
    as (e3 & E3 & F3).
  fold (fix_direct_assignments (direct_assignment cs)) in E3.
  exists e1, e2, e3. repeat split; auto.
  rewrite E3. unfold s3. simpl trace. rewrite E2. unfold s2. simpl trace.
  rewrite E1. unfold s1. simpl trace.
  rewrite <- !app_assoc. reflexivity.
Qed.

(** The injector opens the helper module for writing first; when that
    succeeds it goes on to the export file. *)
Lemma trace_after_injector (root : path) (st : state) :
  (forall old, P (Write (utils_file root) old utils_content)) ->
  exists inj,
    trace (after_injector root st) = trace st ++ inj
    /\ Forall P inj
    /\ (inj = [OpenFailed (utils_file root)]
        \/ exists old rest,
             inj = Write (utils_file root) old utils_content :: rest).
Proof.
  intros P_helper. unfold after_injector, exec.
  rewrite create_time_helper_functions_eq. cbn [snd]. cbv zeta.
  destruct (can_write (fs st) (utils_file root)).
  2:{ exists [OpenFailed (utils_file root)].
      split; [reflexivity|]. split; [auto | now left]. }
  set (w := Write (utils_file root) _ utils_content).
  assert (Pw : P w) by apply P_helper.
  set (st1 := log [w] _).
  assert (Hw : forall rest, [w] ++ rest = [OpenFailed (utils_file root)]
               \/ exists old rest',
                    [w] ++ rest
                    = Write (utils_file root) old utils_content :: rest').
  { intros rest. right. now eexists _, _. }
  destruct (exists_ (fs st1) (lib_file root)).
  2:{ exists [w]. split; [reflexivity|].
      split; [now repeat constructor | apply (Hw [])]. }
  destruct (lookup (lib_file root) (files (fs st1))) as [c|].
  2:{ exists ([w] ++ [OpenFailed (lib_file root)]). split;
        [simpl; now rewrite <- app_assoc|].
      split; [now repeat constructor | apply Hw]. }
  cbv zeta. destruct (contains registration (universal_newlines c)).
  - exists ([w] ++ [Read (lib_file root)]). split;
      [simpl; now rewrite <- app_assoc|].
    split; [now repeat constructor | apply Hw].
  - exists ([w] ++ [Read (lib_file root);
                    Write (lib_file root) (Some c)
                      (register (universal_newlines c))]).
    split; [simpl; now rewrite <- !app_assoc|].
    split; [|apply Hw].
    repeat constructor; auto. apply P_write, registered_differs.
Qed.

End Traces.

Lemma trace_after_scan (root : path) (st : state) :
  exists scan,
    trace (after_scan root st) = trace st ++ Call FindSystemtimeUsage :: scan
    /\ Forall (fun e => is_open e = true) scan
    /\ fs (after_scan root st) = fs st
    /\ fixes_applied (after_scan root st) = fixes_applied st.
Proof.
  unfold after_scan.
  set (st1 := log [Call FindSystemtimeUsage] _).
  destruct (find_systemtime_usage_eq root st1) as [_ (F & X & scan & E & H)].
  exists scan. rewrite E, F, X. unfold st1. simpl.
  rewrite <- app_assoc. auto.
Qed.

Lemma before_fixes_eq (ms : list occurrence) (st : state) :
  trace (before_fixes ms st)
  = trace st ++ [Call CategorizeUsage; Call CreateTimeHelperFunctions]
  /\ fs (before_fixes ms st) = fs st
  /\ fixes_applied (before_fixes ms st) = fixes_applied st.
Proof.
  unfold before_fixes.
  set (st1 := log [Call CategorizeUsage] _).
  pose proof (@prints_only_for_each _ all_categories
                (fun c => print_category c (categorize_usage ms))
                (fun c => prints_only_print_category c _) st1) as (out & E).
  unfold exec. rewrite E. unfold st1. simpl.
  rewrite <- app_assoc. auto.
Qed.

Lemma print_summary_eq (st : state) :
  trace (exec print_summary st) = trace st
  /\ fs (exec print_summary st) = fs st
  /\ fixes_applied (exec print_summary st) = fixes_applied st.
Proof.
  unfold exec. destruct (prints_only_print_summary st) as (out & ->).
  now simpl.
Qed.


Lemma utils_file_not_lib_file (root : path) : lib_file root <> utils_file root.
Proof.
  unfold lib_file, utils_file, join. intros E.
  apply app_inv_head in E. apply app_inv_head in E. discriminate.
Qed.

(** The events of the injector, and what it does to the export file. *)
Lemma after_injector_eq (root : path) (st : state) :
  trace (after_injector root st) = trace st ++ injector_trace root (fs st)
  /\ (can_write (fs st) (utils_file root) = true ->
      forall c, lookup (lib_file root) (files (fs st)) = Some c ->
        let t := universal_newlines c in
        lookup (lib_file root) (files (fs (after_injector root st)))
        = Some (if contains registration t then c else register t)).
Proof.
  unfold after_injector, exec, injector_trace.
  rewrite create_time_helper_functions_eq. cbn [snd]. cbv zeta.
  destruct (can_write (fs st) (utils_file root));
    [|split; [reflexivity | discriminate]].
  set (w := Write (utils_file root) _ utils_content).
  set (st1 := log [w] _).
  change (mkFs (update (utils_file root) utils_content (files (fs st)))
               (dirs (fs st))) with (fs st1).
  assert (L : lookup (lib_file root) (files (fs st1))
              = lookup (lib_file root) (files (fs st))).
  { unfold st1. simpl. apply lookup_update_other, utils_file_not_lib_file. }
  destruct (exists_ (fs st1) (lib_file root)) eqn:X.
  - destruct (lookup (lib_file root) (files (fs st1))) as [c|] eqn:E.
    + destruct (contains registration (universal_newlines c)) eqn:R.
      * split; [simpl; now rewrite <- app_assoc|].
        intros _ c' Hc. rewrite <- L in Hc. inversion Hc; subst c'.
        rewrite R. simpl. exact E.
      * split; [simpl; now rewrite <- !app_assoc|].
        intros _ c' Hc. rewrite <- L in Hc. inversion Hc; subst c'.
        rewrite R. simpl. apply lookup_update_same.
    + split; [simpl; now rewrite <- app_assoc|].
      intros _ c' Hc. congruence.
  - split; [reflexivity|]. intros _ c Hc. exfalso.
    unfold exists_, is_file in X. rewrite L, Hc in X. discriminate.
Qed.

(** *** [main] *)

Lemma main_eq (a0 root : path) (f : fsys) :
  exists_ f root = true ->
  main [a0; root] f
  = (0, match matches_of root f with
        | [] => say [lit "✅ No SystemTime::now() usage found!"]
                    (after_scan root (initial f))
        | o :: os =>
            exec print_summary
              (after_rewriters (categorize_usage (o :: os))
                 (after_injector root
                    (before_fixes (o :: os) (after_scan root (initial f)))))
        end).
Proof.
  intros E. unfold main. rewrite E. simpl negb. cbv iota.
  rewrite run_fixes_eq. rewrite matches_of_eq. reflexivity.
Qed.

Section RunTrace.
Variable P : event -> Prop.
Variable root : path.
Hypothesis P_read : forall p, P (Read p).
Hypothesis P_failed : forall p, P (OpenFailed p).
Hypothesis P_write : forall p c c', c' <> c -> P (Write p (Some c) c').
Hypothesis P_helper : forall old, P (Write (utils_file root) old utils_content).

(** The trace of a run that found occurrences. *)
Lemma run_trace (a0 : path) (f : fsys) :
  exists_ f root = true -> matches_of root f <> [] ->
  exists scan inj e1 e2 e3,
    trace (snd (main [a0; root] f))
    = Call FindSystemtimeUsage :: scan
      ++ [Call CategorizeUsage; Call CreateTimeHelperFunctions] ++ inj
      ++ Call FixTimestampConversions :: e1
      ++ Call FixStructFields :: e2 ++ Call FixDirectAssignments :: e3
    /\ Forall (fun e => is_open e = true) scan
    /\ Forall P inj /\ Forall P e1 /\ Forall P e2 /\ Forall P e3
    /\ (inj = [OpenFailed (utils_file root)]
        \/ exists old rest,
             inj = Write (utils_file root) old utils_content :: rest).
Proof.
  intros E N. rewrite main_eq by assumption. cbn [snd].
  destruct (matches_of root f) as [|o os]; [congruence|].
  destruct (print_summary_eq
              (after_rewriters (categorize_usage (o :: os))
                 (after_injector root
                    (before_fixes (o :: os) (after_scan root (initial f))))))
    as (-> & _ & _).
  destruct (@trace_after_rewriters P P_read P_failed P_write
              (categorize_usage (o :: os))
              (after_injector root
                 (before_fixes (o :: os) (after_scan root (initial f)))))
    as (e1 & e2 & e3 & -> & F1 & F2 & F3).
  destruct (@trace_after_injector P P_read P_failed P_write root
              (before_fixes (o :: os) (after_scan root (initial f)))
              P_helper)
    as (inj & -> & Fi & Hi).
  destruct (before_fixes_eq (o :: os) (after_scan root (initial f)))
    as (-> & _ & _).
  destruct (trace_after_scan root (initial f)) as (scan & -> & Fs & _ & _).
  exists scan, inj, e1, e2, e3. simpl. rewrite <- !app_assoc. simpl.
  repeat split; auto.
Qed.

End RunTrace.

End StepFacts.

(** * The properties *)

Section Properties.
Import Py Re Fs Fixer Props Examples.
Local Open Scope string_scope.
Local Open Scope nat_scope.
Local Open Scope list_scope.

(** C1.  Every occurrence handed to the classifier lands in exactly one of
    the five buckets, the one the first test that holds selects, the tests
    being tried in the order timestamp conversion, direct assignment, struct
    field, function call, other; the buckets together hold as many entries as
    there are occurrences.  A line with both [duration_since] and
    [UNIX_EPOCH] goes to the timestamp-conversion bucket and not to the
    struct-field bucket, colon or no colon. *)
Theorem C1_classifier_first_match_wins
    (matches : list occurrence) (file_path : path) (line_num : nat)
    (line : str) :
  In (file_path, line_num, line) matches ->
  let cs := categorize_usage matches in
  let o := (file_path, line_num, line) in
  (forall c, In o (bucket c cs) <-> c = classify line) /\
  length (timestamp_conversion cs) + length (direct_assignment cs)
  + length (struct_field cs) + length (function_call cs)
  + length (other cs) = length matches /\
  (classify line = TimestampConversion
     <-> has_conversion_tokens line = true) /\
  (classify line = DirectAssignment
     <-> has_conversion_tokens line = false /\ is_binding line = true) /\
  (classify line = StructField
     <-> has_conversion_tokens line = false /\ is_binding line = false /\
         has_colon_and_call line = true) /\
  (classify line = FunctionCall
     <-> has_conversion_tokens line = false /\ is_binding line = false /\
         has_colon_and_call line = false /\ has_paren_and_call line = true) /\
  (classify line = Other
     <-> has_conversion_tokens line = false /\ is_binding line = false /\
         has_colon_and_call line = false /\ has_paren_and_call line = false) /\
  (contains (lit "duration_since") line = true ->
   contains (lit "UNIX_EPOCH") line = true ->
   forall colon : bool, contains (lit ":") line = colon ->
   In o (timestamp_conversion cs) /\ ~ In o (struct_field cs)).
Proof.
  intros Hin cs o.
  assert (Hb : forall c, In o (bucket c cs) <-> c = classify line).
  { intros c. unfold cs. rewrite bucket_categorize_usage, filter_In.
    unfold in_category, o. simpl. rewrite category_eqb_eq.
    split; [intros [_ H]; now symmetry | intros ->; now split]. }
  split; [exact Hb|]. split.
  { pose proof (buckets_partition_length matches) as H.
    rewrite <- !bucket_categorize_usage in H. exact H. }
  pose proof (classify_precedence line) as (P1 & P2 & P3 & P4 & P5).
  repeat (split; [assumption|]).
  intros Hd Hu colon _.
  assert (Hc : classify line = TimestampConversion).
  { apply P1. unfold has_conversion_tokens. now rewrite Hd, Hu. }
  split.
  - apply (Hb TimestampConversion). now symmetry.
  - intros H. apply (Hb StructField) in H. congruence.
Qed.

(** C1 at a line that holds the two tokens and a colon. *)
Lemma C1_witness :
  let line := lit "ts: SystemTime::now().duration_since(UNIX_EPOCH)," in
  let o := (lit "src/a.rs", 7, line) in
  contains (lit ":") line = true
  /\ In o (timestamp_conversion (categorize_usage [o]))
  /\ ~ In o (struct_field (categorize_usage [o])).
Proof.
  intros line o. split; [reflexivity|].
  pose proof (C1_classifier_first_match_wins [o] (lit "src/a.rs") 7 line
                (or_introl eq_refl)) as H.
  cbv zeta in H. destruct H as (_ & _ & _ & _ & _ & _ & _ & H).
  exact (H eq_refl eq_refl true eq_refl).
Defined.

(** C2.  On the tree [test_tree] (a file under [tests/] with the line
    [let now = SystemTime::now();], indented by four spaces) the first run
    puts the suppression annotation right above the line, with the same
    indentation; the second run, on the tree the first run left, puts a second
    annotation above the same line instead of leaving the file as it is. *)
Theorem C2_second_run_duplicates_annotation :
  content_of (run_tree root test_tree) test_file
  = Some (text ["fn f() {";
                "    #[allow(clippy::disallowed_methods)]";
                "    let now = SystemTime::now();";
                "}"])
  /\ content_of (run_tree root (run_tree root test_tree)) test_file
     = Some (text ["fn f() {";
                   "    #[allow(clippy::disallowed_methods)]";
                   "    #[allow(clippy::disallowed_methods)]";
                   "    let now = SystemTime::now();";
                   "}"])
  /\ run_tree root (run_tree root test_tree) <> run_tree root test_tree.
Proof.
  split; [vm_compute; reflexivity|].
  split; [vm_compute; reflexivity|].
  vm_compute. discriminate.
Qed.




(** C4.  On the tree [struct_tree] one run leaves the line
    [created_at: std::time::SystemTime::now(),] as it is, while it rewrites
    the plain form of the same field and the namespaced form of the field
    [timestamp] to [current_timestamp]: the pattern for [created_at] is the only
    one of the nine without the namespace group. *)
Theorem C4_namespaced_created_at_not_rewritten :
  content_of (run_tree root struct_tree) struct_file
  = Some (text ["    created_at: std::time::SystemTime::now(),";
                "    created_at: current_timestamp,";
                "    timestamp: current_timestamp,"])
  /\ first_fix fixes (lit "created_at: std::time::SystemTime::now(),") = None
  /\ first_fix fixes (lit "created_at: SystemTime::now(),")
     = Some (lit "created_at: current_timestamp,")
  /\ first_fix fixes (lit "timestamp: std::time::SystemTime::now(),")
     = Some (lit "timestamp: current_timestamp,")
  /\ map (fun field =>
            match first_fix fixes
                    (lit field ++ lit ": std::time::SystemTime::now(),") with
            | Some _ => true
            | None => false
            end)
         ["created_at"; "timestamp"; "last_activity"; "started_at";
          "generated_at"; "recorded_at"; "exported_at"; "executed_at";
          "connected_at"]
     = [false; true; true; true; true; true; true; true; true].
Proof.
  repeat split; vm_compute; reflexivity.
Qed.




(** C6, as stated, fails.  In the export file [split_lib] the module
    declarations do not form one run: two of them, a blank line, an import,
    a third.  The registration goes after the blank line that follows the
    first two, before the import, and not after the last declaration. *)
Lemma C6_counterexample :
  register split_lib
  = text ["pub mod a;"; "pub mod b;"; EmptyString; "pub mod time_utils;";
          "use a::A;"; "pub mod c;"]
  /\ register_after_last split_lib
     = text ["pub mod a;"; "pub mod b;"; EmptyString; "use a::A;";
             "pub mod c;"; "pub mod time_utils;"]
  /\ register split_lib <> register_after_last split_lib
  /\ content_of (run_tree root lib_tree) (lib_file root)
     = Some (register split_lib).
Proof.
  split; [vm_compute; reflexivity|].
  split; [vm_compute; reflexivity|].
  split; [vm_compute; discriminate | vm_compute; reflexivity].
Qed.

(** C6, amended.  When the injector can write the helper module and the
    export file exists: an export file whose text holds the registration
    line (as a substring) is left as it is; otherwise the line is added
    once, so that the file holds it afterwards and a second pass of the
    injector leaves the file alone.  The line goes at the top when the text
    holds no module declaration; when it holds one, the line goes right
    after the leftmost match of the run pattern, that is after the first run
    of module declarations and the white space that follows it.  The text is
    the text read: the content of the file with its line ends turned into
    line feeds. *)
Theorem C6_registration_after_first_run
    (root : path) (st : state) (c : str) :
  read_text (fs st) (lib_file root) = Some c ->
  can_write (fs st) (utils_file root) = true ->
  let st' := after_injector root st in
  (contains registration c = true ->
   lookup (lib_file root) (files (fs st'))
   = lookup (lib_file root) (files (fs st)))
  /\ (contains registration c = false ->
      lookup (lib_file root) (files (fs st')) = Some (register c)
      /\ contains registration (register c) = true
      /\ (found mod_pattern c = false ->
          register c = registration ++ [LF] ++ c)
      /\ (found mod_pattern c = true ->
          exists pre run post,
            search mod_run_pattern c = Some (pre, run, post)
            /\ c = pre ++ run ++ post
            /\ register c = pre ++ run ++ registration ++ [LF] ++ post))
  /\ (can_write (fs st') (utils_file root) = true ->
      lookup (lib_file root) (files (fs (after_injector root st')))
      = lookup (lib_file root) (files (fs st'))).
Proof.
  intros L W st'. unfold read_text in L.
  destruct (lookup (lib_file root) (files (fs st))) as [c0|] eqn:L0;
    [|discriminate].
  simpl in L. inversion L; subst c. clear L.
  destruct (after_injector_eq root st) as [_ H]. specialize (H W c0 L0).
  cbv zeta in H. fold st' in H.
  split; [|split].
  - intros R. now rewrite R in H.
  - intros R. rewrite R in H. split; [exact H|].
    split; [apply register_registered|].
    split; [apply register_without_mods | apply register_with_mods].
  - intros W'. destruct (after_injector_eq root st') as [_ H'].
    rewrite (H' W' _ H), H. cbv zeta.
    destruct (contains registration (universal_newlines c0)) eqn:R;
      [now rewrite R|].
    rewrite (universal_newlines_id (register (universal_newlines c0)))
      by apply no_CR_register, universal_newlines_no_CR.
    now rewrite register_registered.
Qed.

(** C6 at the export file [split_lib]. *)
Lemma C6_witness :
  lookup (lib_file root)
         (files (fs (after_injector root (initial lib_tree))))
  = Some (register split_lib).
Proof.
  apply (proj1 (proj2 (@C6_registration_after_first_run root (initial lib_tree)
                         split_lib eq_refl eq_refl))).
  reflexivity.
Defined.

(** C7, as stated, fails.  On the tree [quiet_tree], whose root exists and
    whose crate directory exists, the matcher finds nothing; the run returns
    before the injector: the injector is not called and the helper module is
    not created. *)
Lemma C7_counterexample :
  exists_ quiet_tree root = true
  /\ can_write quiet_tree (utils_file root) = true
  /\ ~ In (Call CreateTimeHelperFunctions)
          (trace (snd (main [lit "fix_systemtime.py"; root] quiet_tree)))
  /\ content_of (run_tree root quiet_tree) (utils_file root) = None.
Proof.
  split; [reflexivity|]. split; [reflexivity|]. split; [|reflexivity].
  vm_compute. intros H.
  repeat match goal with
         | H : _ \/ _ |- _ => destruct H as [H | H]
         end; try discriminate; auto.
Qed.

(** C7, amended.  A run on an existing root in which the matcher finds no
    occurrence does not call the injector and leaves the tree as it is.  A
    run in which the matcher finds an occurrence calls the injector exactly
    once, after the scan and before the first rewriter; the first thing the
    injector does is to open the helper module for writing (it writes the
    template, or the open fails); the three rewriters follow in the order
    timestamp conversions, struct fields, direct assignments, and none of
    them calls anything else. *)
Theorem C7_injector_once_before_rewriters_when_occurrences_found
    (a0 root : path) (f : fsys) :
  exists_ f root = true ->
  let st := snd (main [a0; root] f) in
  (matches_of root f = [] ->
   ~ In (Call CreateTimeHelperFunctions) (trace st) /\ fs st = f)
  /\ (matches_of root f <> [] ->
      exists scan inj e1 e2 e3,
        trace st
        = Call FindSystemtimeUsage :: scan
          ++ [Call CategorizeUsage; Call CreateTimeHelperFunctions] ++ inj
          ++ Call FixTimestampConversions :: e1
          ++ Call FixStructFields :: e2 ++ Call FixDirectAssignments :: e3
        /\ Forall (fun e => is_call e = false) scan
        /\ Forall (fun e => is_call e = false) inj
        /\ Forall (fun e => is_call e = false) e1
        /\ Forall (fun e => is_call e = false) e2
        /\ Forall (fun e => is_call e = false) e3
        /\ (inj = [OpenFailed (utils_file root)]
            \/ exists old rest,
                 inj = Write (utils_file root) old utils_content :: rest)).
Proof.
  intros E st. split.
  - intros M. unfold st. rewrite main_eq, M by assumption. cbn [snd].
    destruct (trace_after_scan root (initial f)) as (scan & T & Fs & F & _).
    change (trace (say [lit "✅ No SystemTime::now() usage found!"]
                       (after_scan root (initial f))))
      with (trace (after_scan root (initial f))).
    change (fs (say [lit "✅ No SystemTime::now() usage found!"]
                    (after_scan root (initial f))))
      with (fs (after_scan root (initial f))).
    rewrite T, F. split; [|reflexivity].
    simpl. intros [H | H]; [discriminate|].
    rewrite Forall_forall in Fs. apply Fs in H. discriminate.
  - intros N.
    destruct (@run_trace (fun e => is_call e = false) root
                (fun _ => eq_refl) (fun _ => eq_refl)
                (fun _ _ _ _ => eq_refl) (fun _ => eq_refl) a0 f E N)
      as (scan & inj & e1 & e2 & e3 & T & Fs & Fi & F1 & F2 & F3 & Hi).
    exists scan, inj, e1, e2, e3. repeat split; auto.
    eapply Forall_impl; [|exact Fs]. now intros [].
Qed.

(** C7 at the tree [test_tree], in which the matcher finds one occurrence. *)
Lemma C7_witness :
  exists_ test_tree root = true
  /\ matches_of root test_tree <> []
  /\ In (Call CreateTimeHelperFunctions)
        (trace (snd (main [lit "fix_systemtime.py"; root] test_tree))).
Proof.
  split; [reflexivity|]. split; [vm_compute; discriminate|].
  destruct (proj2 (@C7_injector_once_before_rewriters_when_occurrences_found
                     (lit "fix_systemtime.py") root test_tree eq_refl))
    as (scan & inj & e1 & e2 & e3 & T & _).
  - vm_compute. discriminate.
  - match type of T with
    | ?l = _ => change (In (Call CreateTimeHelperFunctions) l)
    end.
    rewrite T. right. apply in_or_app. right. right. now left.
Defined.

(** C8, as stated, fails, twice.  The file [client_file] lies in no
    directory [cli]: no segment of its path is the marker.  Its name holds
    [cli], though, and that is what the rewriter looks for: a run rewrites
    the file.  And the file of [dos_tree] has CR LF line ends: a run rewrites
    its second line and, with it, the end of every other line. *)
Lemma C8_counterexample :
  has_marker_segment (lit "cli") client_file = false
  /\ contains (lit "cli") client_file = true
  /\ content_of (run_tree root client_tree) client_file
     <> content_of client_tree client_file
  /\ (exists c',
        content_of (run_tree root client_tree) client_file = Some c'
        /\ contains (lit "Ok(current_unix_timestamp())") c' = true)
  /\ lines_of dos_tree dos_file
     = [lit "Session {" ++ [CR; LF];
        lit "    timestamp: SystemTime::now()," ++ [CR; LF];
        lit "}" ++ [CR; LF]]
  /\ lines_of (run_tree root dos_tree) dos_file
     = [lit "Session {" ++ [LF];
        lit "    timestamp: current_timestamp," ++ [LF];
        lit "}" ++ [LF]].
Proof.
  split; [vm_compute; reflexivity|].
  split; [vm_compute; reflexivity|].
  split; [vm_compute; discriminate|].
  split; [eexists; split; vm_compute; reflexivity|].
  split; vm_compute; reflexivity.
Qed.

(** C8, amended.  The struct-field rewriter, on an occurrence at line [n] of
    a file, leaves every other line of the text of that file as it is and
    keeps the number of lines, where the text is the text read, with line
    feeds for line ends; the file is then as it was, or it is stored with
    line feeds only.  So in a file that holds no CR every other line is
    stored as it was.  Every other file is as it was.  The
    timestamp-conversion rewriter, whatever occurrences it is given, leaves
    every file whose path does not hold the characters [cli] as it is. *)
Theorem C8_scope_containment :
  (forall (st : state) (p : path) (n : nat) (l : str),
     1 <= n ->
     let st' := exec (fix_struct_field (p, n, l)) st in
     (forall i, i <> n - 1 ->
        nth_error (lines_read (fs st') p) i
        = nth_error (lines_read (fs st) p) i)
     /\ length (lines_read (fs st') p) = length (lines_read (fs st) p)
     /\ (lookup p (files (fs st')) = lookup p (files (fs st))
         \/ lines_of (fs st') p = lines_read (fs st') p)
     /\ ((forall c, lookup p (files (fs st)) = Some c -> ~ In CR c) ->
         (forall i, i <> n - 1 ->
            nth_error (lines_of (fs st') p) i
            = nth_error (lines_of (fs st) p) i)
         /\ length (lines_of (fs st') p) = length (lines_of (fs st) p))
     /\ (forall q, q <> p ->
           lookup q (files (fs st')) = lookup q (files (fs st)))
     /\ map fst (files (fs st')) = map fst (files (fs st)))
  /\ (forall (st : state) (matches : list occurrence) (q : path),
        contains (lit "cli") q = false ->
        lookup q (files (fs (exec (fix_timestamp_conversions matches) st)))
        = lookup q (files (fs st))).
Proof.
  split.
  - intros st p n l Hn st'.
    assert (Same : fs st' = fs st ->
      (forall i, i <> n - 1 ->
         nth_error (lines_read (fs st') p) i
         = nth_error (lines_read (fs st) p) i)
      /\ length (lines_read (fs st') p) = length (lines_read (fs st) p)
      /\ (lookup p (files (fs st')) = lookup p (files (fs st))
          \/ lines_of (fs st') p = lines_read (fs st') p)
      /\ ((forall c, lookup p (files (fs st)) = Some c -> ~ In CR c) ->
          (forall i, i <> n - 1 ->
             nth_error (lines_of (fs st') p) i
             = nth_error (lines_of (fs st) p) i)
          /\ length (lines_of (fs st') p) = length (lines_of (fs st) p))
      /\ (forall q, q <> p ->
            lookup q (files (fs st')) = lookup q (files (fs st)))
      /\ map fst (files (fs st')) = map fst (files (fs st)))
      by (intros ->; auto 8).
    revert Same. unfold st', exec.
    rewrite fix_struct_field_eq. cbn [snd]. cbv zeta.
    destruct (lookup p (files (fs st))) as [c|] eqn:L;
      [|intros Same; now apply Same].
    set (t := universal_newlines c).
    destruct (get_line_number (readlines t) Hn) as [G S]. rewrite G.
    destruct (nth_error (readlines t) (n - 1)) as [ol|] eqn:N;
      [|intros Same; now apply Same].
    destruct (first_fix fixes ol) as [nl|] eqn:F;
      [|intros Same; now apply Same].
    intros _.
    pose proof (@no_CR_field_line c (Z.of_nat n - 1) ol nl) as Clean.
    cbv zeta in Clean. fold t in Clean.
    specialize (Clean G F). rewrite S in Clean |- *.
    set (c' := joinlines (set_nth (readlines t) (n - 1) nl)) in *.
    assert (R : readlines c' = set_nth (readlines t) (n - 1) nl).
    { apply readlines_joinlines.
      apply wf_lines_set with (ol := ol); [apply readlines_wf | exact N | |].
      - intros (body & Hl).
        destruct (@first_fix_shape ol nl F body [LF] Hl) as (body' & Hl' & _).
        now exists body'.
      - intros [Hlf Hne].
        destruct (@first_fix_shape ol nl F ol [])
          as (body' & (E & Hb & _) & Hn').
        { split; [now rewrite app_nil_r | auto]. }
        rewrite app_nil_r in E. subst nl. auto. }
    assert (Rd : lines_read
                   (fs (note (lit "Struct field in " ++ name p ++ lit ":"
                              ++ str_of_nat n)
                          (log [Write p (Some c) c']
                             (store p c' (log [Read p] st))))) p
                 = set_nth (readlines t) (n - 1) nl).
    { unfold lines_read, read_text. simpl. rewrite lookup_update_same.
      simpl. now rewrite (universal_newlines_id _ Clean). }
    assert (Ro : lines_of
                   (fs (note (lit "Struct field in " ++ name p ++ lit ":"
                              ++ str_of_nat n)
                          (log [Write p (Some c) c']
                             (store p c' (log [Read p] st))))) p
                 = set_nth (readlines t) (n - 1) nl).
    { unfold lines_of. simpl. now rewrite lookup_update_same. }
    assert (Rb : lines_read (fs st) p = readlines t).
    { unfold lines_read, read_text. now rewrite L. }
    rewrite Rd, Ro, Rb.
    split; [intros i Hi; now apply set_nth_other|].
    split; [apply set_nth_length|].
    split; [now right|].
    split.
    { intros Hc. unfold lines_of. rewrite L.
      replace (readlines c) with (readlines t)
        by (unfold t; now rewrite (universal_newlines_id _ (Hc c eq_refl))).
      split; [intros i Hi; now apply set_nth_other | apply set_nth_length]. }
    split; [intros q Hq; simpl; now apply lookup_update_other|].
    simpl. eapply update_keeps_names; eauto.
  - intros st matches q Hq. unfold fix_timestamp_conversions.
    apply (for_each_inv
             (fun a b => lookup q (files (fs b)) = lookup q (files (fs a)))).
    + reflexivity.
    + intros a b c E1 E2. congruence.
    + apply total_fix_timestamp_conversion.
    + intros [[p n] l] st0 _.
      destruct (list_eq_dec ascii_dec p q) as [-> | N];
        [|now apply fix_timestamp_conversion_other].
      unfold exec. rewrite fix_timestamp_conversion_eq. cbn [snd].
      destruct (lookup q (files (fs st0))) as [c|] eqn:L;
        [|simpl; now rewrite L].
      cbv zeta. unfold convert_content. rewrite Hq.
      rewrite eqb_str_refl. simpl. now rewrite L.
Qed.

(** C8 at the second line of [struct_tree], and at [clock_file], whose path
    does not hold [cli] and whose text holds an import and a chain. *)
Lemma C8_witness :
  (forall i, i <> 1 ->
     nth_error (lines_read (fs (exec (fix_struct_field (struct_file, 2, []))
                                     (initial struct_tree))) struct_file) i
     = nth_error (lines_read struct_tree struct_file) i)
  /\ lookup clock_file
       (files (fs (exec (fix_timestamp_conversions [(clock_file, 3, [])])
                        (initial clock_tree))))
     = Some (text stamp_lines).
Proof.
  split.
  - apply (proj1 (proj1 C8_scope_containment (initial struct_tree)
                    struct_file 2 [] (le_S _ _ (le_n 1)))).
  - apply (proj2 C8_scope_containment (initial clock_tree)
             [(clock_file, 3, [])] clock_file).
    reflexivity.
Defined.

(** C9.  [main] exits with code 1, prints the usage line and does nothing
    else when [sys.argv] does not hold exactly the script name and one
    argument; it exits with code 1, prints the error line and opens no file
    when the root does not exist; otherwise it exits with code 0.  When the
    matcher finds nothing (in particular when no file of the tree has the
    extension) it exits with code 0, applies no fix and leaves the tree as it
    is, no file created. *)
Theorem C9_exit_codes (argv : list str) (f : fsys) :
  let code := fst (main argv f) in
  let st := snd (main argv f) in
  (length argv <> 2 ->
   code = 1
   /\ stdout st = [lit "Usage: python3 fix_systemtime.py <project_root>"]
   /\ trace st = [] /\ fs st = f /\ fixes_applied st = [])
  /\ (forall a0 root, argv = [a0; root] -> exists_ f root = false ->
      code = 1
      /\ stdout st = [lit "Error: Project root '" ++ root
                      ++ lit "' does not exist"]
      /\ trace st = [] /\ fs st = f /\ fixes_applied st = [])
  /\ (forall a0 root, argv = [a0; root] -> exists_ f root = true ->
      code = 0)
  /\ (forall a0 root, argv = [a0; root] -> exists_ f root = true ->
      rglob_rs f root = [] \/ matches_of root f = [] ->
      code = 0 /\ fixes_applied st = [] /\ fs st = f).
Proof.
  intros code st. unfold code, st. split; [|split; [|split]].
  - intros L. destruct argv as [|a0 [|root [|x rest]]]; simpl in L;
      try congruence; simpl; auto.
  - intros a0 root -> E. unfold main. rewrite E. simpl. auto.
  - intros a0 root -> E. now rewrite main_eq.
  - intros a0 root -> E H.
    assert (M : matches_of root f = []).
    { destruct H as [H | H]; [|exact H].
      rewrite matches_of_eq, H. reflexivity. }
    rewrite main_eq, M by assumption. cbn [fst snd].
    destruct (trace_after_scan root (initial f)) as (scan & _ & _ & F & X).
    split; [reflexivity|]. split; [exact X | exact F].
Qed.

(** C9 at a call without argument, at a root that does not exist and at a
    tree without any file. *)
Lemma C9_witness :
  fst (main [lit "fix_systemtime.py"] (mkFs [] [root])) = 1
  /\ fst (main [lit "fix_systemtime.py"; lit "nowhere"] (mkFs [] [root])) = 1
  /\ (fst (main [lit "fix_systemtime.py"; root] (mkFs [] [root])) = 0
      /\ fixes_applied (snd (main [lit "fix_systemtime.py"; root]
                                  (mkFs [] [root]))) = []
      /\ fs (snd (main [lit "fix_systemtime.py"; root] (mkFs [] [root])))
         = mkFs [] [root]).
Proof.
  split; [|split].
  - apply (proj1 (C9_exit_codes [lit "fix_systemtime.py"] (mkFs [] [root]))).
    simpl. lia.
  - apply (proj1 (proj2 (C9_exit_codes [lit "fix_systemtime.py"; lit "nowhere"]
                           (mkFs [] [root])))
             (lit "fix_systemtime.py") (lit "nowhere") eq_refl eq_refl).
  - apply (proj2 (proj2 (proj2 (C9_exit_codes [lit "fix_systemtime.py"; root]
                                  (mkFs [] [root]))))
             (lit "fix_systemtime.py") root eq_refl eq_refl).
    left. reflexivity.
Defined.

(** C10.  For a file whose path holds [cli] and whose text holds no
    [use ], the loop of the rewriter, when it meets an occurrence in the
    file, injects nothing and applies the three substitutions: the file then
    reads as its text with the substitutions applied (and is stored as it
    was when they change nothing).  Every chain of the text has become its
    helper call, so that a text with a chain is changed and holds a call of
    [current_unix_timestamp]; no chain is left; the text still holds no
    [use ]; and it holds no definition of the helper when it held none
    before and no function header named by the call, out of which a
    substitution would make one. *)
Theorem C10_no_import_no_helper
    (st : state) (ms : list occurrence) (p : path) (n : nat) (l c : str) :
  contains (lit "cli") p = true ->
  lookup p (files (fs st)) = Some c ->
  let t := universal_newlines c in
  contains (lit "use ") t = false ->
  In (p, n, l) ms ->
  let st' := exec (fix_timestamp_conversions ms) st in
  inject_helper t = t
  /\ lookup p (files (fs st'))
     = Some (if eqb_str (convert_chains t) t then c else convert_chains t)
  /\ read_text (fs st') p = Some (convert_chains t)
  /\ (forall namespaced tail a b,
        In tail tails -> t = a ++ chain_text namespaced tail ++ b ->
        convert_chains t
        = convert_chains a ++ helper_call tail ++ convert_chains b
        /\ lookup p (files (fs st')) = Some (convert_chains t)
        /\ convert_chains t <> t
        /\ contains (lit "current_unix_timestamp()") (convert_chains t)
           = true)
  /\ (forall namespaced tail a b,
        In tail tails ->
        convert_chains t <> a ++ chain_text namespaced tail ++ b)
  /\ contains (lit "use ") (convert_chains t) = false
  /\ (contains helper_signature t = false ->
      contains (lit "fn SystemTime::now()") t = false ->
      contains helper_signature (convert_chains t) = false).
Proof.
  intros Hp L t Hu Hin st'.
  assert (I : inject_helper t = t) by now apply inject_helper_without_use.
  assert (K : lookup p (files (fs st'))
              = Some (if eqb_str (convert_chains t) t then c
                      else convert_chains t)).
  { pose proof (@fix_timestamp_conversions_content ms p n l c st L Hin) as K.
    cbv zeta in K. fold t in K. unfold convert_content in K.
    now rewrite Hp, I in K. }
  split; [exact I|]. split; [exact K|].
  split; [|split; [|split; [|split]]].
  - unfold read_text. rewrite K. simpl.
    destruct (eqb_str (convert_chains t) t) eqn:E.
    + apply eqb_str_true in E. fold t. now rewrite E.
    + now rewrite universal_newlines_id
        by apply no_CR_convert_chains, universal_newlines_no_CR.
  - intros namespaced tail a b Ht E.
    assert (D : convert_chains t <> t)
      by (rewrite E; now apply convert_chains_changes).
    split; [rewrite E; now apply convert_chains_app|].
    split; [|split; [exact D|]].
    + rewrite K. apply eqb_str_false in D. now rewrite D.
    + rewrite E, (convert_chains_app _ _ _ Ht).
      apply contains_app_r, contains_app_l.
      now destruct Ht as [<- | [<- | [<- | []]]].
  - intros namespaced tail a b Ht E.
    pose proof (@convert_chains_settled t tail Ht) as F. rewrite E in F.
    pose proof (F a (chain_text namespaced tail ++ b) eq_refl) as M.
    rewrite chain_match in M. discriminate.
  - now apply convert_chains_no_use.
  - apply convert_chains_no_signature.
Qed.

(** C10 at the file of [cli_tree]: the call site becomes a call of
    [current_unix_timestamp] and the file holds no definition of it. *)
Lemma C10_witness :
  lookup cli_file
    (files (fs (exec (fix_timestamp_conversions [(cli_file, 2, [])])
                     (initial cli_tree))))
  = Some (text ["fn now() -> Result<u64> {";
                "    Ok(current_unix_timestamp())";
                "}"])
  /\ contains helper_signature
       (convert_chains
          (text ["fn now() -> Result<u64> {";
                 "    Ok(SystemTime::now().duration_since(UNIX_EPOCH)?.as_secs())";
                 "}"])) = false.
Proof.
  pose proof (@C10_no_import_no_helper (initial cli_tree)
                [(cli_file, 2, [])] cli_file 2 []
                (text ["fn now() -> Result<u64> {";
                       "    Ok(SystemTime::now().duration_since(UNIX_EPOCH)?.as_secs())";
                       "}"])
                eq_refl eq_refl eq_refl (or_introl eq_refl)) as H.
  split.
  - refine (eq_trans (proj1 (proj2 H)) _). vm_compute. reflexivity.
  - apply (proj2 (proj2 (proj2 (proj2 (proj2 (proj2 H)))))); reflexivity.
Defined.

End Properties.

(** * Further properties of the script *)

(** ** The matcher *)

Section ScanFacts.
Import Py Re ReLang Fs Fixer Props More.
Local Open Scope string_scope.
Local Open Scope nat_scope.
Local Open Scope list_scope.

(** The pattern of the matcher finds the lines that hold the call, with or
    without namespace before it. *)
Lemma usage_pattern_found (line : str) :
  found usage_pattern line = contains call_token line.
Proof.
  destruct (contains call_token line) eqn:C.
  - destruct (contains_true _ _ C) as (a & b & ->).
    apply found_iff. exists a, (call_token ++ b). split; [reflexivity|].
    unfold match_here, usage_pattern. cbn [rmatch].
    change (strip_prefix (lit "std::time::") (call_token ++ b)) with (@None str).
    fold call_token. rewrite strip_prefix_app. discriminate.
  - destruct (found usage_pattern line) eqn:F; [|reflexivity].
    destruct (found_true _ _ F) as (pre & m & post & S).
    destruct (search_some _ _ S) as (-> & L & _).
    unfold usage_pattern in L.
    apply lang_cat_inv in L. destruct L as (ns & t & -> & _ & L).
    apply lang_lit_inv in L. subst t. fold call_token in C.
    rewrite <- app_assoc, app_assoc in C.
    now rewrite contains_app in C.
Qed.

Lemma scan_lines_in (p q : path) (k n : nat) (l : str) (lines : list str) :
  In (q, n, l) (scan_lines p k lines) <->
  q = p /\ k <= n
  /\ exists line, nth_error lines (n - k) = Some line
                  /\ contains call_token line = true /\ l = strip line.
Proof.
  revert k; induction lines as [|x lines IH]; intros k; simpl.
  - split; [intros [] | intros (_ & _ & line & H & _)].
    destruct (n - k); discriminate.
  - rewrite in_app_iff, IH, usage_pattern_found. split.
    + intros [H | (-> & Hk & line & Hn & Hc & ->)].
      * destruct (contains call_token x) eqn:C; [|destruct H].
        destruct H as [H | []]. inversion H; subst.
        split; [reflexivity|]. split; [lia|]. exists x.
        rewrite Nat.sub_diag. auto.
      * split; [reflexivity|]. split; [lia|]. exists line.
        replace (n - k) with (S (n - S k)) by lia. auto.
    + intros (-> & Hk & line & Hn & Hc & ->).
      destruct (Nat.eq_dec n k) as [-> | Ne].
      * left. rewrite Nat.sub_diag in Hn. simpl in Hn. inversion Hn; subst.
        rewrite Hc. now left.
      * right. split; [reflexivity|]. split; [lia|]. exists line.
        replace (n - k) with (S (n - S k)) in Hn by lia. auto.
Qed.

Lemma lookup_in_names (p : path) (l : list (path * str)) :
  In p (map fst l) <-> exists c, lookup p l = Some c.
Proof.
  induction l as [|[q d] l IH]; simpl.
  - split; [intros [] | intros (c & H); discriminate].
  - destruct (eqb_str p q) eqn:E.
    + apply eqb_str_true in E. subst q. split; [now exists d | now left].
    + apply eqb_str_false in E. rewrite IH. split.
      * intros [H | H]; [congruence | exact H].
      * intros H. now right.
Qed.

Lemma is_file_in_names (f : fsys) (p : path) :
  In p (map fst (files f)) <-> is_file f p = true.
Proof.
  rewrite lookup_in_names. unfold is_file.
  destruct (lookup p (files f)) as [c|].
  - split; [reflexivity | now exists c].
  - split; [intros (c & H); discriminate | discriminate].
Qed.

Lemma ancestors_from_in (before p d : path) :
  In d (ancestors_from before p) <->
  exists x y, p = x ++ "/"%char :: y /\ d = before ++ x.
Proof.
  revert before; induction p as [|a p IH]; intros before; simpl.
  - split; [intros [] | intros (x & y & E & _)]. now destruct x.
  - rewrite in_app_iff, IH. split.
    + intros [H | (x & y & -> & ->)].
      * destruct (Ascii.eqb a "/"%char) eqn:E; [|destruct H].
        destruct H as [<- | []]. apply Ascii.eqb_eq in E. subst a.
        exists [], p. now rewrite app_nil_r.
      * exists (a :: x), y. now rewrite <- app_assoc.
    + intros ([|b x] & y & E & ->); simpl in E; inversion E; subst.
      * left. rewrite Ascii.eqb_refl, app_nil_r. now left.
      * right. exists x, y. now rewrite <- app_assoc.
Qed.

Lemma ancestors_in (p d : path) :
  In d (ancestors p) <-> starts_with (d ++ lit "/") p = true.
Proof.
  unfold ancestors. rewrite ancestors_from_in. split.
  - intros (x & y & -> & ->). simpl.
    change (x ++ "/"%char :: y) with (x ++ lit "/" ++ y).
    rewrite app_assoc. apply starts_with_app.
  - intros H. destruct (starts_with_true _ _ H) as (r & ->).
    exists d, r. now rewrite <- app_assoc.
Qed.

(** The directories of the tree are the paths [is_dir] accepts. *)
Lemma directories_in (f : fsys) (d : path) :
  In d (directories f) <-> is_dir f d = true.
Proof.
  unfold directories, is_dir.
  rewrite nodup_In, in_app_iff, orb_true_iff, !existsb_exists, in_flat_map.
  split.
  - intros [H | (q & Hq & H)].
    + left. exists d. split; [exact H | apply eqb_str_refl].
    + right. apply in_map_iff in Hq. destruct Hq as ([q' c] & <- & Hq).
      exists (q', c). split; [exact Hq | now apply ancestors_in].
  - intros [(x & Hx & E) | ([q c] & Hq & H)].
    + left. apply eqb_str_true in E. now subst x.
    + right. exists q. split; [|now apply ancestors_in].
      apply in_map_iff. now exists (q, c).
Qed.

(** The walk yields the paths in scope that exist. *)
Lemma rglob_rs_in (f : fsys) (root p : path) :
  In p (rglob_rs f root) <->
  in_scope root p = true /\ exists_ f p = true.
Proof.
  unfold rglob_rs, in_scope, under, exists_.
  rewrite filter_In, in_app_iff, filter_In, is_file_in_names, directories_in.
  destruct (is_file f p), (is_dir f p); simpl; intuition discriminate.
Qed.

Lemma lines_read_some (f : fsys) (p : path) (k : nat) (line : str) :
  nth_error (lines_read f p) k = Some line -> is_file f p = true.
Proof.
  unfold lines_read, read_text, is_file.
  destruct (lookup p (files f)); [reflexivity|]. now destruct k.
Qed.

Lemma scan_tree_in (f : fsys) (ps : list path) (o : occurrence) :
  In o (scan_tree f ps) <->
  exists p, In p ps /\ In o (scan_lines p 1 (lines_read f p)).
Proof. unfold scan_tree. now rewrite in_flat_map. Qed.

Lemma say_log (out : list str) (evs : list event) (st : state) :
  say out (log evs st) = log evs (say out st).
Proof. reflexivity. Qed.

(** The scan opens every path of the walk once, in walk order, and warns
    for each one that is no regular file; nothing else happens. *)
Lemma scan_files_opens (ps : list path) (st : state) :
  scan_files ps st
  = (Val (scan_tree (fs st) ps),
     say (map (warning (fs st)) (unreadable (fs st) ps))
         (log (map (open_event (fs st)) ps) st)).
Proof.
  revert st; induction ps as [|p ps IH]; intros st; simpl.
  - now rewrite log_nil, say_nil.
  - unfold bind. rewrite scan_file_eq.
    unfold open_event at 1, lines_read, read_text, is_file.
    destruct (lookup p (files (fs st))) as [c|] eqn:L.
    + rewrite IH. unfold ret, log, say.
      cbn [fs fixes_applied stdout trace negb option_map].
      now rewrite <- app_assoc.
    + rewrite IH. unfold ret, log, say, warning.
      cbn [fs fixes_applied stdout trace negb option_map map].
      now rewrite <- !app_assoc.
Qed.

(** *** Stripping keeps the call *)

Lemma lstrip_keeps (tok s : str) :
  match tok with [] => False | t :: _ => is_space t = false end ->
  contains tok s = true -> contains tok (lstrip s) = true.
Proof.
  intros Ht C. destruct (contains_true _ _ C) as (a & b & ->). clear C.
  induction a as [|c a IH]; simpl.
  - destruct tok as [|t tok]; [destruct Ht|]. simpl. rewrite Ht.
    apply (contains_app (t :: tok) [] b).
  - destruct (is_space c); [exact IH|].
    apply (contains_app tok (c :: a) b).
Qed.

Lemma contains_rev (tok s : str) :
  contains tok s = true -> contains (rev tok) (rev s) = true.
Proof.
  intros C. destruct (contains_true _ _ C) as (a & b & ->).
  rewrite !rev_app_distr, <- app_assoc. apply contains_app.
Qed.

Lemma strip_keeps_call (line : str) :
  contains call_token line = true ->
  contains call_token (strip line) = true.
Proof.
  intros C. unfold strip, rstrip.
  rewrite <- (rev_involutive call_token). apply contains_rev.
  apply lstrip_keeps; [reflexivity|].
  apply contains_rev. apply lstrip_keeps; [reflexivity | exact C].
Qed.

Lemma call_has_colon (l : str) :
  contains call_token l = true -> contains (lit ":") l = true.
Proof.
  intros C. destruct (contains_true _ _ C) as (a & b & ->).
  change call_token with (lit "SystemTime" ++ lit ":" ++ lit ":now()").
  rewrite <- !app_assoc, app_assoc. apply contains_app.
Qed.

(** The stripped line of an occurrence holds the call. *)
Lemma matches_hold_call (root : path) (f : fsys) (p : path) (n : nat)
    (l : str) :
  In (p, n, l) (matches_of root f) -> contains call_token l = true.
Proof.
  rewrite matches_of_eq, scan_tree_in. intros (q & _ & H).
  apply scan_lines_in in H. destruct H as (_ & _ & line & _ & C & ->).
  now apply strip_keeps_call.
Qed.

End ScanFacts.

Section MatcherProperties.
Import Py Re ReLang Fs Fixer Props Examples More.
Local Open Scope string_scope.
Local Open Scope nat_scope.
Local Open Scope list_scope.

(** X1.  The matcher reports an occurrence exactly for the lines that hold
    [SystemTime::now()], namespaced or not, in the [.rs] files below the
    project root: the file, the number of the line counted from 1, and the
    line stripped of the white space around it.  The lines are those of the
    text read, with line feeds for line ends. *)
Theorem X1_matcher_reports_the_lines_with_the_call
    (root : path) (f : fsys) (p : path) (n : nat) (l : str) :
  In (p, n, l) (matches_of root f) <->
  in_scope root p = true /\ 1 <= n
  /\ exists line, nth_error (lines_read f p) (n - 1) = Some line
                  /\ contains call_token line = true /\ l = strip line.
Proof.
  rewrite matches_of_eq, scan_tree_in. split.
  - intros (q & Hq & H). apply scan_lines_in in H.
    destruct H as (-> & Hn & line & Hl & Hc & ->).
    apply rglob_rs_in in Hq. destruct Hq as [S _].
    split; [exact S|]. split; [exact Hn|]. now exists line.
  - intros (S & Hn & line & Hl & Hc & ->).
    exists p. split.
    + apply rglob_rs_in. split; [exact S|]. unfold exists_.
      now rewrite (lines_read_some _ _ _ Hl).
    + apply scan_lines_in.
      split; [reflexivity|]. split; [exact Hn|]. now exists line.
Qed.

(** X1 at the second line of the file of [test_tree]. *)
Lemma X1_witness :
  In (test_file, 2, lit "let now = SystemTime::now();")
     (matches_of root test_tree).
Proof.
  apply (proj2 (X1_matcher_reports_the_lines_with_the_call root test_tree
                  test_file 2 (lit "let now = SystemTime::now();"))).
  split; [reflexivity|]. split; [lia|].
  exists (lit "    let now = SystemTime::now();" ++ [LF]).
  repeat split; reflexivity.
Defined.

(** X2.  The matcher writes nothing: it opens for reading the paths below
    the root whose name ends in [.rs], each once and in the order of the
    walk, and prints a warning for each one it cannot open; the tree and the
    list of fixes stay as they are.  The paths of the walk are those in
    scope that exist, and one that is no regular file is a directory, for
    which the warning carries the error of [open] on a directory. *)
Theorem X2_matcher_only_reads (root : path) (st : state) :
  exec (find_systemtime_usage root) st
  = say (map (warning (fs st)) (unreadable (fs st) (rglob_rs (fs st) root)))
        (log (map (open_event (fs st)) (rglob_rs (fs st) root)) st)
  /\ (forall p, In p (rglob_rs (fs st) root) <->
        in_scope root p = true /\ exists_ (fs st) p = true)
  /\ (forall p, In p (unreadable (fs st) (rglob_rs (fs st) root)) ->
        is_dir (fs st) p = true
        /\ warning (fs st) p
           = lit "Warning: Could not read " ++ p
             ++ lit ": [Errno 21] Is a directory: '" ++ p ++ lit "'").
Proof.
  split; [|split].
  - unfold exec, find_systemtime_usage. now rewrite scan_files_opens.
  - intros p. apply rglob_rs_in.
  - intros p Hp. unfold unreadable in Hp. apply filter_In in Hp.
    destruct Hp as [Hp F]. apply rglob_rs_in in Hp.
    destruct Hp as [_ E]. unfold exists_ in E.
    destruct (is_file (fs st) p); [discriminate|]. simpl in E.
    split; [exact E|]. unfold warning, open_error. rewrite E.
    cbn [exn_str]. reflexivity.
Qed.

(** X2 at the tree [gen_tree], where [proj/gen.rs] is a directory. *)
Lemma X2_witness :
  is_dir gen_tree gen_dir = true
  /\ warning gen_tree gen_dir
     = lit "Warning: Could not read " ++ gen_dir
       ++ lit ": [Errno 21] Is a directory: '" ++ gen_dir ++ lit "'".
Proof.
  apply (proj2 (proj2 (X2_matcher_only_reads root (initial gen_tree)))
           gen_dir).
  vm_compute. left. reflexivity.
Defined.

(** X3.  In a run the buckets [function_call] and [other] stay empty: a line
    the matcher reports holds the call, the call holds a colon, and so the
    test for a struct field holds whenever the two tests before it fail. *)
Theorem X3_function_call_and_other_buckets_stay_empty
    (root : path) (f : fsys) :
  function_call (categorize_usage (matches_of root f)) = []
  /\ other (categorize_usage (matches_of root f)) = []
  /\ forall p n l, In (p, n, l) (matches_of root f) ->
       classify l = TimestampConversion \/ classify l = DirectAssignment
       \/ classify l = StructField.
Proof.
  assert (K : forall p n l, In (p, n, l) (matches_of root f) ->
            classify l = TimestampConversion \/ classify l = DirectAssignment
            \/ classify l = StructField).
  { intros p n l H. apply matches_hold_call in H.
    pose proof (call_has_colon _ H) as C'.
    unfold call_token in H. unfold classify. rewrite H, C'.
    destruct (contains (lit "duration_since") l
              && contains (lit "UNIX_EPOCH") l); [now left|].
    destruct (found let_pattern l); auto. }
  assert (E : forall c, c = FunctionCall \/ c = Other ->
            bucket c (categorize_usage (matches_of root f)) = []).
  { intros c Hc. rewrite bucket_categorize_usage.
    induction (matches_of root f) as [|[[p n] l] ms IH]; [reflexivity|].
    simpl. rewrite IH by (intros; apply (K p0 n0 l0); now right).
    unfold in_category. simpl.
    destruct (K p n l (or_introl eq_refl)) as [H | [H | H]]; rewrite H;
      destruct Hc as [-> | ->]; reflexivity. }
  split; [apply (E FunctionCall); now left|].
  split; [apply (E Other); now right | exact K].
Qed.

(** X3 at the occurrence of [test_tree]. *)
Lemma X3_witness :
  classify (lit "let now = SystemTime::now();") = TimestampConversion
  \/ classify (lit "let now = SystemTime::now();") = DirectAssignment
  \/ classify (lit "let now = SystemTime::now();") = StructField.
Proof.
  apply (proj2 (proj2 (X3_function_call_and_other_buckets_stay_empty
                         root test_tree)) test_file 2).
  vm_compute. now left.
Defined.

End MatcherProperties.

(** ** The rewriters *)

Section RewriterFacts.
Import Py Re ReLang Fs Fixer Props More.
Local Open Scope string_scope.
Local Open Scope nat_scope.
Local Open Scope list_scope.

(** *** Inserting a line *)

Lemma wf_lines_cons (l : str) (ls : list str) :
  ls <> [] -> terminated l -> wf_lines ls -> wf_lines (l :: ls).
Proof. intros N T W. destruct ls; [congruence|]. simpl. auto. Qed.

Lemma wf_lines_insert (ls : list str) (k : nat) (x : str) :
  wf_lines ls -> k < length ls -> terminated x ->
  wf_lines (firstn k ls ++ x :: skipn k ls).
Proof.
  intros W L T. revert k W L.
  induction ls as [|l ls IH]; intros k W L; simpl in L; [lia|].
  destruct k as [|k]; simpl firstn; simpl skipn.
  - apply wf_lines_cons; [discriminate | exact T | exact W].
  - destruct ls as [|l' ls]; [simpl in L; lia|].
    destruct W as [Tl W].
    change ((l :: firstn k (l' :: ls)) ++ x :: skipn k (l' :: ls))
      with (l :: (firstn k (l' :: ls) ++ x :: skipn k (l' :: ls))).
    apply wf_lines_cons; [|exact Tl | apply IH; [exact W | simpl in *; lia]].
    intros E. apply app_eq_nil in E. destruct E as [_ E]. discriminate.
Qed.

Lemma insert_at_line {A} (ls : list A) (n : nat) (x : A) :
  1 <= n -> n - 1 <= length ls ->
  insert ls (Z.of_nat n - 1) x = firstn (n - 1) ls ++ x :: skipn (n - 1) ls.
Proof.
  intros H L. unfold insert, clip.
  assert (E : (Z.of_nat n - 1 <? 0)%Z = false) by (apply Z.ltb_ge; lia).
  rewrite E. replace (Z.to_nat (Z.of_nat n - 1)) with (n - 1) by lia.
  now rewrite Nat.min_l by exact L.
Qed.

Lemma spaces_no_LF (k : nat) : ~ In LF (spaces k).
Proof.
  unfold spaces. intros H. apply repeat_spec in H. discriminate.
Qed.

Lemma allow_line_terminated (ol : str) : terminated (allow_line ol).
Proof.
  exists (spaces (length ol - length (lstrip ol)) ++ allow_attribute).
  unfold allow_line, line_of. split; [now rewrite <- app_assoc|].
  split; [|now right]. intros H. apply in_app_or in H. destruct H as [H | H].
  - now apply spaces_no_LF in H.
  - revert H. apply no_LF. reflexivity.
Qed.

(** What [lstrip] removes is white space, and it removes all of it. *)
Lemma lstrip_split (s : str) :
  exists ws, s = ws ++ lstrip s
             /\ Forall (fun a => is_space a = true) ws
             /\ length ws = indent_of s
             /\ match lstrip s with
                | [] => True
                | a :: _ => is_space a = false
                end.
Proof.
  unfold indent_of. induction s as [|c s IH].
  - exists []. repeat split; constructor.
  - cbn [lstrip]. destruct (is_space c) eqn:E.
    + destruct IH as (ws & Hs & Hw & Hl & Hh). exists (c :: ws).
      split; [cbn [app]; now rewrite <- Hs|]. split; [now constructor|].
      split; [|exact Hh].
      assert (B : length (lstrip s) <= length s).
      { apply (f_equal (@length ascii)) in Hs. rewrite length_app in Hs. lia. }
      cbn [length]. lia.
    + exists []. split; [reflexivity|]. split; [constructor|].
      split; [cbn [length]; lia | exact E].
Qed.

(** *** Lines the struct-field rewriter leaves alone *)

Lemma field_found_holds_call (field : string) (namespaced : bool) (s : str) :
  found (field_pattern field namespaced) s = true ->
  contains call_token s = true.
Proof.
  intros F. destruct (found_true _ _ F) as (pre & m & post & S).
  destruct (search_some _ _ S) as (-> & L & _).
  destruct (field_lang L) as (ws & ns & comma & -> & _).
  fold call_token.
  replace (pre ++ ((lit field ++ lit ":") ++ ws ++ ns ++ call_token ++ comma)
               ++ post)
    with ((pre ++ (lit field ++ lit ":") ++ ws ++ ns) ++ call_token
          ++ (comma ++ post))
    by (now rewrite <- !app_assoc).
  apply contains_app.
Qed.

Lemma first_fix_entry (table : list (regex * str)) (ol nl : str) :
  first_fix table ol = Some nl ->
  exists r repl, In (r, repl) table /\ found r ol = true
                 /\ nl = sub r repl ol.
Proof.
  induction table as [|[r repl] table IH]; simpl; [discriminate|].
  destruct (found r ol) eqn:F.
  - intros E. inversion E; subst. exists r, repl. auto.
  - intros E. destruct (IH E) as (r' & repl' & H & H').
    exists r', repl'. auto.
Qed.

(** Every entry of [fixes] names one of the nine fields. *)
Lemma fixes_fields :
  forall r repl, In (r, repl) fixes ->
    exists field namespaced,
      In field field_names
      /\ r = field_pattern field namespaced
      /\ repl = lit field ++ lit ": current_timestamp,".
Proof.
  intros r repl H. unfold fixes in H. simpl in H.
  repeat (destruct H as [H | H];
          [inversion H; subst; eexists _, _;
           split; [|split; reflexivity]; simpl; tauto|]).
  destruct H.
Qed.

Lemma first_fix_needs_call (ol : str) :
  contains call_token ol = false -> first_fix fixes ol = None.
Proof.
  intros C. destruct (first_fix fixes ol) as [nl|] eqn:F; [|reflexivity].
  destruct (@first_fix_entry fixes ol nl F) as (r & repl & H & Hf & _).
  destruct (@fixes_fields r repl H) as (field & ns & _ & -> & _).
  apply field_found_holds_call in Hf. congruence.
Qed.

(** *** Content without a chain head *)

Lemma chain_not_found (tail : string) (c : str) :
  contains chain_head c = false -> found (chain tail) c = false.
Proof.
  intros C. destruct (found (chain tail) c) eqn:F; [|reflexivity].
  apply found_iff in F. destruct F as (a & b & -> & M).
  destruct (starts_with chain_head b) eqn:S.
  - destruct (starts_with_true _ _ S) as (r & ->).
    now rewrite contains_app in C.
  - now rewrite chain_needs_head in M.
Qed.

Lemma convert_chains_no_head (c : str) :
  contains chain_head c = false -> convert_chains c = c.
Proof.
  intros C. unfold convert_chains, sub, millis_try_pattern,
    secs_try_pattern, millis_unwrap_pattern.
  rewrite (@sub_go_not_found (chain ")?.as_millis() as u64"))
    by (now apply chain_not_found).
  rewrite (@sub_go_not_found (chain ")?.as_secs()"))
    by (now apply chain_not_found).
  now rewrite sub_go_not_found by (now apply chain_not_found).
Qed.

End RewriterFacts.

Section RewriterProperties.
Import Py Re ReLang Fs Fixer Props Examples More.
Local Open Scope string_scope.
Local Open Scope nat_scope.
Local Open Scope list_scope.

(** X4.  What the direct-assignment rewriter does at line [n] of a file
    whose path holds [test] or [utils], when that line of the text read is a
    binding of the call: the file is stored as the lines read with one line
    more, the annotation, right above the line; the annotation starts with
    as many spaces as the line starts with white-space characters; the line
    itself and every other line are the lines read, so that their line ends
    are line feeds, and in a file that holds no CR they are stored as they
    were; every other file is as before. *)
Theorem X4_annotation_goes_right_above_the_binding
    (st : state) (p : path) (n : nat) (l t ol : str) :
  1 <= n ->
  read_text (fs st) p = Some t ->
  nth_error (readlines t) (n - 1) = Some ol ->
  found let_call_pattern ol = true ->
  contains (lit "test") p || contains (lit "utils") p = true ->
  let st' := exec (fix_direct_assignment (p, n, l)) st in
  lines_of (fs st') p
  = firstn (n - 1) (readlines t)
    ++ (spaces (indent_of ol) ++ allow_attribute ++ [LF])
    :: ol :: skipn n (readlines t)
  /\ (exists ws, ol = ws ++ lstrip ol
                 /\ Forall (fun a => is_space a = true) ws
                 /\ length ws = indent_of ol)
  /\ (forall c, lookup p (files (fs st)) = Some c -> ~ In CR c ->
        readlines t = lines_of (fs st) p)
  /\ (forall q, q <> p ->
        lookup q (files (fs st')) = lookup q (files (fs st))).
Proof.
  intros Hn L N F M st'. destruct (read_text_some _ _ L) as (c & Lc & ->).
  unfold st', exec.
  rewrite fix_direct_assignment_eq. cbn [snd]. cbv zeta. rewrite Lc.
  set (t := universal_newlines c) in *.
  destruct (get_line_number (readlines t) Hn) as [G _]. rewrite G, N, F, M.
  cbn [andb].
  assert (B : n - 1 < length (readlines t))
    by (apply nth_error_Some; congruence).
  rewrite insert_at_line by (try lia; assumption).
  split; [|split; [|split]].
  - unfold lines_of. simpl. rewrite lookup_update_same.
    rewrite readlines_joinlines
      by (apply wf_lines_insert;
          [apply readlines_wf | exact B | apply allow_line_terminated]).
    unfold allow_line, indent_of. do 2 f_equal.
    rewrite <- (firstn_skipn (n - 1) (readlines t)) in N.
    rewrite nth_error_app2 in N by (rewrite length_firstn; lia).
    rewrite length_firstn, Nat.min_l, Nat.sub_diag in N by lia.
    replace n with (S (n - 1)) at 2 by lia.
    rewrite <- (skipn_skipn 1 (n - 1)).
    destruct (skipn (n - 1) (readlines t)) as [|x xs]; [discriminate|].
    simpl in N. inversion N; subst. reflexivity.
  - destruct (lstrip_split ol) as (ws & H1 & H2 & H3 & _). now exists ws.
  - intros c' Lc' Hc. inversion Lc'; subst c'. unfold lines_of.
    rewrite Lc. unfold t. now rewrite universal_newlines_id.
  - intros q Hq. simpl. now apply lookup_update_other.
Qed.

(** X4 at the binding in [test_tree]. *)
Lemma X4_witness :
  lines_of (fs (exec (fix_direct_assignment (test_file, 2, []))
                     (initial test_tree))) test_file
  = [lit "fn f() {" ++ [LF];
     spaces 4 ++ allow_attribute ++ [LF];
     lit "    let now = SystemTime::now();" ++ [LF];
     lit "}" ++ [LF]].
Proof.
  refine (proj1 (@X4_annotation_goes_right_above_the_binding
                   (initial test_tree) test_file 2 []
                   (text ["fn f() {"; "    let now = SystemTime::now();"; "}"])
                   (lit "    let now = SystemTime::now();" ++ [LF])
                   _ eq_refl eq_refl eq_refl eq_refl)).
  lia.
Defined.

(** X5.  The direct-assignment rewriter, whatever occurrences it is given,
    leaves every file whose path holds neither [test] nor [utils] as it
    is. *)
Theorem X5_bindings_outside_tests_and_utils_are_left_alone
    (st : state) (matches : list occurrence) (q : path) :
  contains (lit "test") q = false ->
  contains (lit "utils") q = false ->
  lookup q (files (fs (exec (fix_direct_assignments matches) st)))
  = lookup q (files (fs st)).
Proof.
  intros Ht Hu. unfold fix_direct_assignments.
  apply (for_each_inv
           (fun a b => lookup q (files (fs b)) = lookup q (files (fs a)))).
  - reflexivity.
  - intros a b c E1 E2. congruence.
  - apply total_fix_direct_assignment.
  - intros [[p n] l] st0 _. unfold exec.
    rewrite fix_direct_assignment_eq. cbn [snd]. cbv zeta.
    destruct (lookup p (files (fs st0))) as [c|]; [|reflexivity].
    destruct (get (readlines (universal_newlines c)) (Z.of_nat n - 1))
      as [ol|]; [|reflexivity].
    destruct (found let_call_pattern ol); [|reflexivity].
    destruct (contains (lit "test") p || contains (lit "utils") p) eqn:M;
      [|reflexivity].
    simpl. apply lookup_update_other. intros ->.
    rewrite Ht, Hu in M. discriminate.
Qed.

(** X5 at a binding in a file under [src/]. *)
Lemma X5_witness :
  lookup (lit "proj/src/clock.rs")
    (files (fs (exec (fix_direct_assignments
                        [(lit "proj/src/clock.rs", 1, [])])
                     (initial (mkFs [(lit "proj/src/clock.rs",
                                      text ["let now = SystemTime::now();"])]
                                    [])))))
  = Some (text ["let now = SystemTime::now();"]).
Proof.
  apply (@X5_bindings_outside_tests_and_utils_are_left_alone
           (initial (mkFs [(lit "proj/src/clock.rs",
                            text ["let now = SystemTime::now();"])] []))
           [(lit "proj/src/clock.rs", 1, [])] (lit "proj/src/clock.rs"));
    reflexivity.
Defined.

(** X6.  The struct-field rewriter does nothing to a file when the line it
    is sent to, in the text read, does not hold the call: it reads the file,
    writes nothing and records no fix.  So a line rewritten before is not
    matched again. *)
Theorem X6_line_without_call_is_not_rewritten
    (st : state) (p : path) (n : nat) (l t ol : str) :
  read_text (fs st) p = Some t ->
  get (readlines t) (Z.of_nat n - 1) = Some ol ->
  contains call_token ol = false ->
  exec (fix_struct_field (p, n, l)) st = log [Read p] st.
Proof.
  intros L G C. destruct (read_text_some _ _ L) as (c & Lc & ->).
  unfold exec. rewrite fix_struct_field_eq. cbn [snd]. cbv zeta.
  now rewrite Lc, G, (first_fix_needs_call _ C).
Qed.

(** X6 at a line the rewriter has rewritten. *)
Lemma X6_witness :
  exec (fix_struct_field (struct_file, 1, []))
       (initial (mkFs [(struct_file,
                        text ["    created_at: current_timestamp,"])] []))
  = log [Read struct_file]
        (initial (mkFs [(struct_file,
                         text ["    created_at: current_timestamp,"])] [])).
Proof.
  apply (@X6_line_without_call_is_not_rewritten
           (initial (mkFs [(struct_file,
                            text ["    created_at: current_timestamp,"])] []))
           struct_file 1 [] (text ["    created_at: current_timestamp,"])
           (lit "    created_at: current_timestamp," ++ [LF]));
    reflexivity.
Defined.

(** X7.  When the struct-field rewriter rewrites a line, the text before the
    leftmost initializer of the first field found is kept, and that
    initializer (the field name, a colon, white space, the call with or
    without namespace, and a comma or none) becomes the field name followed
    by [: current_timestamp,]: the comma is there whether the initializer had
    one or not. *)
Theorem X7_rewritten_initializer_always_ends_in_a_comma (ol nl : str) :
  first_fix fixes ol = Some nl ->
  exists field namespaced pre m post,
    In field field_names
    /\ search (field_pattern field namespaced) ol = Some (pre, m, post)
    /\ ol = pre ++ m ++ post
    /\ (exists ws ns comma,
          m = (lit field ++ lit ":") ++ ws ++ ns ++ call_token ++ comma
          /\ Forall (fun a => is_space a = true) ws
          /\ (ns = [] \/ ns = lit "std::time::")
          /\ (comma = [] \/ comma = lit ","))
    /\ nl = pre ++ (lit field ++ lit ": current_timestamp,")
            ++ sub (field_pattern field namespaced)
                   (lit field ++ lit ": current_timestamp,") post.
Proof.
  intros F.
  destruct (@first_fix_entry fixes ol nl F) as (r & repl & H & Hf & ->).
  destruct (@fixes_fields r repl H) as (field & ns & Hin & -> & ->).
  destruct (found_true _ _ Hf) as (pre & m & post & S).
  destruct (search_some _ _ S) as (E & L & M).
  exists field, ns, pre, m, post.
  split; [exact Hin|]. split; [exact S|]. split; [exact E|].
  split; [exact (field_lang L)|].
  unfold sub. rewrite sub_go_search with (pre := pre) (m := m) (post := post);
    [|discriminate | exact S].
  rewrite sub_go_match;
    [reflexivity | discriminate | exact M | apply (field_match_shape L)].
Qed.

(** X7 at an initializer without comma. *)
Lemma X7_witness :
  exists field namespaced pre m post,
    In field field_names
    /\ search (field_pattern field namespaced)
              (lit "S { timestamp: SystemTime::now() }")
       = Some (pre, m, post)
    /\ lit "S { timestamp: SystemTime::now() }" = pre ++ m ++ post
    /\ (exists ws ns comma,
          m = (lit field ++ lit ":") ++ ws ++ ns ++ call_token ++ comma
          /\ Forall (fun a => is_space a = true) ws
          /\ (ns = [] \/ ns = lit "std::time::")
          /\ (comma = [] \/ comma = lit ","))
    /\ lit "S { timestamp: current_timestamp, }"
       = pre ++ (lit field ++ lit ": current_timestamp,")
         ++ sub (field_pattern field namespaced)
                (lit field ++ lit ": current_timestamp,") post.
Proof.
  apply (@X7_rewritten_initializer_always_ends_in_a_comma
           (lit "S { timestamp: SystemTime::now() }")
           (lit "S { timestamp: current_timestamp, }")).
  reflexivity.
Defined.

(** X8.  The timestamp-conversion rewriter writes nothing and records no fix
    for a file whose text, as read, holds no chain head
    [SystemTime::now().duration_since(], when the path does not hold [cli],
    or the text holds the helper definition already, or the text holds no
    [use ]. *)
Theorem X8_no_chain_head_no_write
    (st : state) (p : path) (n : nat) (l c : str) :
  read_text (fs st) p = Some c ->
  contains chain_head c = false ->
  contains (lit "cli") p = false
  \/ contains helper_signature c = true
  \/ contains (lit "use ") c = false ->
  exec (fix_timestamp_conversion (p, n, l)) st = log [Read p] st.
Proof.
  intros L C H. destruct (read_text_some _ _ L) as (c0 & L0 & Ec).
  unfold exec. rewrite fix_timestamp_conversion_eq. cbn [snd].
  rewrite L0. cbv zeta. rewrite <- Ec.
  assert (E : convert_content p c = c).
  { unfold convert_content. destruct (contains (lit "cli") p); [|reflexivity].
    assert (I : inject_helper c = c).
    { unfold inject_helper. destruct H as [H | [H | H]];
        [discriminate | now rewrite H |].
      rewrite (rfind_none _ _ H).
      now destruct (negb (contains helper_signature c)). }
    rewrite I. now apply convert_chains_no_head. }
  now rewrite E, eqb_str_refl.
Qed.

(** X8 at the file a run has left of [cli_tree]. *)
Lemma X8_witness :
  exec (fix_timestamp_conversion (cli_file, 2, []))
       (initial (run_tree root cli_tree))
  = log [Read cli_file] (initial (run_tree root cli_tree)).
Proof.
  apply (@X8_no_chain_head_no_write (initial (run_tree root cli_tree))
           cli_file 2 []
           (text ["fn now() -> Result<u64> {";
                  "    Ok(current_unix_timestamp())"; "}"])).
  - vm_compute. reflexivity.
  - reflexivity.
  - right. right. reflexivity.
Defined.

(** X9.  Where the helper goes.  In a content without helper definition
    whose last [use ] starts at [import_end]: when a line feed follows, at
    distance [j], the content up to that line feed is kept, then come a line
    feed and the helper, then the rest from that line feed on; when no line
    feed follows (the import is the last line and is not closed), the helper
    goes in before the last character of the content, which splits the
    import. *)
Theorem X9_helper_position (c : str) (import_end : nat) :
  contains helper_signature c = false ->
  rfind (lit "use ") c = Some import_end ->
  (forall j, find [LF] (skipn import_end c) = Some j ->
     inject_helper c
     = firstn (import_end + j) c ++ [LF] ++ helper_function
       ++ skipn (import_end + j) c
     /\ nth_error c (import_end + j) = Some LF)
  /\ (find [LF] (skipn import_end c) = None ->
      inject_helper c
      = firstn (length c - 1) c ++ [LF] ++ helper_function
        ++ skipn (length c - 1) c).
Proof.
  intros S R. unfold inject_helper. rewrite S, R. simpl negb. cbv iota.
  unfold find_from. split.
  - intros j F. rewrite F. unfold slice_to, slice_from, clip.
    assert (E : (Z.of_nat (import_end + j) <? 0)%Z = false)
      by (apply Z.ltb_ge; lia).
    rewrite E, Nat2Z.id.
    destruct (find_some _ _ F) as (a & b & Hs & La).
    assert (Hc : c = firstn import_end c ++ a ++ [LF] ++ b).
    { rewrite <- Hs. symmetry. apply firstn_skipn. }
    assert (Le : import_end <= length c).
    { destruct (Nat.le_gt_cases import_end (length c)) as [Le | Gt]; [exact Le|].
      rewrite skipn_all2 in Hs by lia.
      destruct a; discriminate. }
    assert (Li : length (firstn import_end c) = import_end)
      by (rewrite length_firstn; now apply Nat.min_l).
    assert (B : import_end + j < length c).
    { rewrite Hc, !length_app, Li, La. simpl. lia. }
    rewrite Nat.min_l by lia. split; [reflexivity|].
    rewrite Hc, app_assoc.
    rewrite nth_error_app2 by (rewrite length_app, Li, La; lia).
    rewrite length_app, Li, La, Nat.sub_diag. reflexivity.
  - intros F. rewrite F. unfold slice_to, slice_from, clip. simpl Z.ltb.
    cbv iota. replace (Z.to_nat (Z.of_nat (length c) + -1)) with (length c - 1)
      by lia.
    reflexivity.
Qed.

(** X9 at a content that is one import without line feed. *)
Lemma X9_witness :
  inject_helper (lit "use a::B;")
  = lit "use a::B" ++ [LF] ++ helper_function ++ lit ";".
Proof.
  apply (proj2 (@X9_helper_position (lit "use a::B;") 0 eq_refl eq_refl)).
  reflexivity.
Defined.

End RewriterProperties.

(** ** The tree across a run *)

Section TreeFacts.
Import Py Re ReLang Fs Fixer Props More.
Local Open Scope string_scope.
Local Open Scope nat_scope.
Local Open Scope list_scope.

Lemma update_same (p : path) (c : str) (l : list (path * str)) :
  lookup p l = Some c -> update p c l = l.
Proof.
  induction l as [|[q d] l IH]; simpl; [discriminate|].
  destruct (eqb_str p q) eqn:E.
  - intros H. inversion H; subst. reflexivity.
  - intros H. now rewrite IH.
Qed.

Lemma update_new_name (p : path) (c : str) (l : list (path * str)) :
  lookup p l = None -> map fst (update p c l) = map fst l ++ [p].
Proof.
  induction l as [|[q d] l IH]; simpl; [reflexivity|].
  destruct (eqb_str p q); [discriminate|]. intros H. simpl. now rewrite IH.
Qed.

Lemma fsys_eta (f : fsys) : mkFs (files f) (dirs f) = f.
Proof. now destruct f. Qed.

Lemma fix_timestamp_conversion_fs (p : path) (n : nat) (l : str) (st : state) :
  rewrites_own_file p (fs st)
    (fs (exec (fix_timestamp_conversion (p, n, l)) st)).
Proof.
  unfold exec. rewrite fix_timestamp_conversion_eq. cbn [snd].
  destruct (lookup p (files (fs st))) as [c|] eqn:L; [|now left].
  cbv zeta.
  destruct (eqb_str (convert_content p (universal_newlines c))
                    (universal_newlines c)); [now left|].
  right. now eexists c, _.
Qed.

Lemma fix_struct_field_fs (p : path) (n : nat) (l : str) (st : state) :
  rewrites_own_file p (fs st) (fs (exec (fix_struct_field (p, n, l)) st)).
Proof.
  unfold exec. rewrite fix_struct_field_eq. cbn [snd]. cbv zeta.
  destruct (lookup p (files (fs st))) as [c|] eqn:L; [|now left].
  destruct (get (readlines (universal_newlines c)) (Z.of_nat n - 1))
    as [ol|]; [|now left].
  destruct (first_fix fixes ol) as [nl|]; [|now left].
  right. now eexists c, _.
Qed.

Lemma fix_direct_assignment_fs (p : path) (n : nat) (l : str) (st : state) :
  rewrites_own_file p (fs st) (fs (exec (fix_direct_assignment (p, n, l)) st)).
Proof.
  unfold exec. rewrite fix_direct_assignment_eq. cbn [snd]. cbv zeta.
  destruct (lookup p (files (fs st))) as [c|] eqn:L; [|now left].
  destruct (get (readlines (universal_newlines c)) (Z.of_nat n - 1))
    as [ol|]; [|now left].
  destruct (found let_call_pattern ol
            && (contains (lit "test") p || contains (lit "utils") p));
    [|now left].
  right. now eexists c, _.
Qed.

Lemma after_injector_fs (root : path) (st : state) :
  fs (after_injector root st) = injector_fs root (fs st).
Proof.
  unfold after_injector, exec, injector_fs.
  rewrite create_time_helper_functions_eq. cbn [snd]. cbv zeta.
  destruct (can_write (fs st) (utils_file root)); [|reflexivity].
  set (w := Write (utils_file root) _ utils_content).
  set (st1 := log [w] _).
  change (mkFs (update (utils_file root) utils_content (files (fs st)))
               (dirs (fs st))) with (fs st1).
  destruct (exists_ (fs st1) (lib_file root)); [|reflexivity].
  unfold read_text.
  destruct (lookup (lib_file root) (files (fs st1))) as [c|]; [|reflexivity].
  cbn [option_map].
  now destruct (contains registration (universal_newlines c)).
Qed.

(** A relation on trees that every step of a run keeps holds between the
    tree given and the tree left. *)
Lemma run_fs_inv (R : fsys -> fsys -> Prop) (a0 root : path) (f : fsys) :
  (forall x, R x x) ->
  (forall x y z, R x y -> R y z -> R x z) ->
  (forall x, R x (injector_fs root x)) ->
  (forall p n l x y, In (p, n, l) (matches_of root f) ->
     rewrites_own_file p x y -> R x y) ->
  R f (fs (snd (main [a0; root] f))).
Proof.
  intros Hrefl Htrans Hinj Hstep.
  destruct (exists_ f root) eqn:E;
    [|unfold main; rewrite E; simpl; apply Hrefl].
  rewrite main_eq by assumption. cbn [snd].
  destruct (trace_after_scan root (initial f)) as (scan & _ & _ & F0 & _).
  change (fs (initial f)) with f in F0.
  destruct (matches_of root f) as [|o os] eqn:Hm.
  { change (fs (say [lit "✅ No SystemTime::now() usage found!"]
                    (after_scan root (initial f))))
      with (fs (after_scan root (initial f))).
    rewrite F0. apply Hrefl. }
  set (ms := o :: os) in *.
  destruct (print_summary_eq
              (after_rewriters (categorize_usage ms)
                 (after_injector root
                    (before_fixes ms (after_scan root (initial f))))))
    as (_ & -> & _).
  destruct (before_fixes_eq ms (after_scan root (initial f))) as (_ & F1 & _).
  assert (Hb : forall c q n l,
             In (q, n, l) (bucket c (categorize_usage ms)) ->
             In (q, n, l) ms).
  { intros c q n l H. rewrite bucket_categorize_usage in H.
    now apply filter_In in H. }
  assert (Hloop : forall (body : occurrence -> M unit) c st,
             (forall x, total (body x)) ->
             (forall q n l s, rewrites_own_file q (fs s)
                                (fs (exec (body (q, n, l)) s))) ->
             R (fs st) (fs (exec (for_each (bucket c (categorize_usage ms))
                                           body) st))).
  { intros body c st T Hs.
    apply (for_each_inv (fun a b => R (fs a) (fs b))); auto.
    - intros a b d; apply Htrans.
    - intros [[q n] l] s Hin. eapply Hstep; [eapply Hb; exact Hin | apply Hs]. }
  unfold after_rewriters.
  eapply Htrans; [|apply (Hloop fix_direct_assignment DirectAssignment);
                   [apply total_fix_direct_assignment
                   | intros; apply fix_direct_assignment_fs]].
  cbn [fs log].
  eapply Htrans; [|apply (Hloop fix_struct_field StructField);
                   [apply total_fix_struct_field
                   | intros; apply fix_struct_field_fs]].
  cbn [fs log].
  eapply Htrans; [|apply (Hloop fix_timestamp_conversion TimestampConversion);
                   [apply total_fix_timestamp_conversion
                   | intros; apply fix_timestamp_conversion_fs]].
  cbn [fs log]. rewrite after_injector_fs, F1, F0. apply Hinj.
Qed.

Lemma matches_in_scope (root : path) (f : fsys) (p : path) (n : nat)
    (l : str) :
  In (p, n, l) (matches_of root f) -> in_scope root p = true.
Proof.
  rewrite matches_of_eq, scan_tree_in. intros (q & Hq & H).
  apply scan_lines_in in H. destruct H as (-> & _).
  now apply rglob_rs_in in Hq.
Qed.

Lemma ends_with_app (suffix x : str) : ends_with suffix (x ++ suffix) = true.
Proof. unfold ends_with. rewrite rev_app_distr. apply starts_with_app. Qed.

Lemma in_scope_utils_file (root : path) : in_scope root (utils_file root) = true.
Proof.
  unfold in_scope, under, utils_file, utils_dir, join.
  rewrite <- !app_assoc, (app_assoc root), starts_with_app. cbn [andb].
  change (lit "time_utils.rs") with (lit "time_utils" ++ lit ".rs").
  rewrite !app_assoc. apply ends_with_app.
Qed.

Lemma in_scope_lib_file (root : path) : in_scope root (lib_file root) = true.
Proof.
  unfold in_scope, under, lib_file, utils_dir, join.
  rewrite <- !app_assoc, (app_assoc root), starts_with_app. cbn [andb].
  change (lit "lib.rs") with (lit "lib" ++ lit ".rs").
  rewrite !app_assoc. apply ends_with_app.
Qed.

Lemma can_write_existing (f : fsys) (p : path) (c : str) :
  lookup p (files f) = Some c -> can_write f p = true.
Proof. unfold can_write, is_file. now intros ->. Qed.

Lemma exists_existing (f : fsys) (p : path) (c : str) :
  lookup p (files f) = Some c -> exists_ f p = true.
Proof. unfold exists_, is_file. now intros ->. Qed.

(** The injector changes nothing on the tree it has left. *)
Lemma injector_fs_idempotent (root : path) (f : fsys) :
  injector_fs root (injector_fs root f) = injector_fs root f.
Proof.
  assert (K : forall g,
             lookup (utils_file root) (files g) = Some utils_content ->
             (exists_ g (lib_file root) = false
              \/ read_text g (lib_file root) = None
              \/ exists t, read_text g (lib_file root) = Some t
                           /\ contains registration t = true) ->
             injector_fs root g = g).
  { intros g U H. unfold injector_fs.
    rewrite (can_write_existing _ _ U), (update_same _ _ U), fsys_eta.
    destruct H as [H | [H | (t & H & R)]].
    - now rewrite H.
    - rewrite H. now destruct (exists_ g (lib_file root)).
    - rewrite H, R. now destruct (exists_ g (lib_file root)). }
  destruct (can_write f (utils_file root)) eqn:W.
  2:{ assert (E : injector_fs root f = f)
        by (unfold injector_fs; now rewrite W).
      rewrite E. exact E. }
  set (f1 := mkFs (update (utils_file root) utils_content (files f)) (dirs f)).
  assert (U1 : lookup (utils_file root) (files f1) = Some utils_content)
    by apply lookup_update_same.
  assert (U2 : forall c, lookup (utils_file root)
                           (update (lib_file root) c (files f1))
                         = Some utils_content).
  { intros c. rewrite lookup_update_other; [exact U1|].
    intros E. symmetry in E. now apply utils_file_not_lib_file in E. }
  apply K; unfold injector_fs; rewrite W; fold f1.
  - destruct (exists_ f1 (lib_file root)); [|exact U1].
    destruct (read_text f1 (lib_file root)) as [t|]; [|exact U1].
    destruct (contains registration t); [exact U1 | apply U2].
  - destruct (exists_ f1 (lib_file root)) eqn:X; [|now left].
    destruct (read_text f1 (lib_file root)) as [t|] eqn:L;
      [|right; now left].
    right. right.
    destruct (contains registration t) eqn:R.
    + now exists t.
    + exists (register t). unfold read_text. simpl.
      rewrite lookup_update_same. cbn [option_map].
      destruct (read_text_some _ _ L) as (c & _ & ->).
      rewrite universal_newlines_id
        by apply no_CR_register, universal_newlines_no_CR.
      split; [reflexivity | apply register_registered].
Qed.

End TreeFacts.

Section TreeProperties.
Import Py Re ReLang Fs Fixer Props Examples More.
Local Open Scope string_scope.
Local Open Scope nat_scope.
Local Open Scope list_scope.

(** X10.  A run deletes no file, moves none and creates none but the helper
    module: the files of the tree it leaves are the files of the tree it was
    given, in the same order, followed by the helper module when that did not
    exist and was created; the directories are the same. *)
Theorem X10_run_creates_only_the_helper_module (a0 root : path) (f : fsys) :
  let f' := fs (snd (main [a0; root] f)) in
  dirs f' = dirs f
  /\ (map fst (files f') = map fst (files f)
      \/ (lookup (utils_file root) (files f) = None
          /\ map fst (files f') = map fst (files f) ++ [utils_file root])).
Proof.
  set (R := fun x y : fsys =>
              dirs y = dirs x
              /\ (map fst (files y) = map fst (files x)
                  \/ (lookup (utils_file root) (files x) = None
                      /\ map fst (files y)
                         = map fst (files x) ++ [utils_file root]))).
  assert (Hold : forall x p c c',
             lookup p (files x) = Some c ->
             R x (mkFs (update p c' (files x)) (dirs x))).
  { intros x p c c' L. split; [reflexivity|]. left. simpl.
    eapply update_keeps_names; eauto. }
  apply (@run_fs_inv R a0 root f).
  - intros x. split; auto.
  - intros x y z [D1 N1] [D2 N2]. split; [congruence|].
    destruct N1 as [N1 | [U1 N1]], N2 as [N2 | [U2 N2]].
    + left. congruence.
    + right. split; [|congruence].
      destruct (lookup (utils_file root) (files x)) as [c|] eqn:L;
        [|reflexivity].
      assert (H : In (utils_file root) (map fst (files y))).
      { rewrite N1. apply lookup_in_names. now exists c. }
      apply lookup_in_names in H. destruct H as (d & H). congruence.
    + right. split; [exact U1 | congruence].
    + exfalso.
      assert (H : In (utils_file root) (map fst (files y))).
      { rewrite N1. apply in_or_app. right. now left. }
      apply lookup_in_names in H. destruct H as (d & H). congruence.
  - intros x. unfold injector_fs.
    destruct (can_write x (utils_file root)); [|split; auto].
    set (x1 := mkFs (update (utils_file root) utils_content (files x))
                    (dirs x)).
    assert (R1 : R x x1).
    { split; [reflexivity|]. simpl.
      destruct (lookup (utils_file root) (files x)) as [c|] eqn:L.
      - left. eapply update_keeps_names; eauto.
      - right. split; [reflexivity | now apply update_new_name]. }
    destruct (exists_ x1 (lib_file root)); [|exact R1].
    destruct (read_text x1 (lib_file root)) as [t|] eqn:Lt; [|exact R1].
    destruct (read_text_some _ _ Lt) as (c & L & _).
    destruct (contains registration t); [exact R1|].
    destruct R1 as [D1 N1]. destruct (Hold x1 _ _ (register t) L) as [D2 N2].
    split; [congruence|].
    destruct N2 as [N2 | [_ N2]].
    + destruct N1 as [N1 | [U1 N1]]; [left | right; split; auto]; congruence.
    + exfalso. apply (f_equal (@length path)) in N2.
      simpl in N2. rewrite length_app in N2.
      erewrite update_keeps_names in N2 by eauto. simpl in N2. lia.
  - intros p n l x y _ [-> | (c & c' & L & ->)]; [split; auto|].
    eapply Hold; eauto.
Qed.

(** X11.  A run leaves as it is every file that is not a [.rs] file below
    the project root. *)
Theorem X11_files_out_of_scope_are_untouched
    (a0 root : path) (f : fsys) (q : path) :
  in_scope root q = false ->
  lookup q (files (fs (snd (main [a0; root] f)))) = lookup q (files f).
Proof.
  intros Hq.
  apply (@run_fs_inv
           (fun x y => lookup q (files y) = lookup q (files x)) a0 root f).
  - reflexivity.
  - intros x y z E1 E2. congruence.
  - intros x.
    assert (Nu : q <> utils_file root)
      by (intros ->; rewrite in_scope_utils_file in Hq; discriminate).
    assert (Nl : q <> lib_file root)
      by (intros ->; rewrite in_scope_lib_file in Hq; discriminate).
    unfold injector_fs.
    destruct (can_write x (utils_file root)); [|reflexivity].
    set (x1 := mkFs (update (utils_file root) utils_content (files x))
                    (dirs x)).
    assert (E1 : lookup q (files x1) = lookup q (files x))
      by (apply lookup_update_other; exact Nu).
    destruct (exists_ x1 (lib_file root)); [|exact E1].
    destruct (read_text x1 (lib_file root)) as [t|]; [|exact E1].
    destruct (contains registration t); [exact E1|].
    simpl. rewrite lookup_update_other by exact Nl. exact E1.
  - intros p n l x y Hin [-> | (c & c' & L & ->)]; [reflexivity|].
    simpl. apply lookup_update_other. intros ->.
    apply matches_in_scope in Hin. congruence.
Qed.

(** X11 at a text file that holds the call, beside the file of
    [test_tree]. *)
Lemma X11_witness :
  lookup (lit "proj/tests/notes.txt")
    (files (fs (snd (main [lit "fix_systemtime.py"; root]
                       (mkFs ((lit "proj/tests/notes.txt",
                               lit "let now = SystemTime::now();")
                              :: files test_tree) [])))))
  = Some (lit "let now = SystemTime::now();").
Proof.
  apply (@X11_files_out_of_scope_are_untouched (lit "fix_systemtime.py") root
           (mkFs ((lit "proj/tests/notes.txt",
                   lit "let now = SystemTime::now();")
                  :: files test_tree) [])
           (lit "proj/tests/notes.txt")).
  reflexivity.
Defined.

(** X12.  The injector is idempotent on the tree: a second pass right after
    a first leaves every file as the first left it.  After a pass that could
    open the helper module, the helper module holds the template. *)
Theorem X12_injector_is_idempotent (root : path) (st : state) :
  fs (after_injector root (after_injector root st))
  = fs (after_injector root st)
  /\ (can_write (fs st) (utils_file root) = true ->
      lookup (utils_file root) (files (fs (after_injector root st)))
      = Some utils_content).
Proof.
  rewrite !after_injector_fs. split; [apply injector_fs_idempotent|].
  intros W. unfold injector_fs. rewrite W.
  set (f1 := mkFs (update (utils_file root) utils_content (files (fs st)))
                  (dirs (fs st))).
  assert (U1 : lookup (utils_file root) (files f1) = Some utils_content)
    by apply lookup_update_same.
  destruct (exists_ f1 (lib_file root)); [|exact U1].
  destruct (read_text f1 (lib_file root)) as [t|]; [|exact U1].
  destruct (contains registration t); [exact U1|].
  simpl. rewrite lookup_update_other; [exact U1|].
  intros E. symmetry in E. now apply utils_file_not_lib_file in E.
Qed.

(** X12 at the tree [lib_tree]. *)
Lemma X12_witness :
  lookup (utils_file root)
         (files (fs (after_injector root (initial lib_tree))))
  = Some utils_content.
Proof.
  apply (proj2 (X12_injector_is_idempotent root (initial lib_tree))).
  reflexivity.
Defined.

End TreeProperties.


Section ReportFacts.
Import Py Re ReLang Fs Fixer Props More.
Local Open Scope string_scope.
Local Open Scope nat_scope.
Local Open Scope list_scope.

Lemma count_writes_app (a b : list event) :
  count_writes (a ++ b) = count_writes a + count_writes b.
Proof. unfold count_writes. now rewrite filter_app, length_app. Qed.

Lemma count_writes_open (evs : list event) :
  Forall (fun e => is_open e = true) evs -> count_writes evs = 0.
Proof.
  induction 1 as [|e evs He _ IH]; [reflexivity|].
  change (e :: evs) with ([e] ++ evs). rewrite count_writes_app, IH.
  now destruct e.
Qed.

Lemma accounted_refl (a : state) : accounted 0 a a.
Proof. exists [], []. rewrite !app_nil_r. simpl. auto. Qed.

Lemma accounted_trans (s1 s2 : nat) (a b c : state) :
  accounted s1 a b -> accounted s2 b c -> accounted (s1 + s2) a c.
Proof.
  intros (e1 & f1 & T1 & F1 & L1 & U1) (e2 & f2 & T2 & F2 & L2 & U2).
  exists (e1 ++ e2), (f1 ++ f2).
  rewrite T2, T1, F2, F1, <- !app_assoc, count_writes_app, length_app.
  repeat split; lia.
Qed.

Lemma accounted_quiet (a b : state) (evs : list event) :
  trace b = trace a ++ evs -> fixes_applied b = fixes_applied a ->
  count_writes evs = 0 -> accounted 0 a b.
Proof.
  intros T F C. exists evs, []. rewrite app_nil_r, C. simpl. auto.
Qed.

Lemma accounted_fix (a b : state) (evs : list event) (s : str) :
  trace b = trace a ++ evs -> fixes_applied b = fixes_applied a ++ [s] ->
  count_writes evs = 1 -> accounted 0 a b.
Proof. intros T F C. exists evs, [s]. rewrite C. simpl. auto. Qed.

Lemma accounted_fix_timestamp_conversion (o : occurrence) (st : state) :
  accounted 0 st (exec (fix_timestamp_conversion o) st).
Proof.
  destruct o as [[p n] l]. unfold exec.
  rewrite fix_timestamp_conversion_eq. cbn [snd].
  destruct (lookup p (files (fs st))) as [c|].
  - cbv zeta.
    destruct (eqb_str (convert_content p (universal_newlines c))
                      (universal_newlines c)).
    + now apply (@accounted_quiet _ _ [Read p]).
    + eapply (@accounted_fix _ _ [Read p; Write p (Some c) _]);
        [simpl; now rewrite <- app_assoc | reflexivity | reflexivity].
  - now apply (@accounted_quiet _ _ [OpenFailed p]).
Qed.

Lemma accounted_fix_struct_field (o : occurrence) (st : state) :
  accounted 0 st (exec (fix_struct_field o) st).
Proof.
  destruct o as [[p n] l]. unfold exec.
  rewrite fix_struct_field_eq. cbn [snd]. cbv zeta.
  destruct (lookup p (files (fs st))) as [c|];
    [|now apply (@accounted_quiet _ _ [OpenFailed p])].
  destruct (get (readlines (universal_newlines c)) (Z.of_nat n - 1))
    as [ol|]; [|now apply (@accounted_quiet _ _ [Read p])].
  destruct (first_fix fixes ol) as [nl|];
    [|now apply (@accounted_quiet _ _ [Read p])].
  eapply (@accounted_fix _ _ [Read p; Write p (Some c) _]);
    [simpl; now rewrite <- app_assoc | reflexivity | reflexivity].
Qed.

Lemma accounted_fix_direct_assignment (o : occurrence) (st : state) :
  accounted 0 st (exec (fix_direct_assignment o) st).
Proof.
  destruct o as [[p n] l]. unfold exec.
  rewrite fix_direct_assignment_eq. cbn [snd]. cbv zeta.
  destruct (lookup p (files (fs st))) as [c|];
    [|now apply (@accounted_quiet _ _ [OpenFailed p])].
  destruct (get (readlines (universal_newlines c)) (Z.of_nat n - 1))
    as [ol|]; [|now apply (@accounted_quiet _ _ [Read p])].
  destruct (found let_call_pattern ol
            && (contains (lit "test") p || contains (lit "utils") p));
    [|now apply (@accounted_quiet _ _ [Read p])].
  eapply (@accounted_fix _ _ [Read p; Write p (Some c) _]);
    [simpl; now rewrite <- app_assoc | reflexivity | reflexivity].
Qed.

Lemma accounted_loop (body : occurrence -> M unit) (xs : list occurrence)
    (st : state) :
  (forall x, total (body x)) ->
  (forall x s, accounted 0 s (exec (body x) s)) ->
  accounted 0 st (exec (for_each xs body) st).
Proof.
  intros T H. apply (for_each_inv (accounted 0)); auto.
  - apply accounted_refl.
  - intros a b c. apply (@accounted_trans 0 0).
Qed.

Lemma accounted_call (c : method) (st : state) : accounted 0 st (log [Call c] st).
Proof. now apply (@accounted_quiet _ _ [Call c]). Qed.

(** The three rewriters record one fix for each write. *)
Lemma accounted_after_rewriters (cs : categories) (st : state) :
  accounted 0 st (after_rewriters cs st).
Proof.
  unfold after_rewriters.
  repeat (first
    [ apply accounted_call
    | eapply (@accounted_trans 0 0);
      [| first
           [ apply accounted_loop;
             [ first [ apply total_fix_direct_assignment
                     | apply total_fix_struct_field
                     | apply total_fix_timestamp_conversion ]
             | first [ apply accounted_fix_direct_assignment
                     | apply accounted_fix_struct_field
                     | apply accounted_fix_timestamp_conversion ] ]
           | apply accounted_call ] ] ]).
Qed.

(** The injector records one fix or none, and leaves at most one write
    without a fix. *)
Lemma accounted_after_injector (root : path) (st : state) :
  accounted 1 st (after_injector root st).
Proof.
  unfold after_injector, exec.
  rewrite create_time_helper_functions_eq. cbn [snd]. cbv zeta.
  destruct (can_write (fs st) (utils_file root)).
  2:{ exists [OpenFailed (utils_file root)], [].
      rewrite app_nil_r. simpl. auto. }
  set (w := Write (utils_file root) _ utils_content).
  set (st1 := log [w] _).
  assert (C : count_writes [w] = 1) by reflexivity.
  destruct (exists_ (fs st1) (lib_file root)).
  2:{ exists [w], [lit "Created time_utils module"]. rewrite C.
      simpl. auto. }
  destruct (lookup (lib_file root) (files (fs st1))) as [c|].
  2:{ exists ([w] ++ [OpenFailed (lib_file root)]), [].
      rewrite count_writes_app, C, app_nil_r. simpl.
      rewrite <- app_assoc. auto. }
  destruct (contains registration (universal_newlines c)).
  - exists ([w] ++ [Read (lib_file root)]), [lit "Created time_utils module"].
    rewrite count_writes_app, C. simpl. rewrite <- app_assoc. auto.
  - exists ([w] ++ [Read (lib_file root);
                    Write (lib_file root) (Some c)
                          (register (universal_newlines c))]),
           [lit "Created time_utils module"].
    rewrite count_writes_app, C. simpl. rewrite <- !app_assoc. auto.
Qed.

Lemma accounted_run (a0 root : path) (f : fsys) :
  accounted 1 (initial f) (snd (main [a0; root] f)).
Proof.
  assert (W : forall a b, accounted 0 a b -> accounted 1 a b).
  { intros a b (evs & fx & T & F & L & U). exists evs, fx.
    repeat split; auto; lia. }
  assert (S : forall out a, accounted 0 a (say out a))
    by (intros out a; apply (@accounted_quiet _ _ []);
        [simpl; now rewrite app_nil_r | reflexivity | reflexivity]).
  destruct (exists_ f root) eqn:E.
  2:{ unfold main. rewrite E. exists [], []. simpl. auto. }
  rewrite main_eq by assumption. cbn [snd].
  assert (A0 : accounted 0 (initial f) (after_scan root (initial f))).
  { destruct (trace_after_scan root (initial f)) as (scan & T & O & _ & F).
    apply (@accounted_quiet _ _ (Call FindSystemtimeUsage :: scan)); auto.
    change (Call FindSystemtimeUsage :: scan)
      with ([Call FindSystemtimeUsage] ++ scan).
    now rewrite count_writes_app, (count_writes_open O). }
  destruct (matches_of root f) as [|o os].
  { apply W. apply (@accounted_trans 0 0 _ _ _ A0), S. }
  set (ms := o :: os).
  set (s0 := after_scan root (initial f)) in *.
  assert (A1 : accounted 0 s0 (before_fixes ms s0)).
  { destruct (before_fixes_eq ms s0) as (T & _ & F).
    now apply (@accounted_quiet _ _ [Call CategorizeUsage;
                                     Call CreateTimeHelperFunctions]). }
  set (s1 := before_fixes ms s0) in *.
  pose proof (accounted_after_injector root s1) as A2.
  set (s2 := after_injector root s1) in *.
  pose proof (accounted_after_rewriters (categorize_usage ms) s2) as A3.
  set (s3 := after_rewriters (categorize_usage ms) s2) in *.
  assert (A4 : accounted 0 s3 (exec print_summary s3)).
  { destruct (print_summary_eq s3) as (T & _ & F).
    apply (@accounted_quiet _ _ []); auto. now rewrite app_nil_r. }
  apply (@accounted_trans 0 1 _ _ _ A0).
  apply (@accounted_trans 0 1 _ _ _ A1).
  apply (@accounted_trans 1 0 _ _ _ A2).
  apply (@accounted_trans 0 0 _ _ _ A3 A4).
Qed.

Lemma identity_scan_lines (p : path) (k : nat) (lines : list str) (x : path * nat) :
  In x (map identity (scan_lines p k lines)) -> fst x = p /\ k <= snd x.
Proof.
  rewrite in_map_iff. intros ([[q n] l] & <- & H).
  apply scan_lines_in in H. simpl. tauto.
Qed.

Lemma NoDup_scan_lines (p : path) (k : nat) (lines : list str) :
  NoDup (map identity (scan_lines p k lines)).
Proof.
  revert k. induction lines as [|x lines IH]; intros k; simpl.
  - constructor.
  - destruct (found usage_pattern x); simpl; [|apply IH].
    constructor; [|apply IH].
    intros H. apply identity_scan_lines in H. simpl in H. lia.
Qed.

Lemma NoDup_scan_tree (f : fsys) (ps : list path) :
  NoDup ps -> NoDup (map identity (scan_tree f ps)).
Proof.
  unfold scan_tree. induction 1 as [|p ps Hp _ IH]; simpl; [constructor|].
  rewrite map_app. apply NoDup_app; [| exact IH |].
  - apply NoDup_scan_lines.
  - intros x H1 H2.
    assert (E : fst x = p) by now apply identity_scan_lines in H1.
    apply in_map_iff in H2. destruct H2 as (o & <- & H2).
    apply in_flat_map in H2. destruct H2 as (q & Hq & H2).
    destruct o as [[r n] l]. apply scan_lines_in in H2.
    destruct H2 as (-> & _). simpl in E. congruence.
Qed.

(** The walk lists no path twice in a tree that lists no file twice. *)
Lemma NoDup_rglob_rs (f : fsys) (root : path) :
  NoDup (map fst (files f)) -> NoDup (rglob_rs f root).
Proof.
  intros H. unfold rglob_rs. apply NoDup_filter, NoDup_app.
  - exact H.
  - apply NoDup_filter, NoDup_nodup.
  - intros x H1 H2. apply is_file_in_names in H1.
    apply filter_In in H2. destruct H2 as [_ H2]. rewrite H1 in H2.
    discriminate.
Qed.

End ReportFacts.

Section ReportProperties.
Import Py Re ReLang Fs Fixer Props Examples More.
Local Open Scope string_scope.
Local Open Scope nat_scope.
Local Open Scope list_scope.

(** X13.  Every fix a run records has its write, and at most one write of a
    run has no fix recorded: the number of fixes in the report is the number
    of writes or one less. *)
Theorem X13_every_recorded_fix_has_its_write (a0 root : path) (f : fsys) :
  let st := snd (main [a0; root] f) in
  length (fixes_applied st) <= count_writes (trace st)
  /\ count_writes (trace st) <= length (fixes_applied st) + 1.
Proof.
  destruct (accounted_run a0 root f) as (evs & fx & T & F & L & U).
  cbv zeta. rewrite T, F. simpl. auto.
Qed.

(** X14.  In a tree that lists no file twice the matcher reports no line
    twice: no two entries of its result agree on file and line number. *)
Theorem X14_no_line_is_reported_twice (root : path) (f : fsys) :
  NoDup (map fst (files f)) -> NoDup (map identity (matches_of root f)).
Proof.
  intros H. rewrite matches_of_eq. now apply NoDup_scan_tree, NoDup_rglob_rs.
Qed.

(** X14 at the tree [test_tree]. *)
Lemma X14_witness : NoDup (map identity (matches_of root test_tree)).
Proof.
  apply X14_no_line_is_reported_twice.
  repeat constructor; simpl; intuition discriminate.
Defined.

End ReportProperties.

Section StaleLineFacts.
Import Py Re ReLang Fs Fixer Props More.
Local Open Scope string_scope.
Local Open Scope nat_scope.
Local Open Scope list_scope.

(** The lines of the file after the direct-assignment rewriter has handled
    an occurrence whose line, in the text read, holds a binding with the
    call; what is stored holds no CR, so it is read back as it is. *)
Lemma fix_direct_assignment_inserts
    (st : state) (p : path) (n : nat) (l t ol : str) :
  1 <= n ->
  read_text (fs st) p = Some t ->
  nth_error (readlines t) (n - 1) = Some ol ->
  found let_call_pattern ol = true ->
  contains (lit "test") p || contains (lit "utils") p = true ->
  let ls := firstn (n - 1) (readlines t)
            ++ allow_line ol :: skipn (n - 1) (readlines t) in
  lookup p (files (fs (exec (fix_direct_assignment (p, n, l)) st)))
  = Some (joinlines ls)
  /\ readlines (joinlines ls) = ls
  /\ read_text (fs (exec (fix_direct_assignment (p, n, l)) st)) p
     = Some (joinlines ls).
Proof.
  intros Hn L N F T ls. destruct (read_text_some _ _ L) as (c & Lc & ->).
  pose proof (no_CR_annotated c (Z.of_nat n - 1) ol) as NC. cbv zeta in NC.
  unfold exec, read_text.
  rewrite fix_direct_assignment_eq. cbn [snd]. cbv zeta. rewrite Lc.
  set (t := universal_newlines c) in *.
  destruct (get_line_number (readlines t) Hn) as [G _]. rewrite G, N, F, T.
  cbn [andb].
  assert (B : n - 1 < length (readlines t))
    by (apply nth_error_Some; congruence).
  rewrite insert_at_line in * by (try lia; assumption).
  fold ls in NC |- *. simpl. rewrite lookup_update_same. cbn [option_map].
  rewrite (@universal_newlines_id _ NC).
  repeat split.
  apply readlines_joinlines, wf_lines_insert;
    [apply readlines_wf | exact B | apply allow_line_terminated].
Qed.

(** The direct-assignment rewriter leaves the tree as it is at a line that
    holds no binding with the call. *)
Lemma fix_direct_assignment_skips
    (st : state) (p : path) (n : nat) (l t ol : str) :
  1 <= n ->
  read_text (fs st) p = Some t ->
  nth_error (readlines t) (n - 1) = Some ol ->
  found let_call_pattern ol = false ->
  exec (fix_direct_assignment (p, n, l)) st = log [Read p] st.
Proof.
  intros Hn L N F. destruct (read_text_some _ _ L) as (c & Lc & ->).
  unfold exec.
  rewrite fix_direct_assignment_eq. cbn [snd]. cbv zeta. rewrite Lc.
  destruct (get_line_number (readlines (universal_newlines c)) Hn) as [G _].
  now rewrite G, N, F.
Qed.

(** What stands at an index behind an inserted element. *)
Lemma nth_error_behind_inserted {A} (ls : list A) (k i : nat) (x : A) :
  k < i -> k <= length ls ->
  nth_error (firstn k ls ++ x :: skipn k ls) i = nth_error ls (i - 1).
Proof.
  intros H B.
  rewrite nth_error_app2 by (rewrite length_firstn; lia).
  rewrite length_firstn, Nat.min_l by exact B.
  destruct (i - k) as [|j] eqn:E; [lia|]. simpl.
  rewrite nth_error_skipn. f_equal. lia.
Qed.

End StaleLineFacts.

Section StaleLineProperties.
Import Py Re ReLang Fs Fixer Props Examples More.
Local Open Scope string_scope.
Local Open Scope nat_scope.
Local Open Scope list_scope.

(** X15.  The line numbers of the matcher go stale: once the
    direct-assignment rewriter has put an annotation above line [n1] of a
    file, an occurrence at a later line [n2] of that file is handled by
    looking at what was line [n2 - 1] of the text read.  When that line
    holds no binding with the call the tree stays as it is; when it does,
    the annotation goes above that line and not above line [n2]. *)
Theorem X15_later_occurrence_is_handled_one_line_early
    (st : state) (p : path) (n1 n2 : nat) (l1 l2 t ol prev : str) :
  1 <= n1 -> n1 < n2 ->
  read_text (fs st) p = Some t ->
  nth_error (readlines t) (n1 - 1) = Some ol ->
  found let_call_pattern ol = true ->
  contains (lit "test") p || contains (lit "utils") p = true ->
  nth_error (readlines t) (n2 - 2) = Some prev ->
  let st1 := exec (fix_direct_assignment (p, n1, l1)) st in
  let st2 := exec (fix_direct_assignment (p, n2, l2)) st1 in
  nth_error (lines_of (fs st1) p) (n2 - 1) = Some prev
  /\ (found let_call_pattern prev = false -> fs st2 = fs st1)
  /\ (found let_call_pattern prev = true ->
      lines_of (fs st2) p
      = firstn (n2 - 1) (lines_of (fs st1) p)
        ++ allow_line prev :: skipn (n2 - 1) (lines_of (fs st1) p)).
Proof.
  intros H1 H2 L N F T P st1 st2.
  destruct (@fix_direct_assignment_inserts st p n1 l1 t ol H1 L N F T)
    as (L1 & R1 & T1).
  fold st1 in L1, T1.
  assert (B : n1 - 1 < length (readlines t))
    by (apply nth_error_Some; congruence).
  assert (E : nth_error (lines_of (fs st1) p) (n2 - 1) = Some prev).
  { unfold lines_of. rewrite L1, R1.
    rewrite nth_error_behind_inserted by lia.
    now replace (n2 - 1 - 1) with (n2 - 2) by lia. }
  split; [exact E|]. unfold lines_of in E. rewrite L1 in E.
  split; intros Fp.
  - unfold st2.
    assert (H : 1 <= n2) by lia.
    now rewrite (@fix_direct_assignment_skips st1 p n2 l2 _ prev H T1 E Fp).
  - assert (H : 1 <= n2) by lia.
    destruct (@fix_direct_assignment_inserts st1 p n2 l2 _ prev H T1 E Fp T)
      as (L2 & R2 & _).
    fold st2 in L2. unfold lines_of. now rewrite L2, R2, L1.
Qed.

(** X15 at two bindings on the lines 1 and 2 of a test file: the first gets
    both annotations, the second none. *)
Lemma X15_witness :
  let a := lit "let a = SystemTime::now();" ++ [LF] in
  let b := lit "let b = SystemTime::now();" ++ [LF] in
  let st := initial (mkFs [(test_file, a ++ b)] []) in
  lines_of (fs (exec (fix_direct_assignment (test_file, 2, []))
                  (exec (fix_direct_assignment (test_file, 1, [])) st)))
           test_file
  = [allow_attribute ++ [LF]; allow_attribute ++ [LF]; a; b].
Proof.
  intros a b st.
  etransitivity;
    [apply (@X15_later_occurrence_is_handled_one_line_early
              st test_file 1 2 [] [] (a ++ b) a a);
     first [lia | reflexivity]
    | vm_compute; reflexivity].
Defined.

End StaleLineProperties.
